(* ===== verification/_CoqProject ===== *)
-Q . S2P
Prelude.v
Cipher.v
Aes.v
KeyStore.v
Transfer.v
Dispatcher.v
Geometry.v
Lifecycle.v
Interleave.v
Writers.v
System.v
Registration.v
Session.v
