(* ===== verification/Prelude.v ===== *)
(** * A verified model of the sbd encrypting RAM-disk driver

    Program: [src/assignments/a3/ramdisk.c], a Linux 2.6/3.x block driver
    ("sbd") that exposes a RAM-backed disk of [nsectors * logical_block_size]
    bytes and, once a key has been written to the sysfs attribute [key],
    encrypts every block written to the disk with AES (through the kernel
    crypto API, one 16-byte block at a time) and decrypts every block read.

    ** Parts of the program and how they interact

    - KeyStore ([key_store], [key_display], the globals [crypto_key] and
      [key_size], lines 34-36, 66-89): the sysfs [key] attribute.  A write of
      [count] bytes is accepted only for [count] in {16,24,32}; the bytes are
      copied into the 32-byte array [crypto_key] with [snprintf("%.*s")].
    - CipherContext ([tfm], the kernel crypto API): the AES transform.  The
      driver calls [crypto_cipher_clear_flags], [crypto_cipher_setkey],
      [crypto_cipher_blocksize], [crypto_cipher_encrypt_one] and
      [crypto_cipher_decrypt_one]; the API is not under src/ and is modelled
      from the spec, the API's documented behaviour and FIPS-197 (AES).
    - TransferEngine ([sbd_transfer], lines 106-157): turns a sector range into
      a byte range of the backing buffer [Device.data], checks it against
      [Device.size], re-installs the key, and copies (raw) or
      encrypts/decrypts (block by block) between the caller's buffer and the
      disk.
    - RequestDispatcher ([sbd_request], lines 159-178): the request function
      of the block queue, which drains the queue and calls [sbd_transfer] on
      each segment of each file-system request.
    - Lifecycle and geometry ([sbd_init], [sbd_exit], [sbd_getgeo], lines
      185-293): allocation and registration of every resource, and the fake
      disk geometry.

    [sbd_request] runs with the queue lock [Device.lock] held; [key_store] and
    [key_display] run from sysfs without it.

    ** Files of the development (in dependency order)

    - [Prelude] (this file): the result monad [res] of the driver's model
      (a value, a [Fault] for undefined behaviour such as an out-of-bounds
      access, or [OutOfFuel]), bounds-checked byte-array access [mem_load] /
      [mem_store] over [list byte] (the C pointer arithmetic
      [dev->data + offset + k] and the [memcpy]s), C integer conversions
      ([ulong] is the 64-bit [unsigned long] wrap-around), the hint database
      [drv], the list lemmas the components share, and the termination
      ([sn_measure]) and determinism ([det_nf_unique]) arguments of the
      step relations.
    - [Cipher]: the interface [BlockCipher] the driver needs from AES (a
      keyed permutation of 16-byte blocks), the [crypto_tfm] state with
      [crypto_cipher_clear_flags] and [crypto_cipher_setkey], the reference
      ECB transformation [ecb_blocks], and a small instance used to run
      the witnesses.
    - [Aes]: AES as FIPS-197 defines it and [crypto/aes_generic.c]
      computes it (S-box tables, MixColumns in GF(2^8), key expansion,
      Cipher and InvCipher, the zeroed context of a never-keyed
      transform), and its instance [aes_cipher] of [BlockCipher].  The
      driver's theorems hold for every instance, so for AES.
    - [KeyStore]: [key_store], [key_display], the [snprintf]/[scnprintf]
      models, the key-store invariant and the key actually installed in the
      transform.
    - [Transfer]: [sbd_transfer] with the block loop [xfer_blocks] (fuel),
      its equivalence with the ECB reference, its bounds behaviour, and the
      refinement of an abstract plaintext disk.
    - [Dispatcher]: the block-layer request queue ([blk_fetch_request],
      [blk_end_request_cur], [blk_end_request_all], modelled from the
      kernel's documented behaviour), the request loop of [sbd_request] with
      an explicit handle (request pointer plus a liveness bit: a request is
      freed when its last segment or the whole request is ended), and the
      reference semantics [serve_queue] that serves the queue request by
      request, segment by segment.
    - [Geometry]: [sbd_getgeo] with its C conversions ([int] division,
      [unsigned long] product, conversion to [long], [Z.land] with
      [~0x3f], [Z.shiftr] by 6, truncation to [unsigned short]).
    - [Lifecycle]: [sbd_init] (every [goto] path) and [sbd_exit] in a
      state-and-fault monad [M] over the module's globals and a ledger of
      the kernel resources the module holds; the outcome of each fallible
      kernel call is a parameter [kenv], and a release of a resource that
      is not held is a [Fault DoubleFree].  Its tactics [lc_eval] and
      [lc_cases] execute the code symbolically, along one path or along
      every path.
    - [Interleave]: the unlocked [key_store] against a transfer: each
      handler split at its accesses to [crypto_key] / [key_size]
      ([transfer_prologue] then [transfer_body]; [key_store_copy] then
      [key_store_set_size], one writer step [kstep]), an executable
      scheduler [run], the step relation [step] derived from the one-step
      function [step_fun], and its reflexive-transitive closure [reachable].
    - [Writers]: any number of concurrent writers of the [key] attribute,
      each stepping with [kstep] on the shared key store ([wstep]).
    - [System]: the whole concurrent driver: [sbd_request] as a thread
      ([dstep], cut at the key installation of each [sbd_transfer] and
      between the segments of the drain) against a pool of writers; the
      one-step function [cstep_fun], the scheduler [crun] and the step
      relation [cstep].
    - [Registration]: the tables the module hands to the kernel
      ([DEVICE_ATTR(key, ...)] line 91, [rd_root_dev] lines 93-101,
      [sbd_ops] lines 200-203) and the kernel paths that call them (the
      sysfs read and write of an attribute, the [HDIO_GETGEO] ioctl),
      modelled from the kernel's documented behaviour.
    - [Session]: the driver between [module_init] and [module_exit]: the
      state [loaded_drv] the handlers see after a successful [sbd_init]
      (the [Lifecycle] globals as the [Transfer] state), and a session of
      a sysfs key write, a block write and a read back.

    ** Theorems (by group)

    - KeyStore: rejection of invalid lengths leaves the state unchanged; the
      invariant (length 32, [key_size] in {0,16,24,32}, a NUL in the array)
      is preserved, so [key_display] never reads past the array and the
      [setkey] call of every transfer succeeds; the installed key for each
      accepted length (a 32-byte key loses its last byte: a finding).
    - Transfer: termination of the block loop with the fuel the model gives;
      equivalence of the loop with ECB; write/read round trip; frame
      (nothing outside the requested range changes); out-of-range requests
      change nothing; refinement of the plaintext disk; equal plaintext
      blocks are stored as equal blocks (ECB); and the bugs: the
      64-bit wrap-around of [offset + nbytes] that passes the bounds check
      and then accesses memory outside the buffer, and the block loop that
      overruns the range when [logical_block_size] is not a multiple of 16.
    - Dispatcher: on a queue of file-system requests [sbd_request] terminates
      with the fuel below and equals the reference [serve_queue] (FIFO
      completions, one per segment, in queue order); and the bugs:
      a non-file-system request is ended and then dereferenced again
      (use after free), every segment is reported successful even when the
      transfer refused it, and the segment's sector count (512-byte kernel
      sectors) is multiplied by [logical_block_size], so a segment overruns
      its buffer when the block size is not 512.
    - Geometry: the mask-and-shift is a floor division by 64; the geometry
      describes a disk [512 * (logical_block_size / 512)] times too large;
      the 16-bit cylinder count wraps to 0 (default [nsectors] with 4096-byte
      blocks) and is 0 for block sizes below 512.
    - Lifecycle: load then unload leaks the first device buffer (the set-up
      block is duplicated) and, with a static [major_num], the major number;
      the state after a successful load (the gendisk's capacity counts
      blocks as 512-byte sectors); no path of [sbd_init] releases twice,
      whatever the kernel answers; every failure after the transform keeps
      resources held (the spec requires their release); a failing
      [device_register] leaves the disk published over a freed buffer; and
      [nsectors * logical_block_size] overflows [int] above [INT_MAX].
    - Interleave: a serial schedule computes the atomic handlers; the
      driver invariant holds in every reachable state (rule induction); the
      interleaved system terminates (strong normalization of [step], by the
      measure [steps_left]) and every final state has both threads returned
      (liveness: no interleaving deadlocks); a write racing with the first
      key store encrypts with the never-keyed transform, and the result is
      not that of any serial order (the spec serializes key changes and
      transfers under the device lock); a transfer between the two stores
      of [key_store] installs the new bytes cut to the old length.
    - Writers: with any number of writers the key-store invariant holds in
      every reachable state; for any two NUL-free keys of accepted lengths,
      two writers that both report success can leave a torn key (the
      shorter key, a NUL, the tail of the longer one, under the longer
      length), which no serial order of the writes produces.
    - System: for any queue, any number of writers and any interleaving,
      the invariant holds in every reachable state (rule induction on
      [cstep]); every run is finite (the measure [c_left]: the steps the
      request function and each writer still have to take) and ends with
      every writer returned and the request function returned or stopped
      at undefined behaviour.  A lemma checks the cut of the request
      function: with no writer active the system computes exactly
      [sbd_request] (a simulation of [request_loop] and the determinism of
      the request function's steps).
    - Registration: a sysfs write reaches [key_store] only for root and a non-empty buffer; the
      [HDIO_GETGEO] ioctl on a partition reports start 0, because
      [sbd_getgeo] overwrites the start the block layer preset.
    - Aes: the FIPS-197 appendix C vectors for the three key sizes; for
      every key InvCipher and Cipher are inverse on 16-byte blocks (the
      MixColumns inverse proved bit by bit with [btauto], the S-box inverse
      over the 256 bytes), so AES meets [BlockCipher].
    - Session: after a successful load the handlers' invariant holds and,
      whatever key is stored, every write inside the gendisk's capacity
      changes the plaintext view of the disk as a plain array write at
      [sector * logical_block_size] (the capacity and the bounds check
      count the same units); load, a root key write through sysfs, a write
      and a read of the same sectors returns the bytes written.

    ** Bounds and fuel

    Integers: [sector] is a [sector_t] (u64) and [offset], [nbytes] are
    [unsigned long]; the model computes them as [Z] reduced modulo 2^64
    ([ulong]).  The loop counter [k] of [xfer_blocks] is a C [int] kept as
    an unbounded [Z]: it stays below [nbytes + 16], and [nbytes <=
    Device.size] on every transfer that passes the bounds check without
    wrap-around.  The invariant [drv_wf] does not bound [Device.size]; the
    states [sbd_init] creates have [Device.size = nsectors *
    logical_block_size], an [int] product at most [INT_MAX] on every
    successful load ([Lifecycle], [Session]), so there [k] fits an [int].
    On a state with a larger [Device.size] the model's [k] does not wrap
    where the C [int] would overflow; the [Transfer] theorems are stated
    for such states too and say nothing about that overflow.
    The block loop is given [Z.to_nat nbytes + 1] units of fuel: each
    iteration advances [k] by the block size (at least 1), so this is one
    more than the number of iterations, and the theorems show the loop never
    runs out of it.  The request loop is given one unit per segment of the
    queue plus one ([dispatch_fuel]): each iteration ends one segment or
    one request, and the termination theorem shows this is enough.

    Granularity of the concurrency models: [Interleave], [Writers] and
    [System] cut the handlers only at their accesses to the shared key
    state.  The [snprintf] store of [key_store_copy] and the read of
    [crypto_key] / [key_size] by [crypto_cipher_setkey] are each one
    atomic step; a race inside one of them (a byte-wise copy against a
    byte-wise read) is not modelled, so the torn keys the theorems exhibit
    are the ones that arise even when each of these calls is atomic.

    ** Plan and what is not modelled (yet)

    Later: [sbd_exit] after a session (the [Lifecycle] ledger does not
    depend on what the handlers did), and sysfs reads of the key
    ([key_display]) as threads of [System] (they only read the array).

    Not modelled: what the kernel does with the objects the module
    registers beyond holding them (the ledger records which are held;
    [spin_lock_init] and the gendisk's [fops] / [private_data] pointers
    have no effect in the model), the contents of a fresh [vmalloc] area,
    [printk] text beyond which message is logged, and the architecture
    implementations of AES (assembly, AES-NI) that the crypto API may pick
    instead of [aes_generic]: they compute the same permutation for the
    keys [setkey] accepts; [MODULE_LICENSE] and
    [Version] are the strings they declare, and the [.owner] field of
    [sbd_ops] has no behaviour the driver depends on; the [#include]s are
    not code. *)

From stdpp Require Import base list decidable sets relations.
From Stdlib Require Import ZArith Lia Strings.Byte.

Set Warnings "-clear-no-such-hyp".
Open Scope Z_scope.

Declare Scope drv_scope.
Delimit Scope drv_scope with drv.

Create HintDb drv.
Create Rewrite HintDb drv_rw.

(** ** Bytes *)

Abbreviation byte := Byte.byte.

#[export] Instance byte_eq_decision : EqDecision byte := Byte.byte_eq_dec.

(** ** C integer conversions *)

(** [unsigned long] on the 64-bit kernels the driver targets. *)
Definition ULONG_MODULUS : Z := 2 ^ 64.
Definition ulong (z : Z) : Z := z mod ULONG_MODULUS.

Definition INT_MAX : Z := 2 ^ 31 - 1.

(** Errno values returned by the driver. *)
Definition EIO : Z := 5.
Definition ENOMEM : Z := 12.
Definition EINVAL : Z := 22.

(** ** The result monad of the model *)

(** Undefined behaviour of the C code that the model detects. *)
Inductive fault :=
  | OobDevice        (** access outside [Device.data] *)
  | OobBuffer        (** access outside the caller's buffer *)
  | OobKey           (** string read past the end of [crypto_key] *)
  | UseAfterFree     (** use of a request after its completion *)
  | DoubleFree       (** release of a kernel resource that is not held *)
  | SignedOverflow.  (** overflow of a signed [int] operation *)

#[export] Instance fault_eq_decision : EqDecision fault.
Proof. solve_decision. Defined.

Inductive res (A : Type) :=
  | Ok (a : A)
  | Fault (f : fault)
  | OutOfFuel.
Arguments Ok {A} a.
Arguments Fault {A} f.
Arguments OutOfFuel {A}.

Definition res_bind {A B} (c : res A) (k : A -> res B) : res B :=
  match c with
  | Ok a => k a
  | Fault f => Fault f
  | OutOfFuel => OutOfFuel
  end.

Definition of_option {A} (f : fault) (o : option A) : res A :=
  match o with Some a => Ok a | None => Fault f end.

Notation "'let?' x := c 'in' k" := (res_bind c (fun x => k))
  (at level 10, x name, c at level 100, k at level 200) : drv_scope.

Open Scope drv_scope.

Lemma res_bind_Ok {A B} (c : res A) (k : A -> res B) b :
  res_bind c k = Ok b <-> exists a, c = Ok a /\ k a = Ok b.
Proof.
  split; [destruct c; simpl; [eauto|discriminate|discriminate]|].
  intros (a & -> & Hk). exact Hk.
Qed.

(** ** Byte arrays: the C buffers *)

(** [splice m i xs] overwrites [m] from index [i] on with [xs]. *)
Definition splice {A} (m : list A) (i : nat) (xs : list A) : list A :=
  take i m ++ xs ++ drop (i + length xs) m.

(** Read [n] bytes at offset [a] of the array [m]; [None] if the range is
    not inside the array (undefined behaviour in C). *)
Definition mem_load (m : list byte) (a n : Z) : option (list byte) :=
  if decide (0 <= a /\ 0 <= n /\ a + n <= Z.of_nat (length m))
  then Some (take (Z.to_nat n) (drop (Z.to_nat a) m))
  else None.

(** Write the bytes [xs] at offset [a] of [m]; [None] if out of range. *)
Definition mem_store (m : list byte) (a : Z) (xs : list byte) : option (list byte) :=
  if decide (0 <= a /\ a + Z.of_nat (length xs) <= Z.of_nat (length m))
  then Some (splice m (Z.to_nat a) xs)
  else None.

(** [memcpy(dst + doff, src + soff, n)] between two distinct arrays. *)
Definition memcpy (dst : list byte) (doff : Z) (src : list byte) (soff n : Z)
    (fdst fsrc : fault) : res (list byte) :=
  let? xs := of_option fsrc (mem_load src soff n) in
  of_option fdst (mem_store dst doff xs).

(** The bytes [[a, a+n)] of [m] (no bounds check: a specification helper). *)
Definition slice {A} (m : list A) (a n : nat) : list A := take n (drop a m).

(** ** Shared lemmas on arrays *)

Section Arrays.
Context {A : Type}.
Local Open Scope nat_scope.
Implicit Types (m xs ys : list A) (i j n : nat).

Lemma length_splice m i xs :
  i + length xs <= length m -> length (splice m i xs) = length m.
Proof. intros H. unfold splice. rewrite !length_app, length_take, length_drop. lia. Qed.

Lemma take_splice m i xs :
  i <= length m -> take i (splice m i xs) = take i m.
Proof.
  intros H. unfold splice. rewrite take_app_le by (rewrite length_take; lia).
  rewrite take_take. f_equal. lia.
Qed.

Lemma drop_splice m i xs :
  i <= length m -> drop (i + length xs) (splice m i xs) = drop (i + length xs) m.
Proof.
  intros H. unfold splice. rewrite app_assoc, drop_app_length'; [done|].
  rewrite length_app, length_take. lia.
Qed.

(** A window inside the spliced part reads the spliced list. *)
Lemma slice_splice_in m a xs b c :
  a + length xs <= length m -> b + c <= length xs ->
  slice (splice m a xs) (a + b) c = slice xs b c.
Proof.
  intros H1 H2. unfold slice, splice.
  rewrite <- drop_drop, drop_app_length' by (rewrite length_take; lia).
  rewrite drop_app_le by lia. rewrite take_app_le; [done|]. rewrite length_drop. lia.
Qed.

Lemma slice_splice m i xs :
  i + length xs <= length m -> slice (splice m i xs) i (length xs) = xs.
Proof.
  intros H. unfold slice, splice. rewrite drop_app_length'.
  - by rewrite take_app_length.
  - rewrite length_take. lia.
Qed.

Lemma splice_slice m i n :
  i + n <= length m -> splice m i (slice m i n) = m.
Proof.
  intros H. unfold splice, slice.
  rewrite length_take, length_drop, Nat.min_l by lia.
  rewrite <- (take_drop i m) at 4. f_equal.
  rewrite <- (take_drop n (drop i m)) at 2. f_equal. by rewrite drop_drop.
Qed.

Lemma splice_splice_adjacent m i xs ys :
  i + length xs + length ys <= length m ->
  splice (splice m i xs) (i + length xs) ys = splice m i (xs ++ ys).
Proof.
  intros H. unfold splice. rewrite (app_assoc (take i m) xs).
  assert (Hl : length (take i m ++ xs) = i + length xs)
    by (rewrite length_app, length_take; lia).
  rewrite take_app_length' by done.
  rewrite (drop_app_add' _ _ (i + length xs) (length ys)) by done.
  rewrite drop_drop, length_app, <- !app_assoc. by rewrite Nat.add_assoc.
Qed.

Lemma lookup_take_lt m i n : i < n -> take n m !! i = m !! i.
Proof. intros H. rewrite lookup_take. by case_decide. Qed.

Lemma lookup_splice_out m i xs j :
  i + length xs <= length m -> (j < i \/ i + length xs <= j)%nat ->
  splice m i xs !! j = m !! j.
Proof.
  intros H [Hj|Hj]; unfold splice.
  - rewrite lookup_app_l by (rewrite length_take; lia). by apply lookup_take_lt.
  - rewrite app_assoc, lookup_app_r by (rewrite length_app, length_take; lia).
    rewrite lookup_drop, length_app, length_take. f_equal. lia.
Qed.

Lemma splice_app_slices m i n :
  i + n <= length m -> take i m ++ slice m i n ++ drop (i + n) m = m.
Proof.
  intros H. pose proof (splice_slice m i n H) as E. unfold splice in E.
  unfold slice in *. rewrite length_take, length_drop, Nat.min_l in E by lia. exact E.
Qed.

Lemma splice_nil m i : splice m i [] = m.
Proof. unfold splice. simpl. rewrite Nat.add_0_r. apply take_drop. Qed.

Lemma slice_take_in m N a b : a + b <= N -> slice (take N m) a b = slice m a b.
Proof.
  intros H. unfold slice. rewrite skipn_firstn_comm, take_take. f_equal. lia.
Qed.

Lemma slice_take_l m q a b : take a (slice m q (a + b)) = slice m q a.
Proof. unfold slice. rewrite take_take. f_equal. lia. Qed.

Lemma slice_drop_l m q a b : drop a (slice m q (a + b)) = slice m (q + a) b.
Proof.
  unfold slice. rewrite skipn_firstn_comm, drop_drop. f_equal. lia.
Qed.

Lemma splice_app3 (a b c y : list A) : length b = length y ->
  splice (a ++ b ++ c) (length a) y = a ++ y ++ c.
Proof.
  intros H. unfold splice. rewrite take_app_length, <- H, drop_app_add, drop_app_length. done.
Qed.

Lemma slice_app3 (a b c : list A) : slice (a ++ b ++ c) (length a) (length b) = b.
Proof. unfold slice. rewrite drop_app_length. apply take_app_length. Qed.

End Arrays.

Lemma mem_load_Some m a n xs :
  mem_load m a n = Some xs <->
  (0 <= a /\ 0 <= n /\ a + n <= Z.of_nat (length m)) /\
  xs = slice m (Z.to_nat a) (Z.to_nat n).
Proof. unfold mem_load, slice. case_decide; naive_solver. Qed.

Lemma mem_store_Some m a xs m' :
  mem_store m a xs = Some m' <->
  (0 <= a /\ a + Z.of_nat (length xs) <= Z.of_nat (length m)) /\
  m' = splice m (Z.to_nat a) xs.
Proof. unfold mem_store. case_decide; naive_solver. Qed.

Lemma mem_load_None m a n :
  mem_load m a n = None <-> ~ (0 <= a /\ 0 <= n /\ a + n <= Z.of_nat (length m)).
Proof. unfold mem_load. case_decide; naive_solver. Qed.

Lemma mem_store_None m a xs :
  mem_store m a xs = None <-> ~ (0 <= a /\ a + Z.of_nat (length xs) <= Z.of_nat (length m)).
Proof. unfold mem_store. case_decide; naive_solver. Qed.

Lemma length_slice {A} (m : list A) (i n : nat) :
  (i + n <= length m)%nat -> length (slice m i n) = n.
Proof. intros H. unfold slice. rewrite length_take, length_drop. lia. Qed.

Lemma memcpy_ok dst doff src soff n fdst fsrc :
  0 <= doff -> 0 <= soff -> 0 <= n ->
  soff + n <= Z.of_nat (length src) -> doff + n <= Z.of_nat (length dst) ->
  memcpy dst doff src soff n fdst fsrc =
    Ok (splice dst (Z.to_nat doff) (slice src (Z.to_nat soff) (Z.to_nat n))).
Proof.
  intros Hd Hs Hn Hsl Hdl. unfold memcpy.
  rewrite (proj2 (mem_load_Some _ _ _ (slice src (Z.to_nat soff) (Z.to_nat n))))
    by (split; [lia|done]). cbn [of_option res_bind].
  rewrite (proj2 (mem_store_Some _ _ _ (splice dst (Z.to_nat doff)
                                          (slice src (Z.to_nat soff) (Z.to_nat n))))); [done|].
  rewrite length_slice by lia. split; [lia|done].
Qed.

Lemma res_bind_not_fuel {A B} (c : res A) (k : A -> res B) :
  c <> OutOfFuel -> (forall a, k a <> OutOfFuel) -> res_bind c k <> OutOfFuel.
Proof. destruct c; simpl; auto. Qed.

Lemma memcpy_not_fuel dst doff src soff n fd fs : memcpy dst doff src soff n fd fs <> OutOfFuel.
Proof.
  unfold memcpy. destruct (mem_load src soff n); cbn [of_option res_bind]; [|discriminate].
  destruct (mem_store dst doff l); discriminate.
Qed.

Lemma ulong_small z : 0 <= z < ULONG_MODULUS -> ulong z = z.
Proof. intros H. unfold ulong. by apply Z.mod_small. Qed.

Lemma ulong_range z : 0 <= ulong z < ULONG_MODULUS.
Proof. unfold ulong, ULONG_MODULUS. apply Z.mod_pos_bound. lia. Qed.

#[export] Hint Resolve length_splice length_slice ulong_range : drv.
#[export] Hint Rewrite @take_splice @drop_splice @slice_splice @splice_slice : drv_rw.

(** ** Transition systems

    The concurrent parts of the model are step relations; these are the
    two facts their termination and determinism arguments share. *)

Section Transitions.
Context {A : Type} (R : relation A).

(** A step relation that decreases a measure in [nat] terminates. *)
Lemma sn_measure (m : A -> nat) :
  (forall x y, R x y -> (m y < m x)%nat) -> forall x, sn R x.
Proof.
  intros Hm x. remember (m x) as n eqn:E. revert x E.
  induction n as [n IH] using lt_wf_ind. intros x ->.
  constructor. intros y Hy. eapply IH; [apply Hm, Hy | done].
Qed.

(** A step relation that is deterministic on the states of an invariant
    [P] has at most one normal form reachable from such a state. *)
Lemma det_nf_unique (P : A -> Prop) :
  (forall x y, P x -> R x y -> P y) ->
  (forall x y z, P x -> R x y -> R x z -> y = z) ->
  forall x y z, P x -> rtc R x y -> rtc R x z -> nf R y -> nf R z -> y = z.
Proof.
  intros HP Hdet x y z Px Hy. revert z Px. induction Hy as [x|x x1 y H1 _ IH]; intros z Px Hz Ny Nz.
  - destruct Hz as [|x x2 z H2 _]; [done|]. destruct Ny. by exists x2.
  - destruct Hz as [|x x2 z H2 Hz]; [destruct Nz; by exists x1|].
    rewrite <- (Hdet _ _ _ Px H1 H2) in Hz. apply IH; [eapply HP; eauto|done|done|done].
Qed.

(** Summing over a list in which one element is replaced. *)
Lemma sum_list_with_insert {B} (f : B -> nat) (l : list B) i x y :
  l !! i = Some x -> (sum_list_with f (<[i := y]> l) + f x = sum_list_with f l + f y)%nat.
Proof.
  revert i. induction l as [|z l IH]; intros [|i] Hi; simplify_eq/=; [lia|].
  specialize (IH i Hi). lia.
Qed.

End Transitions.
