(* ===== verification/Cipher.v ===== *)
(** * Cipher: the AES transform of the kernel crypto API as the driver uses it

    The driver allocates one [crypto_cipher] for "aes" ([sbd_init], line 208)
    and, on every transfer with a key, clears its flags and sets its key
    (lines 116-117), then calls [crypto_cipher_encrypt_one] /
    [crypto_cipher_decrypt_one] on 16-byte blocks (lines 133-150).  The
    crypto API is not part of the repository: its state ([crypto_tfm]) and
    the key-length check of [setkey] are modelled from the spec and the API's
    documented behaviour; the AES permutation is the interface
    [BlockCipher], whose laws are what the driver relies on, and [Aes]
    gives its AES instance.  The
    file also holds the reference ECB transformation [ecb_blocks] (every
    block transformed independently, spec section 4.2) and an instance of the
    interface used to evaluate witnesses. *)

From S2P Require Import Prelude.
From stdpp Require Import base list decidable sets.
From Stdlib Require Import ZArith Lia Strings.Byte Bool.

Set Warnings "-clear-no-such-hyp".
Open Scope Z_scope.

(** ** The AES interface *)

(** [crypto_cipher_blocksize(tfm)] for "aes". *)
Definition AES_BLOCK_SIZE : Z := 16.
Definition aes_block_nat : nat := 16.

(** AES accepts 128-, 192- and 256-bit keys. *)
Definition aes_keylen_ok (n : Z) : bool := (n =? 16) || (n =? 24) || (n =? 32).

(** What the driver needs from the block cipher: a keyed permutation of
    16-byte blocks.  [encrypt_block k b] is [crypto_cipher_encrypt_one] with
    key [k] installed. *)
Class BlockCipher := {
  encrypt_block : list byte -> list byte -> list byte;
  decrypt_block : list byte -> list byte -> list byte;
  length_encrypt_block k b :
    length b = aes_block_nat -> length (encrypt_block k b) = aes_block_nat;
  length_decrypt_block k b :
    length b = aes_block_nat -> length (decrypt_block k b) = aes_block_nat;
  decrypt_encrypt_block k b :
    aes_keylen_ok (Z.of_nat (length k)) = true -> length b = aes_block_nat ->
    decrypt_block k (encrypt_block k b) = b;
  encrypt_decrypt_block k b :
    aes_keylen_ok (Z.of_nat (length k)) = true -> length b = aes_block_nat ->
    encrypt_block k (decrypt_block k b) = b
}.

(** ** The transform object [struct crypto_cipher *tfm] *)

Record crypto_tfm := mk_tfm {
  tfm_key : list byte;   (** the key installed by the last successful setkey *)
  tfm_flags : Z          (** [crt_flags] *)
}.

Definition CRYPTO_TFM_RES_BAD_KEY_LEN : Z := 2097152. (* 0x00200000 *)

(** [crypto_alloc_cipher("aes", 0, 16)]: a zeroed context, no key. *)
Definition crypto_alloc_cipher_aes : crypto_tfm := mk_tfm [] 0.

(** [crypto_cipher_clear_flags(tfm, flags)]: [crt_flags &= ~flags]. *)
Definition crypto_cipher_clear_flags (t : crypto_tfm) (flags : Z) : crypto_tfm :=
  mk_tfm (tfm_key t) (Z.land (tfm_flags t) (Z.lnot flags)).

(** [crypto_cipher_setkey(tfm, key, keylen)]: AES rejects a length outside
    {16,24,32} with [-EINVAL] and the flag [CRYPTO_TFM_RES_BAD_KEY_LEN],
    leaving the key; otherwise it installs the first [keylen] bytes. *)
Definition crypto_cipher_setkey (t : crypto_tfm) (key : list byte) (keylen : Z)
    : Z * crypto_tfm :=
  if aes_keylen_ok keylen
  then (0, mk_tfm (take (Z.to_nat keylen) key) (tfm_flags t))
  else (- EINVAL, mk_tfm (tfm_key t) (Z.lor (tfm_flags t) CRYPTO_TFM_RES_BAD_KEY_LEN)).

(** ** Reference ECB mode *)

(** [ecb_blocks f n l]: [n] blocks of [l], each transformed by [f]
    independently, with no chaining value. *)
Fixpoint ecb_blocks (f : list byte -> list byte) (n : nat) (l : list byte) : list byte :=
  match n with
  | O => []
  | S n' => f (take aes_block_nat l) ++ ecb_blocks f n' (drop aes_block_nat l)
  end.

(** ** Lemmas on the reference ECB mode *)

(** Unfold the AES block size in the goal and the hypotheses. *)
Ltac unfold_sizes := unfold AES_BLOCK_SIZE, aes_block_nat in *.
Local Ltac blk := unfold_sizes; lia.

Section Ecb.
Local Open Scope nat_scope.
Context (f : list byte -> list byte).
Hypothesis length_f : forall b, length b = aes_block_nat -> length (f b) = aes_block_nat.

Lemma length_ecb_blocks n l :
  n * aes_block_nat <= length l -> length (ecb_blocks f n l) = n * aes_block_nat.
Proof.
  revert l. induction n as [|n IH]; intros l Hl; simpl; [done|].
  rewrite length_app, length_f, IH; rewrite ?length_drop, ?length_take; blk.
Qed.

Lemma ecb_blocks_take n l : ecb_blocks f n (take (n * aes_block_nat) l) = ecb_blocks f n l.
Proof.
  revert l. induction n as [|n IH]; intros l; [done|]. cbn [ecb_blocks].
  rewrite take_take, Nat.min_l by blk. f_equal.
  rewrite skipn_firstn_comm. replace (S n * aes_block_nat - aes_block_nat) with (n * aes_block_nat) by blk.
  apply IH.
Qed.

Lemma ecb_blocks_add n1 n2 l :
  ecb_blocks f (n1 + n2) l = ecb_blocks f n1 l ++ ecb_blocks f n2 (drop (n1 * aes_block_nat) l).
Proof.
  revert l. induction n1 as [|n1 IH]; intros l; simpl; [done|].
  rewrite IH, drop_drop, <- app_assoc. done.
Qed.

Lemma ecb_blocks_app n1 n2 l1 l2 :
  length l1 = n1 * aes_block_nat ->
  ecb_blocks f (n1 + n2) (l1 ++ l2) = ecb_blocks f n1 l1 ++ ecb_blocks f n2 l2.
Proof.
  intros H.
  assert (E1 : ecb_blocks f n1 (l1 ++ l2) = ecb_blocks f n1 l1).
  { rewrite <- (ecb_blocks_take n1 (l1 ++ l2)), <- (ecb_blocks_take n1 l1), <- H.
    by rewrite take_app_length, firstn_all. }
  by rewrite ecb_blocks_add, E1, <- H, drop_app_length.
Qed.

Lemma ecb_blocks_inverse (g : list byte -> list byte) n l :
  (forall b, length b = aes_block_nat -> g (f b) = b) ->
  n * aes_block_nat <= length l -> ecb_blocks g n (ecb_blocks f n l) = take (n * aes_block_nat) l.
Proof.
  intros Hgf. revert l. induction n as [|n IH]; intros l Hl; simpl; [done|].
  assert (Hb : length (take aes_block_nat l) = aes_block_nat)
    by (rewrite length_take; blk).
  rewrite take_app_length' by (rewrite length_f; done).
  rewrite drop_app_length' by (rewrite length_f; done).
  rewrite Hgf, IH by (rewrite ?length_drop; blk).
  rewrite take_take_drop. done.
Qed.

Lemma ecb_blocks_app3 n1 n2 n3 a b c :
  length a = n1 * aes_block_nat -> length b = n2 * aes_block_nat ->
  ecb_blocks f (n1 + n2 + n3) (a ++ b ++ c) =
    ecb_blocks f n1 a ++ ecb_blocks f n2 b ++ ecb_blocks f n3 c.
Proof. intros Ha Hb. by rewrite <- Nat.add_assoc, !ecb_blocks_app. Qed.

Lemma list_split3 {A} (l : list A) i n :
  i + n <= length l ->
  exists a b c, l = a ++ b ++ c /\ length a = i /\ length b = n.
Proof.
  intros H. exists (take i l), (slice l i n), (drop (i + n) l).
  rewrite splice_app_slices by done. rewrite length_take, length_slice by lia. split; [done|lia].
Qed.

(** ECB commutes with overwriting a block-aligned range ... *)
Lemma ecb_blocks_splice n1 n2 n3 l xs :
  length l = (n1 + n2 + n3) * aes_block_nat -> length xs = n2 * aes_block_nat ->
  ecb_blocks f (n1 + n2 + n3) (splice l (n1 * aes_block_nat) xs) =
    splice (ecb_blocks f (n1 + n2 + n3) l) (n1 * aes_block_nat) (ecb_blocks f n2 xs).
Proof.
  intros Hl Hx.
  destruct (list_split3 l (n1 * aes_block_nat) (n2 * aes_block_nat)) as (a & b & c & -> & Ha & Hb);
    [blk|].
  rewrite <- Ha, splice_app3 by lia. rewrite !ecb_blocks_app3 by lia.
  replace (length a) with (length (ecb_blocks f n1 a)) by (rewrite length_ecb_blocks; lia).
  rewrite splice_app3; [done|]. rewrite !length_ecb_blocks; lia.
Qed.

(** ... and with reading one. *)
Lemma ecb_blocks_slice n1 n2 n3 l :
  length l = (n1 + n2 + n3) * aes_block_nat ->
  slice (ecb_blocks f (n1 + n2 + n3) l) (n1 * aes_block_nat) (n2 * aes_block_nat) =
    ecb_blocks f n2 (slice l (n1 * aes_block_nat) (n2 * aes_block_nat)).
Proof.
  intros Hl.
  destruct (list_split3 l (n1 * aes_block_nat) (n2 * aes_block_nat)) as (a & b & c & -> & Ha & Hb);
    [blk|].
  rewrite <- Ha, <- Hb, slice_app3, ecb_blocks_app3 by lia.
  replace (length a) with (length (ecb_blocks f n1 a)) by (rewrite length_ecb_blocks; lia).
  replace (length b) with (length (ecb_blocks f n2 b)) by (rewrite length_ecb_blocks; lia).
  apply slice_app3.
Qed.

(** Block [i] of the ECB transformation is [f] of block [i]. *)
Lemma ecb_blocks_block n l (i : nat) :
  length l = n * aes_block_nat -> i < n ->
  slice (ecb_blocks f n l) (i * aes_block_nat) aes_block_nat =
    f (slice l (i * aes_block_nat) aes_block_nat).
Proof.
  intros Hl Hi. replace n with (i + 1 + (n - i - 1)) in * by lia.
  pose proof (ecb_blocks_slice i 1 (n - i - 1) l Hl) as E.
  rewrite Nat.mul_1_l in E. rewrite E. cbn [ecb_blocks]. rewrite app_nil_r.
  unfold slice. rewrite take_take, Nat.min_id. done.
Qed.

End Ecb.

#[export] Hint Resolve length_encrypt_block length_decrypt_block : drv.

(** ** An instance of the interface, to evaluate witnesses *)

Definition bxor (a b : byte) : byte :=
  let '(a0, (a1, (a2, (a3, (a4, (a5, (a6, a7))))))) := Byte.to_bits a in
  let '(b0, (b1, (b2, (b3, (b4, (b5, (b6, b7))))))) := Byte.to_bits b in
  Byte.of_bits (xorb a0 b0, (xorb a1 b1, (xorb a2 b2, (xorb a3 b3,
               (xorb a4 b4, (xorb a5 b5, (xorb a6 b6, xorb a7 b7))))))).

(** The key padded (with 0x5c, so that the empty key is not the identity)
    or cut to one block. *)
Definition xor_keystream (k : list byte) : list byte := resize aes_block_nat Byte.x5c k.

Definition xor_block (k b : list byte) : list byte := zip_with bxor b (xor_keystream k).

Lemma bxor_bxor a b : bxor (bxor a b) b = a.
Proof.
  unfold bxor.
  destruct (Byte.to_bits a) as (a0 & a1 & a2 & a3 & a4 & a5 & a6 & a7) eqn:Ea.
  destruct (Byte.to_bits b) as (b0 & b1 & b2 & b3 & b4 & b5 & b6 & b7).
  rewrite Byte.to_bits_of_bits, !xorb_assoc, !xorb_nilpotent, !xorb_false_r.
  rewrite <- Ea. apply Byte.of_bits_to_bits.
Qed.

Lemma xor_block_involutive k b :
  length b = aes_block_nat -> xor_block k (xor_block k b) = b.
Proof.
  unfold xor_block. intros Hb.
  assert (Hs : length (xor_keystream k) = aes_block_nat) by apply length_resize.
  revert Hs. rewrite <- Hb. generalize (xor_keystream k) as s. clear Hb.
  induction b as [|x b IH]; intros [|y s] Hs; simpl in *; try done.
  rewrite bxor_bxor, IH; [done|lia].
Qed.

Lemma length_xor_block k b :
  length b = aes_block_nat -> length (xor_block k b) = aes_block_nat.
Proof. intros Hb. unfold xor_block, xor_keystream. rewrite length_zip_with, length_resize. lia. Qed.

#[export] Instance xor_test_cipher : BlockCipher := {|
  encrypt_block := xor_block;
  decrypt_block := xor_block;
  length_encrypt_block k b := length_xor_block k b;
  length_decrypt_block k b := length_xor_block k b;
  decrypt_encrypt_block k b _ := xor_block_involutive k b;
  encrypt_decrypt_block k b _ := xor_block_involutive k b
|}.
