(* ===== verification/Aes.v ===== *)
(** * Aes: the AES block cipher behind the [crypto_cipher] transform

    The driver reaches AES through the kernel crypto API: [sbd_init]
    allocates the "aes" transform, every keyed transfer calls
    [crypto_cipher_setkey], and the block loops call
    [crypto_cipher_encrypt_one] / [crypto_cipher_decrypt_one] (ramdisk.c
    lines 116-150).  The kernel's generic implementation is not part of the
    repository; this file models the cipher from FIPS-197, the standard the
    kernel's [crypto/aes_generic.c] implements: the S-box and its inverse
    (as the tables of FIPS-197 figures 7 and 14), [xtime] and the products
    of MixColumns in GF(2^8), the key expansion (section 5.2), the Cipher
    (figure 5) and the InvCipher (figure 12) on the column-major state of
    16 bytes.

    A transform that was never given a key (the [key_size == 0] path of
    [sbd_transfer] skips [crypto_cipher_setkey]) has the zeroed context of
    [crypto_alloc_cipher]: [aes_generic] then runs the ten rounds of
    AES-128 with all-zero round keys; [aes_round_keys] gives that schedule
    for a key of a length AES rejects, which [crypto_cipher_setkey] never
    installs.

    [aes_cipher] is the AES instance of the interface [BlockCipher] of
    [Cipher].  Theorems: the known-answer vectors of FIPS-197 appendix C
    for the three key sizes; InvCipher inverts Cipher, and Cipher inverts
    InvCipher, for every key (so AES is an instance of the interface); and,
    with AES, the data the driver writes after a 32-byte key was stored
    does not decrypt under the key that was written. *)

From S2P Require Import Prelude.
From S2P Require Import Cipher.
From stdpp Require Import base list decidable.
From Stdlib Require Import ZArith Lia Strings.Byte Bool Btauto.

Set Warnings "-clear-no-such-hyp".
Open Scope Z_scope.

Module Aes.

(** ** Arithmetic in GF(2^8) *)

(** [xtime(b)]: multiplication by x, a left shift of the bits with the
    reduction [^ 0x1b] when bit 7 was set (FIPS-197 4.2.1). *)
Definition xtime (b : byte) : byte :=
  let '(b0, (b1, (b2, (b3, (b4, (b5, (b6, b7))))))) := Byte.to_bits b in
  Byte.of_bits (b7, (xorb b0 b7, (b1, (xorb b2 b7, (xorb b3 b7, (b4, (b5, b6))))))).

(** The products by the constants of MixColumns and InvMixColumns. *)
Definition mul2 (b : byte) : byte := xtime b.
Definition mul3 (b : byte) : byte := bxor (xtime b) b.
Definition mul9 (b : byte) : byte := bxor (xtime (xtime (xtime b))) b.
Definition mul11 (b : byte) : byte := bxor (bxor (xtime (xtime (xtime b))) (xtime b)) b.
Definition mul13 (b : byte) : byte := bxor (bxor (xtime (xtime (xtime b))) (xtime (xtime b))) b.
Definition mul14 (b : byte) : byte :=
  bxor (bxor (xtime (xtime (xtime b))) (xtime (xtime b))) (xtime b).

(** ** The S-box *)

(** FIPS-197 figure 7, row by row. *)
Definition sbox : list byte := [
   Byte.x63; Byte.x7c; Byte.x77; Byte.x7b; Byte.xf2; Byte.x6b; Byte.x6f; Byte.xc5; Byte.x30; Byte.x01; Byte.x67; Byte.x2b; Byte.xfe; Byte.xd7; Byte.xab; Byte.x76;
   Byte.xca; Byte.x82; Byte.xc9; Byte.x7d; Byte.xfa; Byte.x59; Byte.x47; Byte.xf0; Byte.xad; Byte.xd4; Byte.xa2; Byte.xaf; Byte.x9c; Byte.xa4; Byte.x72; Byte.xc0;
   Byte.xb7; Byte.xfd; Byte.x93; Byte.x26; Byte.x36; Byte.x3f; Byte.xf7; Byte.xcc; Byte.x34; Byte.xa5; Byte.xe5; Byte.xf1; Byte.x71; Byte.xd8; Byte.x31; Byte.x15;
   Byte.x04; Byte.xc7; Byte.x23; Byte.xc3; Byte.x18; Byte.x96; Byte.x05; Byte.x9a; Byte.x07; Byte.x12; Byte.x80; Byte.xe2; Byte.xeb; Byte.x27; Byte.xb2; Byte.x75;
   Byte.x09; Byte.x83; Byte.x2c; Byte.x1a; Byte.x1b; Byte.x6e; Byte.x5a; Byte.xa0; Byte.x52; Byte.x3b; Byte.xd6; Byte.xb3; Byte.x29; Byte.xe3; Byte.x2f; Byte.x84;
   Byte.x53; Byte.xd1; Byte.x00; Byte.xed; Byte.x20; Byte.xfc; Byte.xb1; Byte.x5b; Byte.x6a; Byte.xcb; Byte.xbe; Byte.x39; Byte.x4a; Byte.x4c; Byte.x58; Byte.xcf;
   Byte.xd0; Byte.xef; Byte.xaa; Byte.xfb; Byte.x43; Byte.x4d; Byte.x33; Byte.x85; Byte.x45; Byte.xf9; Byte.x02; Byte.x7f; Byte.x50; Byte.x3c; Byte.x9f; Byte.xa8;
   Byte.x51; Byte.xa3; Byte.x40; Byte.x8f; Byte.x92; Byte.x9d; Byte.x38; Byte.xf5; Byte.xbc; Byte.xb6; Byte.xda; Byte.x21; Byte.x10; Byte.xff; Byte.xf3; Byte.xd2;
   Byte.xcd; Byte.x0c; Byte.x13; Byte.xec; Byte.x5f; Byte.x97; Byte.x44; Byte.x17; Byte.xc4; Byte.xa7; Byte.x7e; Byte.x3d; Byte.x64; Byte.x5d; Byte.x19; Byte.x73;
   Byte.x60; Byte.x81; Byte.x4f; Byte.xdc; Byte.x22; Byte.x2a; Byte.x90; Byte.x88; Byte.x46; Byte.xee; Byte.xb8; Byte.x14; Byte.xde; Byte.x5e; Byte.x0b; Byte.xdb;
   Byte.xe0; Byte.x32; Byte.x3a; Byte.x0a; Byte.x49; Byte.x06; Byte.x24; Byte.x5c; Byte.xc2; Byte.xd3; Byte.xac; Byte.x62; Byte.x91; Byte.x95; Byte.xe4; Byte.x79;
   Byte.xe7; Byte.xc8; Byte.x37; Byte.x6d; Byte.x8d; Byte.xd5; Byte.x4e; Byte.xa9; Byte.x6c; Byte.x56; Byte.xf4; Byte.xea; Byte.x65; Byte.x7a; Byte.xae; Byte.x08;
   Byte.xba; Byte.x78; Byte.x25; Byte.x2e; Byte.x1c; Byte.xa6; Byte.xb4; Byte.xc6; Byte.xe8; Byte.xdd; Byte.x74; Byte.x1f; Byte.x4b; Byte.xbd; Byte.x8b; Byte.x8a;
   Byte.x70; Byte.x3e; Byte.xb5; Byte.x66; Byte.x48; Byte.x03; Byte.xf6; Byte.x0e; Byte.x61; Byte.x35; Byte.x57; Byte.xb9; Byte.x86; Byte.xc1; Byte.x1d; Byte.x9e;
   Byte.xe1; Byte.xf8; Byte.x98; Byte.x11; Byte.x69; Byte.xd9; Byte.x8e; Byte.x94; Byte.x9b; Byte.x1e; Byte.x87; Byte.xe9; Byte.xce; Byte.x55; Byte.x28; Byte.xdf;
   Byte.x8c; Byte.xa1; Byte.x89; Byte.x0d; Byte.xbf; Byte.xe6; Byte.x42; Byte.x68; Byte.x41; Byte.x99; Byte.x2d; Byte.x0f; Byte.xb0; Byte.x54; Byte.xbb; Byte.x16].

(** FIPS-197 figure 14. *)
Definition inv_sbox : list byte := [
   Byte.x52; Byte.x09; Byte.x6a; Byte.xd5; Byte.x30; Byte.x36; Byte.xa5; Byte.x38; Byte.xbf; Byte.x40; Byte.xa3; Byte.x9e; Byte.x81; Byte.xf3; Byte.xd7; Byte.xfb;
   Byte.x7c; Byte.xe3; Byte.x39; Byte.x82; Byte.x9b; Byte.x2f; Byte.xff; Byte.x87; Byte.x34; Byte.x8e; Byte.x43; Byte.x44; Byte.xc4; Byte.xde; Byte.xe9; Byte.xcb;
   Byte.x54; Byte.x7b; Byte.x94; Byte.x32; Byte.xa6; Byte.xc2; Byte.x23; Byte.x3d; Byte.xee; Byte.x4c; Byte.x95; Byte.x0b; Byte.x42; Byte.xfa; Byte.xc3; Byte.x4e;
   Byte.x08; Byte.x2e; Byte.xa1; Byte.x66; Byte.x28; Byte.xd9; Byte.x24; Byte.xb2; Byte.x76; Byte.x5b; Byte.xa2; Byte.x49; Byte.x6d; Byte.x8b; Byte.xd1; Byte.x25;
   Byte.x72; Byte.xf8; Byte.xf6; Byte.x64; Byte.x86; Byte.x68; Byte.x98; Byte.x16; Byte.xd4; Byte.xa4; Byte.x5c; Byte.xcc; Byte.x5d; Byte.x65; Byte.xb6; Byte.x92;
   Byte.x6c; Byte.x70; Byte.x48; Byte.x50; Byte.xfd; Byte.xed; Byte.xb9; Byte.xda; Byte.x5e; Byte.x15; Byte.x46; Byte.x57; Byte.xa7; Byte.x8d; Byte.x9d; Byte.x84;
   Byte.x90; Byte.xd8; Byte.xab; Byte.x00; Byte.x8c; Byte.xbc; Byte.xd3; Byte.x0a; Byte.xf7; Byte.xe4; Byte.x58; Byte.x05; Byte.xb8; Byte.xb3; Byte.x45; Byte.x06;
   Byte.xd0; Byte.x2c; Byte.x1e; Byte.x8f; Byte.xca; Byte.x3f; Byte.x0f; Byte.x02; Byte.xc1; Byte.xaf; Byte.xbd; Byte.x03; Byte.x01; Byte.x13; Byte.x8a; Byte.x6b;
   Byte.x3a; Byte.x91; Byte.x11; Byte.x41; Byte.x4f; Byte.x67; Byte.xdc; Byte.xea; Byte.x97; Byte.xf2; Byte.xcf; Byte.xce; Byte.xf0; Byte.xb4; Byte.xe6; Byte.x73;
   Byte.x96; Byte.xac; Byte.x74; Byte.x22; Byte.xe7; Byte.xad; Byte.x35; Byte.x85; Byte.xe2; Byte.xf9; Byte.x37; Byte.xe8; Byte.x1c; Byte.x75; Byte.xdf; Byte.x6e;
   Byte.x47; Byte.xf1; Byte.x1a; Byte.x71; Byte.x1d; Byte.x29; Byte.xc5; Byte.x89; Byte.x6f; Byte.xb7; Byte.x62; Byte.x0e; Byte.xaa; Byte.x18; Byte.xbe; Byte.x1b;
   Byte.xfc; Byte.x56; Byte.x3e; Byte.x4b; Byte.xc6; Byte.xd2; Byte.x79; Byte.x20; Byte.x9a; Byte.xdb; Byte.xc0; Byte.xfe; Byte.x78; Byte.xcd; Byte.x5a; Byte.xf4;
   Byte.x1f; Byte.xdd; Byte.xa8; Byte.x33; Byte.x88; Byte.x07; Byte.xc7; Byte.x31; Byte.xb1; Byte.x12; Byte.x10; Byte.x59; Byte.x27; Byte.x80; Byte.xec; Byte.x5f;
   Byte.x60; Byte.x51; Byte.x7f; Byte.xa9; Byte.x19; Byte.xb5; Byte.x4a; Byte.x0d; Byte.x2d; Byte.xe5; Byte.x7a; Byte.x9f; Byte.x93; Byte.xc9; Byte.x9c; Byte.xef;
   Byte.xa0; Byte.xe0; Byte.x3b; Byte.x4d; Byte.xae; Byte.x2a; Byte.xf5; Byte.xb0; Byte.xc8; Byte.xeb; Byte.xbb; Byte.x3c; Byte.x83; Byte.x53; Byte.x99; Byte.x61;
   Byte.x17; Byte.x2b; Byte.x04; Byte.x7e; Byte.xba; Byte.x77; Byte.xd6; Byte.x26; Byte.xe1; Byte.x69; Byte.x14; Byte.x63; Byte.x55; Byte.x21; Byte.x0c; Byte.x7d].

Definition sub_byte (b : byte) : byte := nth (Byte.to_nat b) sbox Byte.x00.
Definition inv_sub_byte (b : byte) : byte := nth (Byte.to_nat b) inv_sbox Byte.x00.

(** ** The round transformations on the state *)

(** The state is the 16 input bytes in column-major order: byte [r + 4c]
    is row [r] of column [c] (FIPS-197 3.4). *)
Definition sub_bytes (s : list byte) : list byte := map sub_byte s.
Definition inv_sub_bytes (s : list byte) : list byte := map inv_sub_byte s.

(** Row [r] rotated left by [r] (FIPS-197 5.1.2). *)
Definition shift_rows (s : list byte) : list byte :=
  match s with
  | [s0; s1; s2; s3; s4; s5; s6; s7; s8; s9; s10; s11; s12; s13; s14; s15] =>
      [s0; s5; s10; s15; s4; s9; s14; s3; s8; s13; s2; s7; s12; s1; s6; s11]
  | _ => s
  end.

(** Row [r] rotated right by [r] (FIPS-197 5.3.1). *)
Definition inv_shift_rows (s : list byte) : list byte :=
  match s with
  | [s0; s1; s2; s3; s4; s5; s6; s7; s8; s9; s10; s11; s12; s13; s14; s15] =>
      [s0; s13; s10; s7; s4; s1; s14; s11; s8; s5; s2; s15; s12; s9; s6; s3]
  | _ => s
  end.

(** One column times the matrix of FIPS-197 5.1.3 ... *)
Definition mix_column (c : list byte) : list byte :=
  match c with
  | [a0; a1; a2; a3] =>
      [bxor (bxor (mul2 a0) (mul3 a1)) (bxor a2 a3);
       bxor (bxor a0 (mul2 a1)) (bxor (mul3 a2) a3);
       bxor (bxor a0 a1) (bxor (mul2 a2) (mul3 a3));
       bxor (bxor (mul3 a0) a1) (bxor a2 (mul2 a3))]
  | _ => c
  end.

(** ... and of 5.3.3. *)
Definition inv_mix_column (c : list byte) : list byte :=
  match c with
  | [a0; a1; a2; a3] =>
      [bxor (bxor (mul14 a0) (mul11 a1)) (bxor (mul13 a2) (mul9 a3));
       bxor (bxor (mul9 a0) (mul14 a1)) (bxor (mul11 a2) (mul13 a3));
       bxor (bxor (mul13 a0) (mul9 a1)) (bxor (mul14 a2) (mul11 a3));
       bxor (bxor (mul11 a0) (mul13 a1)) (bxor (mul9 a2) (mul14 a3))]
  | _ => c
  end.

Definition on_columns (f : list byte -> list byte) (s : list byte) : list byte :=
  match s with
  | [s0; s1; s2; s3; s4; s5; s6; s7; s8; s9; s10; s11; s12; s13; s14; s15] =>
      f [s0; s1; s2; s3] ++ f [s4; s5; s6; s7] ++ f [s8; s9; s10; s11] ++ f [s12; s13; s14; s15]
  | _ => s
  end.

Definition mix_columns (s : list byte) : list byte := on_columns mix_column s.
Definition inv_mix_columns (s : list byte) : list byte := on_columns inv_mix_column s.

(** AddRoundKey (FIPS-197 5.1.4): the state xor a 16-byte round key. *)
Definition add_round_key (k s : list byte) : list byte := zip_with bxor s k.

(** ** Key expansion (FIPS-197 5.2) *)

Definition word : Type := byte * byte * byte * byte.

Definition zero_word : word := (Byte.x00, Byte.x00, Byte.x00, Byte.x00).

Definition word_bytes (w : word) : list byte :=
  let '(a0, a1, a2, a3) := w in [a0; a1; a2; a3].

Definition wxor (a b : word) : word :=
  let '(a0, a1, a2, a3) := a in let '(b0, b1, b2, b3) := b in
  (bxor a0 b0, bxor a1 b1, bxor a2 b2, bxor a3 b3).

Definition rot_word (w : word) : word := let '(a0, a1, a2, a3) := w in (a1, a2, a3, a0).

Definition sub_word (w : word) : word :=
  let '(a0, a1, a2, a3) := w in (sub_byte a0, sub_byte a1, sub_byte a2, sub_byte a3).

(** [Rcon[i] = (x^(i-1), 0, 0, 0)] for the rounds AES uses. *)
Definition rcon (i : nat) : word :=
  (nth (i - 1) [Byte.x01; Byte.x02; Byte.x04; Byte.x08; Byte.x10; Byte.x20; Byte.x40; Byte.x80;
                Byte.x1b; Byte.x36] Byte.x00, Byte.x00, Byte.x00, Byte.x00).

(** The [Nk] words of the cipher key. *)
Definition key_words (k : list byte) (nk : nat) : list word :=
  map (fun i => (nth (4 * i) k Byte.x00, nth (4 * i + 1) k Byte.x00,
                 nth (4 * i + 2) k Byte.x00, nth (4 * i + 3) k Byte.x00)) (seq 0 nk).

(** Words [i], [i + 1], ... of the schedule, [n] of them, appended to
    [ws] (words [0 .. i - 1]). *)
Fixpoint expand (nk n i : nat) (ws : list word) : list word :=
  match n with
  | O => ws
  | S n' =>
      let prev := nth (i - 1) ws zero_word in
      let temp := if Nat.eqb (i mod nk) 0 then wxor (sub_word (rot_word prev)) (rcon (i / nk))
                  else if Nat.ltb 6 nk && Nat.eqb (i mod nk) 4 then sub_word prev
                  else prev in
      expand nk n' (S i) (ws ++ [wxor (nth (i - nk) ws zero_word) temp])
  end.

(** [Nb * (Nr + 1)] words, with [Nr = Nk + 6]. *)
Definition key_expansion (k : list byte) : list word :=
  let nk := (length k / 4)%nat in expand nk (4 * (nk + 7) - nk) nk (key_words k nk).

Fixpoint group_words (ws : list word) : list (list byte) :=
  match ws with
  | w0 :: w1 :: w2 :: w3 :: rest =>
      (word_bytes w0 ++ word_bytes w1 ++ word_bytes w2 ++ word_bytes w3) :: group_words rest
  | _ => []
  end.

Definition zero_block : list byte := repeat Byte.x00 16.

(** The round keys: the expanded key for a key AES accepts; for any other
    (only the empty key of a fresh transform is ever used) the zeroed
    context, eleven all-zero round keys. *)
Definition aes_round_keys (k : list byte) : list (list byte) :=
  if aes_keylen_ok (Z.of_nat (length k)) then group_words (key_expansion k)
  else repeat zero_block 11.

(** ** Cipher and InvCipher *)

Definition round (k s : list byte) : list byte := add_round_key k (mix_columns (shift_rows (sub_bytes s))).

Definition inv_round (k s : list byte) : list byte :=
  inv_mix_columns (add_round_key k (inv_sub_bytes (inv_shift_rows s))).

(** FIPS-197 figure 5, with round keys [rk0], the middle ones and [rkl]. *)
Definition cipher_with (rk0 : list byte) (mids : list (list byte)) (rkl : list byte)
    (s : list byte) : list byte :=
  add_round_key rkl (shift_rows (sub_bytes (fold_left (fun st k => round k st) mids (add_round_key rk0 s)))).

(** FIPS-197 figure 12: the middle round keys in reverse order. *)
Definition inv_cipher_with (rk0 : list byte) (mids : list (list byte)) (rkl : list byte)
    (s : list byte) : list byte :=
  add_round_key rk0 (inv_sub_bytes (inv_shift_rows
    (fold_left (fun st k => inv_round k st) (rev mids) (add_round_key rkl s)))).

Definition aes_encrypt (k b : list byte) : list byte :=
  let rks := aes_round_keys k in
  cipher_with (hd zero_block rks) (removelast (tl rks)) (last (tl rks) zero_block) b.

Definition aes_decrypt (k b : list byte) : list byte :=
  let rks := aes_round_keys k in
  inv_cipher_with (hd zero_block rks) (removelast (tl rks)) (last (tl rks) zero_block) b.

(** ** Lemmas on the byte transformations *)

(** Split a byte into its bits, so that an identity of [bxor] and [xtime]
    becomes eight identities of [xorb], which [btauto] decides. *)
Local Ltac bits_of x :=
  rewrite <- (Byte.of_bits_to_bits x); destruct (Byte.to_bits x) as (?&?&?&?&?&?&?&?).

Local Ltac bitwise :=
  unfold mul2, mul3, mul9, mul11, mul13, mul14, xtime, bxor;
  repeat rewrite Byte.to_bits_of_bits;
  repeat (f_equal; try (f_equal; btauto)).

Lemma inv_mix_mix_column a0 a1 a2 a3 :
  inv_mix_column (mix_column [a0; a1; a2; a3]) = [a0; a1; a2; a3].
Proof. bits_of a0; bits_of a1; bits_of a2; bits_of a3. cbn [mix_column inv_mix_column]. bitwise. Qed.

Lemma mix_inv_mix_column a0 a1 a2 a3 :
  mix_column (inv_mix_column [a0; a1; a2; a3]) = [a0; a1; a2; a3].
Proof. bits_of a0; bits_of a1; bits_of a2; bits_of a3. cbn [mix_column inv_mix_column]. bitwise. Qed.

(** The two tables are inverse permutations of the 256 bytes. *)
Lemma inv_sub_byte_sub_byte b : inv_sub_byte (sub_byte b) = b.
Proof. destruct b; reflexivity. Qed.

Lemma sub_byte_inv_sub_byte b : sub_byte (inv_sub_byte b) = b.
Proof. destruct b; reflexivity. Qed.

(** Name the sixteen bytes of a state. *)
Local Ltac explode16 s :=
  do 16 (destruct s as [|? s]; [discriminate|]); destruct s; [|discriminate].

Lemma mix_column_4 a0 a1 a2 a3 : exists b0 b1 b2 b3, mix_column [a0; a1; a2; a3] = [b0; b1; b2; b3].
Proof. by do 4 eexists. Qed.

Lemma inv_mix_column_4 a0 a1 a2 a3 :
  exists b0 b1 b2 b3, inv_mix_column [a0; a1; a2; a3] = [b0; b1; b2; b3].
Proof. by do 4 eexists. Qed.

(** [on_columns g] undoes [on_columns f] when [g] undoes [f] on every
    column and [f] keeps columns of four bytes. *)
Lemma on_columns_inv f g s :
  length s = 16%nat ->
  (forall a0 a1 a2 a3, exists b0 b1 b2 b3, f [a0; a1; a2; a3] = [b0; b1; b2; b3]) ->
  (forall a0 a1 a2 a3, g (f [a0; a1; a2; a3]) = [a0; a1; a2; a3]) ->
  on_columns g (on_columns f s) = s.
Proof.
  intros Hs Hf Hg. explode16 s. cbn [on_columns].
  repeat match goal with
  | |- context [f [?a0; ?a1; ?a2; ?a3]] =>
      let E := fresh "E" in destruct (Hf a0 a1 a2 a3) as (?&?&?&?&E); rewrite E
  end.
  cbn [app on_columns].
  repeat match goal with E : f _ = _ |- _ => rewrite <- E; clear E end.
  by rewrite !Hg.
Qed.

Lemma length_on_columns f s :
  length s = 16%nat ->
  (forall a0 a1 a2 a3, exists b0 b1 b2 b3, f [a0; a1; a2; a3] = [b0; b1; b2; b3]) ->
  length (on_columns f s) = 16%nat.
Proof.
  intros Hs Hf. explode16 s. cbn [on_columns].
  repeat match goal with
  | |- context [f [?a0; ?a1; ?a2; ?a3]] =>
      let E := fresh in destruct (Hf a0 a1 a2 a3) as (?&?&?&?&E); rewrite E
  end. done.
Qed.

Lemma length_shift_rows s : length s = 16%nat -> length (shift_rows s) = 16%nat.
Proof. intros Hs. by explode16 s. Qed.

Lemma length_inv_shift_rows s : length s = 16%nat -> length (inv_shift_rows s) = 16%nat.
Proof. intros Hs. by explode16 s. Qed.

Lemma inv_shift_rows_shift_rows s : length s = 16%nat -> inv_shift_rows (shift_rows s) = s.
Proof. intros Hs. by explode16 s. Qed.

Lemma shift_rows_inv_shift_rows s : length s = 16%nat -> shift_rows (inv_shift_rows s) = s.
Proof. intros Hs. by explode16 s. Qed.

Lemma length_add_round_key k s :
  length k = 16%nat -> length s = 16%nat -> length (add_round_key k s) = 16%nat.
Proof. intros Hk Hs. unfold add_round_key. rewrite length_zip_with. lia. Qed.

Lemma add_round_key_twice k s : length s = length k -> add_round_key k (add_round_key k s) = s.
Proof.
  unfold add_round_key. revert k. induction s as [|x s IH]; intros [|y k] Hl; try done.
  cbn. rewrite bxor_bxor, IH; [done | cbn in Hl; lia].
Qed.

(** ** Cipher and InvCipher are inverse *)

Definition len16 (s : list byte) : Prop := length s = 16%nat.

Lemma len16_sub_bytes s : len16 s -> len16 (sub_bytes s).
Proof. unfold len16, sub_bytes. by rewrite length_map. Qed.

Lemma len16_inv_sub_bytes s : len16 s -> len16 (inv_sub_bytes s).
Proof. unfold len16, inv_sub_bytes. by rewrite length_map. Qed.

Lemma len16_mix_columns s : len16 s -> len16 (mix_columns s).
Proof. intros. apply length_on_columns; [done|apply mix_column_4]. Qed.

Lemma len16_inv_mix_columns s : len16 s -> len16 (inv_mix_columns s).
Proof. intros. apply length_on_columns; [done|apply inv_mix_column_4]. Qed.

Lemma len16_round k s : len16 k -> len16 s -> len16 (round k s).
Proof.
  intros Hk Hs. apply length_add_round_key; [done|].
  apply len16_mix_columns, length_shift_rows, len16_sub_bytes, Hs.
Qed.

Lemma len16_inv_round k s : len16 k -> len16 s -> len16 (inv_round k s).
Proof.
  intros Hk Hs. apply len16_inv_mix_columns, length_add_round_key; [done|].
  apply len16_inv_sub_bytes, length_inv_shift_rows, Hs.
Qed.

Lemma inv_sub_bytes_sub_bytes s : inv_sub_bytes (sub_bytes s) = s.
Proof.
  unfold inv_sub_bytes, sub_bytes. induction s as [|x s IH]; [done|]. cbn [map]. by rewrite inv_sub_byte_sub_byte, IH.
Qed.

Lemma sub_bytes_inv_sub_bytes s : sub_bytes (inv_sub_bytes s) = s.
Proof.
  unfold inv_sub_bytes, sub_bytes. induction s as [|x s IH]; [done|]. cbn [map]. by rewrite sub_byte_inv_sub_byte, IH.
Qed.

(** The byte substitution and row shift of a round, and their inverse. *)
Definition fwd (s : list byte) : list byte := shift_rows (sub_bytes s).
Definition bwd (s : list byte) : list byte := inv_sub_bytes (inv_shift_rows s).

Lemma bwd_fwd s : len16 s -> bwd (fwd s) = s.
Proof.
  intros Hs. unfold bwd, fwd. rewrite inv_shift_rows_shift_rows by (by apply len16_sub_bytes).
  apply inv_sub_bytes_sub_bytes.
Qed.

Lemma fwd_bwd s : len16 s -> fwd (bwd s) = s.
Proof.
  intros Hs. unfold bwd, fwd. rewrite sub_bytes_inv_sub_bytes.
  by apply shift_rows_inv_shift_rows.
Qed.

Lemma inv_round_round k y : len16 k -> len16 y -> inv_round k (fwd (round k y)) = fwd y.
Proof.
  intros Hk Hy. assert (Hf : len16 (fwd y)) by (apply length_shift_rows, len16_sub_bytes, Hy).
  unfold inv_round. fold (bwd (fwd (round k y))).
  rewrite bwd_fwd by (by apply len16_round). unfold round. fold (fwd y).
  rewrite add_round_key_twice by (unfold len16 in *; rewrite Hk; by apply len16_mix_columns).
  unfold mix_columns, inv_mix_columns.
  by apply on_columns_inv; [| apply mix_column_4 | intros; apply inv_mix_mix_column].
Qed.

Lemma round_inv_round k x : len16 k -> len16 x -> round k (bwd (inv_round k x)) = bwd x.
Proof.
  intros Hk Hx. assert (Hb : len16 (bwd x)) by (apply len16_inv_sub_bytes, length_inv_shift_rows, Hx).
  unfold round. fold (fwd (bwd (inv_round k x))).
  rewrite fwd_bwd by (by apply len16_inv_round). unfold inv_round. fold (bwd x).
  unfold mix_columns, inv_mix_columns. rewrite on_columns_inv; [| by apply length_add_round_key | apply inv_mix_column_4
                           | intros; apply mix_inv_mix_column].
  by apply add_round_key_twice; rewrite Hb.
Qed.

Lemma len16_rounds mids y :
  Forall len16 mids -> len16 y -> len16 (fold_left (fun st k => round k st) mids y).
Proof.
  intros Hm. induction Hm as [|k rest Hk _ IH] in y |- *; intros Hy; [done|].
  cbn [fold_left]. by apply IH, len16_round.
Qed.

Lemma len16_inv_rounds mids x :
  Forall len16 mids -> len16 x -> len16 (fold_left (fun st k => inv_round k st) (rev mids) x).
Proof.
  intros Hm. induction Hm as [|k rest Hk _ IH] in x |- *; intros Hx; [done|].
  cbn [rev]. rewrite fold_left_app. cbn [fold_left]. by apply len16_inv_round, IH.
Qed.

Lemma inv_rounds_rounds mids y :
  Forall len16 mids -> len16 y ->
  fold_left (fun st k => inv_round k st) (rev mids)
    (fwd (fold_left (fun st k => round k st) mids y)) = fwd y.
Proof.
  intros Hm. induction Hm as [|k rest Hk _ IH] in y |- *; intros Hy; [done|].
  cbn [rev fold_left]. rewrite fold_left_app, IH by (by apply len16_round). cbn [fold_left].
  by apply inv_round_round.
Qed.

Lemma rounds_inv_rounds mids x :
  Forall len16 mids -> len16 x ->
  fold_left (fun st k => round k st) mids
    (bwd (fold_left (fun st k => inv_round k st) (rev mids) x)) = bwd x.
Proof.
  intros Hm. induction Hm as [|k rest Hk Hrest IH] in x |- *; intros Hx; [done|].
  cbn [rev fold_left]. rewrite fold_left_app. cbn [fold_left].
  rewrite round_inv_round; [by apply IH|done|by apply len16_inv_rounds].
Qed.

Lemma inv_cipher_cipher rk0 mids rkl s :
  len16 rk0 -> Forall len16 mids -> len16 rkl -> len16 s ->
  inv_cipher_with rk0 mids rkl (cipher_with rk0 mids rkl s) = s.
Proof.
  intros H0 Hm Hl Hs. unfold inv_cipher_with, cipher_with.
  assert (Hy : len16 (fold_left (fun st k => round k st) mids (add_round_key rk0 s)))
    by (apply len16_rounds; [done|by apply length_add_round_key]).
  fold (fwd (fold_left (fun st k => round k st) mids (add_round_key rk0 s))).
  rewrite add_round_key_twice by (unfold len16 in *; rewrite Hl; apply length_shift_rows, len16_sub_bytes, Hy).
  fold (bwd (fold_left (fun st k => inv_round k st) (rev mids)
          (fwd (fold_left (fun st k => round k st) mids (add_round_key rk0 s))))).
  rewrite inv_rounds_rounds, bwd_fwd by (done || by apply length_add_round_key).
  apply add_round_key_twice. unfold len16 in *. by rewrite Hs, H0.
Qed.

Lemma cipher_inv_cipher rk0 mids rkl s :
  len16 rk0 -> Forall len16 mids -> len16 rkl -> len16 s ->
  cipher_with rk0 mids rkl (inv_cipher_with rk0 mids rkl s) = s.
Proof.
  intros H0 Hm Hl Hs. unfold inv_cipher_with, cipher_with.
  assert (Hx : len16 (fold_left (fun st k => inv_round k st) (rev mids) (add_round_key rkl s)))
    by (apply len16_inv_rounds; [done|by apply length_add_round_key]).
  fold (bwd (fold_left (fun st k => inv_round k st) (rev mids) (add_round_key rkl s))).
  rewrite add_round_key_twice
    by (unfold len16 in *; rewrite H0; apply len16_inv_sub_bytes, length_inv_shift_rows, Hx).
  fold (fwd (fold_left (fun st k => round k st) mids
          (bwd (fold_left (fun st k => inv_round k st) (rev mids) (add_round_key rkl s))))).
  rewrite rounds_inv_rounds, fwd_bwd by (done || by apply length_add_round_key).
  apply add_round_key_twice. unfold len16 in *. by rewrite Hs, Hl.
Qed.

(** ** The round keys *)

Lemma group_words_len16 ws : Forall len16 (group_words ws).
Proof.
  revert ws. fix IH 1. intros [|w0 [|w1 [|w2 [|w3 rest]]]]; cbn [group_words]; try constructor.
  - destruct w0 as [[[]]], w1 as [[[]]], w2 as [[[]]], w3 as [[[]]]. reflexivity.
  - apply IH.
Qed.

Lemma aes_round_keys_len16 k : Forall len16 (aes_round_keys k).
Proof.
  unfold aes_round_keys. destruct (aes_keylen_ok _); [apply group_words_len16|].
  apply Forall_forall. intros x Hx. apply repeat_spec in Hx as ->. reflexivity.
Qed.

(** The first, middle and last round keys of a schedule of 16-byte keys
    are 16-byte keys. *)
Lemma schedule_parts_len16 rks :
  Forall len16 rks ->
  len16 (hd zero_block rks) /\ Forall len16 (removelast (tl rks)) /\ len16 (last (tl rks) zero_block).
Proof.
  intros Hr. destruct Hr as [|k rest Hk Hrest]; [done|]. cbn [hd tl].
  split; [done|]. induction Hrest as [|k' rest' Hk' Hrest' IH]; [done|].
  destruct rest' as [|k'' rest'']; [cbn; split; [constructor|done]|].
  destruct IH as [IH1 IH2]. split; [|done]. cbn [removelast]. by constructor.
Qed.

(** ** AES as the block cipher of the transform *)

Lemma aes_decrypt_encrypt k b : len16 b -> aes_decrypt k (aes_encrypt k b) = b.
Proof.
  intros Hb. destruct (schedule_parts_len16 _ (aes_round_keys_len16 k)) as (H0 & Hm & Hl).
  by apply inv_cipher_cipher.
Qed.

Lemma aes_encrypt_decrypt k b : len16 b -> aes_encrypt k (aes_decrypt k b) = b.
Proof.
  intros Hb. destruct (schedule_parts_len16 _ (aes_round_keys_len16 k)) as (H0 & Hm & Hl).
  by apply cipher_inv_cipher.
Qed.

Lemma length_aes_encrypt k b : length b = aes_block_nat -> length (aes_encrypt k b) = aes_block_nat.
Proof.
  intros Hb. destruct (schedule_parts_len16 _ (aes_round_keys_len16 k)) as (H0 & Hm & Hl).
  apply length_add_round_key; [done|]. apply length_shift_rows, len16_sub_bytes, len16_rounds; [done|].
  by apply length_add_round_key.
Qed.

Lemma length_aes_decrypt k b : length b = aes_block_nat -> length (aes_decrypt k b) = aes_block_nat.
Proof.
  intros Hb. destruct (schedule_parts_len16 _ (aes_round_keys_len16 k)) as (H0 & Hm & Hl).
  apply length_add_round_key; [done|]. apply len16_inv_sub_bytes, length_inv_shift_rows, len16_inv_rounds; [done|].
  by apply length_add_round_key.
Qed.

(** The AES instance of [BlockCipher]; not exported, the development's
    witnesses keep the small instance of [Cipher]. *)
Definition aes_cipher : BlockCipher := {|
  encrypt_block := aes_encrypt;
  decrypt_block := aes_decrypt;
  length_encrypt_block := length_aes_encrypt;
  length_decrypt_block := length_aes_decrypt;
  decrypt_encrypt_block k b _ := aes_decrypt_encrypt k b;
  encrypt_decrypt_block k b _ := aes_encrypt_decrypt k b
|}.

(** ** Properties of the cipher *)

(** The bytes [from], [from + 1], ..., [n] of them. *)
Definition byte_seq (from n : nat) : list byte :=
  map (fun i => match Byte.of_nat i with Some b => b | None => Byte.x00 end) (seq from n).

(** The plaintext of FIPS-197 appendix C. *)
Definition fips_plaintext : list byte :=
  [Byte.x00; Byte.x11; Byte.x22; Byte.x33; Byte.x44; Byte.x55; Byte.x66; Byte.x77;
   Byte.x88; Byte.x99; Byte.xaa; Byte.xbb; Byte.xcc; Byte.xdd; Byte.xee; Byte.xff].

(** the model is AES: with the keys 00 01 ... of 16, 24 and 32 bytes
    it gives the ciphertexts of FIPS-197 appendix C.1, C.2 and C.3, and
    InvCipher takes them back to the plaintext. *)
Theorem aes_fips197_vectors :
  aes_encrypt (byte_seq 0 16) fips_plaintext =
    [Byte.x69; Byte.xc4; Byte.xe0; Byte.xd8; Byte.x6a; Byte.x7b; Byte.x04; Byte.x30;
     Byte.xd8; Byte.xcd; Byte.xb7; Byte.x80; Byte.x70; Byte.xb4; Byte.xc5; Byte.x5a] /\
  aes_encrypt (byte_seq 0 24) fips_plaintext =
    [Byte.xdd; Byte.xa9; Byte.x7c; Byte.xa4; Byte.x86; Byte.x4c; Byte.xdf; Byte.xe0;
     Byte.x6e; Byte.xaf; Byte.x70; Byte.xa0; Byte.xec; Byte.x0d; Byte.x71; Byte.x91] /\
  aes_encrypt (byte_seq 0 32) fips_plaintext =
    [Byte.x8e; Byte.xa2; Byte.xb7; Byte.xca; Byte.x51; Byte.x67; Byte.x45; Byte.xbf;
     Byte.xea; Byte.xfc; Byte.x49; Byte.x90; Byte.x4b; Byte.x49; Byte.x60; Byte.x89] /\
  aes_decrypt (byte_seq 0 16) (aes_encrypt (byte_seq 0 16) fips_plaintext) = fips_plaintext /\
  aes_decrypt (byte_seq 0 24) (aes_encrypt (byte_seq 0 24) fips_plaintext) = fips_plaintext /\
  aes_decrypt (byte_seq 0 32) (aes_encrypt (byte_seq 0 32) fips_plaintext) = fips_plaintext.
Proof. repeat split; vm_compute; reflexivity. Qed.

(** for every key, of any length, InvCipher undoes Cipher and Cipher
    undoes InvCipher on every 16-byte block: [aes_encrypt k] is a
    permutation of the blocks, so AES meets the interface [BlockCipher]
    the driver's theorems assume, and a fresh, never-keyed transform is
    a permutation too. *)
Theorem aes_is_permutation k b :
  length b = 16%nat ->
  aes_decrypt k (aes_encrypt k b) = b /\ aes_encrypt k (aes_decrypt k b) = b.
Proof. intros Hb. split; [apply aes_decrypt_encrypt | apply aes_encrypt_decrypt]; exact Hb. Qed.

Lemma aes_is_permutation_witness :
  aes_decrypt [] (aes_encrypt [] fips_plaintext) = fips_plaintext /\
  aes_encrypt [] (aes_decrypt [] fips_plaintext) = fips_plaintext.
Proof. apply aes_is_permutation. reflexivity. Defined.

End Aes.
