(* ===== verification/KeyStore.v ===== *)
(** * KeyStore: the sysfs [key] attribute ([key_store], [key_display])

    State: the globals [static char crypto_key[KEY_SIZE]] and
    [static int key_size] of ramdisk.c (lines 34-36), as the record
    [keystore].  [key_store] (lines 78-89) accepts a write of [count] bytes
    only for [count] in {16,24,32} and copies the bytes with
    [snprintf(crypto_key, 32, "%.*s", min(count, 31), buf)]; [key_display]
    (lines 66-73) prints the array with [scnprintf(buf, PAGE_SIZE, "%s\n")].
    The C string functions are modelled byte for byte: [%.*s] stops at the
    precision or at a NUL, [snprintf] writes at most [size - 1] characters
    and a NUL and leaves the rest of the array as it was, and [%s] reads up
    to the first NUL, which is undefined behaviour ([Fault OobKey]) when the
    array has none.  [key_store] is its length test [key_store_guard]
    followed by its two stores to the shared state, [key_store_copy]
    (line 86) and [key_store_set_size] (line 87). *)

From S2P Require Import Prelude Cipher.
From stdpp Require Import base list decidable sets.
From Stdlib Require Import ZArith Lia Strings.Byte Bool.

Set Warnings "-clear-no-such-hyp".
Open Scope Z_scope.

Module KeyStore.

(** ** State *)

Definition KEY_SIZE : Z := 32.
Definition PAGE_SIZE : Z := 4096.

Record keystore := mk_keystore {
  crypto_key : list byte;   (** [char crypto_key[KEY_SIZE]] *)
  key_size : Z              (** [int key_size]: 0 when no key is set *)
}.

(** Static storage starts zeroed. *)
Definition keystore_init : keystore := mk_keystore (repeat Byte.x00 (Z.to_nat KEY_SIZE)) 0.

(** ** The C string functions the attribute uses *)

(** The characters [printf] takes for [%.*s] with precision [prec]: at most
    [prec] bytes of [src], stopping before a NUL. *)
Fixpoint str_prec (prec : nat) (src : list byte) : list byte :=
  match prec, src with
  | O, _ => []
  | _, [] => []
  | S p, c :: cs => if decide (c = Byte.x00) then [] else c :: str_prec p cs
  end.

(** [snprintf(dst, size, "%.*s", prec, src)] with [size >= 1]: writes the
    first [size - 1] characters of the formatted string and a NUL at the
    start of [dst]; returns the new array and the formatted length. *)
Definition snprintf_prec (dst : list byte) (size prec : nat) (src : list byte)
    : list byte * Z :=
  let s := str_prec prec src in
  (splice dst 0 (take (size - 1) s ++ [Byte.x00]), Z.of_nat (length s)).

(** The string [%s] reads: the bytes before the first NUL, or [None] when
    the array holds no NUL (the read runs past its end). *)
Fixpoint c_string (l : list byte) : option (list byte) :=
  match l with
  | [] => None
  | c :: cs => if decide (c = Byte.x00) then Some [] else cons c <$> c_string cs
  end.

(** ** The attribute's handlers *)

(** Line 79: [count != 16 && count != 24 && count != 32]. *)
Definition key_store_guard (count : Z) : bool :=
  negb (count =? 16) && negb (count =? 24) && negb (count =? 32).

(** Line 86, the first of the two writes to the shared key state:
    [snprintf(crypto_key, sizeof(crypto_key), "%.*s", (int)min(count, 31), buf)]. *)
Definition key_store_copy (ks : keystore) (buf : list byte) (count : Z) : keystore :=
  let '(key', _) := snprintf_prec (crypto_key ks) (Z.to_nat KEY_SIZE)
                      (Z.to_nat (Z.min count (KEY_SIZE - 1))) buf in
  mk_keystore key' (key_size ks).

(** Line 87, the second write: [key_size = count]. *)
Definition key_store_set_size (ks : keystore) (count : Z) : keystore :=
  mk_keystore (crypto_key ks) count.

(** [ssize_t key_store(dev, attr, buf, count)] (lines 78-89). *)
Definition key_store (ks : keystore) (buf : list byte) (count : Z) : Z * keystore :=
  if key_store_guard count then (- EINVAL, ks)
  else (count, key_store_set_size (key_store_copy ks buf count) count).

(** [ssize_t key_display(dev, attr, buf)]: the page written and the count
    returned by [scnprintf(buf, PAGE_SIZE, "%s\n", crypto_key)]. *)
Definition key_display (ks : keystore) : res (list byte * Z) :=
  let? s := of_option OobKey (c_string (crypto_key ks)) in
  let out := take (Z.to_nat PAGE_SIZE - 1) (s ++ [Byte.x0a]) in
  Ok (out, Z.of_nat (length out)).

(** The key bytes every transfer passes to [crypto_cipher_setkey]
    ([crypto_key], [key_size], line 117). *)
Definition installed_key (ks : keystore) : list byte :=
  take (Z.to_nat (key_size ks)) (crypto_key ks).

(** ** The invariant of the key store *)

Definition keylen_allowed (n : Z) : bool := (n =? 0) || aes_keylen_ok n.

Definition keystore_wf (ks : keystore) : Prop :=
  length (crypto_key ks) = Z.to_nat KEY_SIZE /\
  keylen_allowed (key_size ks) = true /\
  Byte.x00 ∈ crypto_key ks.

(** ** Lemmas on the string functions *)

Section Strings.
Local Open Scope nat_scope.

Lemma length_str_prec p src : length (str_prec p src) <= p.
Proof.
  revert src. induction p as [|p IH]; intros [|c cs]; simpl; try lia.
  case_decide; simpl; [lia|]. specialize (IH cs). lia.
Qed.

Lemma str_prec_nul_free p src : Byte.x00 ∉ str_prec p src.
Proof.
  revert src. induction p as [|p IH]; intros [|c cs]; simpl; try set_solver.
  case_decide; [set_solver|]. specialize (IH cs). set_solver.
Qed.

Lemma str_prec_take p src : Byte.x00 ∉ take p src -> str_prec p src = take p src.
Proof.
  revert src. induction p as [|p IH]; intros [|c cs] H; simpl in *; try done.
  rewrite elem_of_cons in H. case_decide; [subst; tauto|]. f_equal. apply IH. tauto.
Qed.

Lemma str_prec_nul p s rest :
  Byte.x00 ∉ s -> length s < p -> str_prec p (s ++ Byte.x00 :: rest) = s.
Proof.
  revert p. induction s as [|c s IH]; intros [|p] Hs Hp; cbn [str_prec app length] in *; try lia.
  - by case_decide.
  - case_decide; [set_solver|]. f_equal. apply IH; [set_solver|lia].
Qed.

Lemma c_string_nul s rest : Byte.x00 ∉ s -> c_string (s ++ Byte.x00 :: rest) = Some s.
Proof.
  induction s as [|c s IH]; intros Hs; cbn [c_string app]; [by case_decide|].
  case_decide; [set_solver|]. rewrite IH by set_solver. done.
Qed.

Lemma nul_split (l : list byte) :
  Byte.x00 ∈ l -> exists s rest, l = s ++ Byte.x00 :: rest /\ Byte.x00 ∉ s.
Proof.
  induction l as [|c l IH]; intros H; [set_solver|].
  destruct (decide (c = Byte.x00)) as [->|Hc]; [exists [], l; set_solver|].
  rewrite elem_of_cons in H. destruct H as [H|H]; [congruence|].
  destruct (IH H) as (s & rest & -> & Hs). exists (c :: s), rest. set_solver.
Qed.

Lemma take_splice_0 {A} (m xs : list A) n :
  length xs <= n -> take n (splice m 0 xs) = xs ++ take (n - length xs) (drop (length xs) m).
Proof. intros H. unfold splice. simpl. by rewrite take_app_ge. Qed.

End Strings.

(** ** Lemmas on the handlers *)

Lemma aes_keylen_cases n : aes_keylen_ok n = true <-> n = 16 \/ n = 24 \/ n = 32.
Proof. unfold aes_keylen_ok. rewrite !orb_true_iff, !Z.eqb_eq. tauto. Qed.

(** An accepted write stores [%.*s] of the buffer and a NUL at the start
    of the array. *)
Lemma key_store_accept ks buf count :
  aes_keylen_ok count = true ->
  key_store ks buf count =
    (count, mk_keystore (splice (crypto_key ks) 0
               (str_prec (Z.to_nat (Z.min count (KEY_SIZE - 1))) buf ++ [Byte.x00])) count).
Proof.
  intros Hc. unfold key_store, key_store_guard, key_store_set_size, key_store_copy, snprintf_prec.
  assert (Hb : (count =? 16) || (count =? 24) || (count =? 32) = true) by exact Hc.
  destruct (count =? 16), (count =? 24), (count =? 32); simpl in Hb; try discriminate;
    simpl; do 4 f_equal; apply take_ge;
    pose proof (length_str_prec (Z.to_nat (Z.min count (KEY_SIZE - 1))) buf);
    unfold KEY_SIZE in *; lia.
Qed.

(** The key an accepted write installs: the first [count] bytes of the
    [%.*s] prefix, a NUL, and whatever the array held after them. *)
Lemma installed_key_after_store ks buf count :
  aes_keylen_ok count = true ->
  let s := str_prec (Z.to_nat (Z.min count (KEY_SIZE - 1))) buf in
  installed_key (snd (key_store ks buf count)) =
    take (Z.to_nat count) (s ++ Byte.x00 :: drop (S (length s)) (crypto_key ks)).
Proof.
  intros Hc s. subst s. rewrite key_store_accept by done.
  unfold installed_key, splice. cbn [snd crypto_key key_size]. simpl.
  rewrite <- app_assoc, length_app. simpl. do 4 f_equal. lia.
Qed.

Lemma installed_key_valid ks :
  keystore_wf ks -> (key_size ks =? 0) = false ->
  aes_keylen_ok (Z.of_nat (length (installed_key ks))) = true.
Proof.
  intros (Hl & Hk & _) Hz. unfold keylen_allowed in Hk. rewrite Hz in Hk. simpl in Hk.
  unfold installed_key. rewrite length_take, Hl. pose proof Hk as Hk'.
  apply aes_keylen_cases in Hk'. unfold KEY_SIZE.
  replace (Z.of_nat (Z.to_nat (key_size ks) `min` Z.to_nat 32)) with (key_size ks) by lia. done.
Qed.

#[export] Hint Resolve str_prec_nul_free length_str_prec : drv.

Lemma key_store_reject ks buf count :
  aes_keylen_ok count = false -> key_store ks buf count = (- EINVAL, ks).
Proof.
  intros Hc. unfold key_store, key_store_guard. unfold aes_keylen_ok in Hc.
  destruct (count =? 16), (count =? 24), (count =? 32); simpl in *; congruence.
Qed.

Lemma splice_0_elem {A} (m xs : list A) x : x ∈ xs -> x ∈ splice m 0 xs.
Proof. intros H. unfold splice. simpl. set_solver. Qed.

Lemma length_key_after_store ks buf count :
  length (crypto_key ks) = Z.to_nat KEY_SIZE -> aes_keylen_ok count = true ->
  length (crypto_key (snd (key_store ks buf count))) = Z.to_nat KEY_SIZE.
Proof.
  intros Hl Hc. rewrite key_store_accept by done. simpl. rewrite <- Hl. apply length_splice.
  pose proof (length_str_prec (Z.to_nat (Z.min count (KEY_SIZE - 1))) buf).
  rewrite length_app. simpl. unfold KEY_SIZE in *. lia.
Qed.

(** ** Properties of the key store *)

(** A write to the [key] attribute whose length is not 16, 24 or 32
    returns [-EINVAL] and leaves the key array and [key_size] unchanged. *)
Theorem key_store_rejects_invalid_length ks buf count :
  count <> 16 -> count <> 24 -> count <> 32 ->
  key_store ks buf count = (- EINVAL, ks).
Proof.
  intros H16 H24 H32. apply key_store_reject. unfold aes_keylen_ok.
  rewrite (proj2 (Z.eqb_neq _ _) H16), (proj2 (Z.eqb_neq _ _) H24), (proj2 (Z.eqb_neq _ _) H32).
  done.
Qed.

Lemma key_store_rejects_invalid_length_witness :
  key_store keystore_init [Byte.x41] 17 = (- EINVAL, keystore_init).
Proof. apply key_store_rejects_invalid_length; lia. Defined.

(** C32: The key-store invariant (a 32-byte array holding a NUL, and
    [key_size] in {0,16,24,32}) holds initially and is preserved by every
    write to the attribute, accepted or rejected. *)
Theorem key_store_preserves_wf ks buf count :
  keystore_wf ks -> keystore_wf (snd (key_store ks buf count)).
Proof.
  intros Hwf. destruct (aes_keylen_ok count) eqn:Hc.
  - destruct Hwf as (Hl & _ & _). split; [by apply length_key_after_store|].
    rewrite key_store_accept by done. simpl. split.
    + unfold keylen_allowed. by rewrite Hc, orb_true_r.
    + apply splice_0_elem. set_solver.
  - by rewrite key_store_reject.
Qed.

Lemma keystore_init_wf : keystore_wf keystore_init.
Proof. split; [done|]. split; [done|]. simpl. set_solver. Qed.

Lemma key_store_preserves_wf_witness :
  keystore_wf (snd (key_store keystore_init (repeat Byte.x41 16) 16)).
Proof. apply key_store_preserves_wf. apply keystore_init_wf. Defined.

(** C33: [key_display] never reads past the key array: in every state of
    the invariant it prints the bytes before the first NUL followed by a
    newline, and returns that length plus one. *)
Theorem key_display_safe ks :
  keystore_wf ks ->
  exists s rest, crypto_key ks = s ++ Byte.x00 :: rest /\ (Byte.x00 ∉ s) /\
    key_display ks = Ok (s ++ [Byte.x0a], Z.of_nat (length s) + 1).
Proof.
  intros (Hl & _ & Hnul). destruct (nul_split _ Hnul) as (s & rest & Hk & Hs).
  exists s, rest. split; [done|]. split; [done|].
  unfold key_display. rewrite Hk, c_string_nul by done. simpl.
  assert (length s < 32)%nat
    by (rewrite Hk, length_app in Hl; simpl in Hl; unfold KEY_SIZE in Hl; lia).
  rewrite take_ge by (rewrite length_app; simpl; unfold PAGE_SIZE; lia).
  rewrite length_app. simpl. do 2 f_equal. lia.
Qed.

Lemma key_display_safe_witness :
  exists s rest, crypto_key keystore_init = s ++ Byte.x00 :: rest /\ (Byte.x00 ∉ s) /\
    key_display keystore_init = Ok (s ++ [Byte.x0a], Z.of_nat (length s) + 1).
Proof. apply key_display_safe. apply keystore_init_wf. Defined.

Lemma str_prec_whole buf p :
  Byte.x00 ∉ buf -> (length buf <= p)%nat -> str_prec p buf = buf.
Proof.
  intros Hn Hl. rewrite str_prec_take by (rewrite take_ge by lia; done).
  by rewrite take_ge by lia.
Qed.

(** Writing a NUL-free 16- or 24-byte key returns [count], sets
    [key_size] to [count] and makes exactly the written bytes the key every
    later transfer installs. *)
Theorem key_store_installs_key ks buf count :
  count = 16 \/ count = 24 -> Z.of_nat (length buf) = count -> Byte.x00 ∉ buf ->
  fst (key_store ks buf count) = count /\
  key_size (snd (key_store ks buf count)) = count /\
  installed_key (snd (key_store ks buf count)) = buf.
Proof.
  intros Hc Hl Hn. assert (Hok : aes_keylen_ok count = true) by (apply aes_keylen_cases; lia).
  split; [by rewrite key_store_accept|]. split; [by rewrite key_store_accept|].
  rewrite installed_key_after_store by done. unfold KEY_SIZE.
  rewrite str_prec_whole by (done || lia).
  rewrite take_app_le by lia. apply take_ge. lia.
Qed.

Lemma key_store_installs_key_witness :
  fst (key_store keystore_init (repeat Byte.x41 16) 16) = 16 /\
  key_size (snd (key_store keystore_init (repeat Byte.x41 16) 16)) = 16 /\
  installed_key (snd (key_store keystore_init (repeat Byte.x41 16) 16)) = repeat Byte.x41 16.
Proof. apply key_store_installs_key; [lia|reflexivity|vm_compute; set_solver]. Defined.

(** C9: A 32-byte (256-bit) key is not installed as written: [snprintf]
    keeps at most 31 bytes and a NUL, so the key every transfer installs is
    the first 31 bytes followed by a zero byte, never the written key. *)
Theorem key_store_256_drops_last_byte ks buf :
  Z.of_nat (length buf) = 32 -> Byte.x00 ∉ buf ->
  installed_key (snd (key_store ks buf 32)) = take 31 buf ++ [Byte.x00] /\
  installed_key (snd (key_store ks buf 32)) <> buf.
Proof.
  intros Hl Hn. rewrite installed_key_after_store by done.
  change (Z.to_nat (Z.min 32 (KEY_SIZE - 1))) with 31%nat.
  rewrite str_prec_take by (intros H; apply Hn; by apply elem_of_take in H as (? & ? & ?);
    eapply list_elem_of_lookup_2).
  assert (H31 : length (take 31 buf) = 31%nat) by (rewrite length_take; lia).
  rewrite H31. change (Z.to_nat 32) with (31 + 1)%nat.
  rewrite take_app_add' by done. simpl. split; [done|].
  intros Heq. apply Hn. rewrite <- Heq. set_solver.
Qed.

Lemma key_store_256_drops_last_byte_witness :
  installed_key (snd (key_store keystore_init (repeat Byte.x41 32) 32)) =
    take 31 (repeat Byte.x41 32) ++ [Byte.x00] /\
  installed_key (snd (key_store keystore_init (repeat Byte.x41 32) 32)) <> repeat Byte.x41 32.
Proof. apply key_store_256_drops_last_byte; [reflexivity|vm_compute; set_solver]. Defined.

(** Round trip through the attribute: after a NUL-free 16- or 24-byte
    key is written, reading the attribute returns exactly that key and a
    newline, and the count [count + 1]. *)
Theorem key_store_display_roundtrip ks buf count :
  keystore_wf ks -> count = 16 \/ count = 24 -> Z.of_nat (length buf) = count ->
  Byte.x00 ∉ buf ->
  key_display (snd (key_store ks buf count)) = Ok (buf ++ [Byte.x0a], count + 1).
Proof.
  intros (Hl & _ & _) Hc Hlen Hn.
  rewrite key_store_accept by (apply aes_keylen_cases; lia). unfold KEY_SIZE.
  rewrite str_prec_whole by (done || lia).
  unfold key_display, splice. cbn [crypto_key]. simpl.
  rewrite <- app_assoc. simpl. rewrite c_string_nul by done. simpl.
  rewrite take_ge by (rewrite length_app; simpl; unfold PAGE_SIZE; lia).
  rewrite length_app. simpl. do 2 f_equal. lia.
Qed.

Lemma key_store_display_roundtrip_witness :
  key_display (snd (key_store keystore_init (repeat Byte.x41 24) 24)) =
    Ok (repeat Byte.x41 24 ++ [Byte.x0a], 24 + 1).
Proof.
  apply key_store_display_roundtrip;
    [apply keystore_init_wf|lia|reflexivity|vm_compute; set_solver].
Defined.

(** An accepted key that contains a NUL byte does not replace the old
    key: every byte of the installed key after the NUL is the byte the
    array held before the write (the spec requires the new key to replace
    the old one entirely). *)
Theorem key_store_keeps_stale_bytes ks s rest count (i : nat) :
  keystore_wf ks -> aes_keylen_ok count = true ->
  Byte.x00 ∉ s -> (length s < Z.to_nat (Z.min count (KEY_SIZE - 1)))%nat ->
  (length s < i < Z.to_nat count)%nat ->
  installed_key (snd (key_store ks (s ++ Byte.x00 :: rest) count)) !! i = crypto_key ks !! i.
Proof.
  intros (Hl & _ & _) Hc Hs Hlt Hi. rewrite installed_key_after_store by done.
  rewrite str_prec_nul by done.
  rewrite lookup_take_lt by lia. rewrite lookup_app_r by lia.
  replace (i - length s)%nat with (S (i - S (length s))) by lia. simpl.
  rewrite lookup_drop. f_equal. lia.
Qed.

Lemma key_store_keeps_stale_bytes_witness :
  installed_key (snd (key_store (snd (key_store keystore_init (repeat Byte.x41 16) 16))
                   ([Byte.x42] ++ Byte.x00 :: repeat Byte.x42 14) 16)) !! 5%nat =
  crypto_key (snd (key_store keystore_init (repeat Byte.x41 16) 16)) !! 5%nat.
Proof.
  apply key_store_keeps_stale_bytes;
    [apply key_store_preserves_wf_witness|reflexivity|vm_compute; set_solver|vm_compute; lia|vm_compute; lia].
Defined.

(** The return value of [crypto_cipher_setkey], which [sbd_transfer]
    ignores, is always 0: in every state of the invariant with a key set,
    [setkey] succeeds and installs [installed_key]. *)
Theorem setkey_succeeds_on_wf ks t :
  keystore_wf ks -> key_size ks <> 0 ->
  crypto_cipher_setkey t (crypto_key ks) (key_size ks) = (0, mk_tfm (installed_key ks) (tfm_flags t)).
Proof.
  intros (_ & Hk & _) Hnz. unfold keylen_allowed in Hk.
  apply orb_true_iff in Hk as [Hk|Hk]; [apply Z.eqb_eq in Hk; done|].
  unfold crypto_cipher_setkey. by rewrite Hk.
Qed.

Lemma setkey_succeeds_on_wf_witness :
  crypto_cipher_setkey crypto_alloc_cipher_aes
    (crypto_key (snd (key_store keystore_init (repeat Byte.x41 16) 16)))
    (key_size (snd (key_store keystore_init (repeat Byte.x41 16) 16))) =
  (0, mk_tfm (installed_key (snd (key_store keystore_init (repeat Byte.x41 16) 16)))
             (tfm_flags crypto_alloc_cipher_aes)).
Proof. apply setkey_succeeds_on_wf; [apply key_store_preserves_wf_witness|vm_compute; lia]. Defined.

End KeyStore.
