(* ===== verification/Transfer.v ===== *)
(** * TransferEngine: [sbd_transfer] (ramdisk.c lines 106-157)

    The driver's state is the record [drv_state]: the module parameter
    [logical_block_size], the key store of [KeyStore], the AES transform
    [tfm], the device [struct sbd_device Device] (its [size] and the
    [vmalloc]ed array [data]) and the kernel log.  [sbd_transfer] computes
    [offset] and [nbytes] as [unsigned long] products, (re)installs the key
    in [tfm] when [key_size] is not 0, rejects a range whose end is beyond
    [dev->size] (logging it and returning), and otherwise copies between the
    caller's [buffer] and [dev->data + offset]: with [memcpy] when no key is
    set, or block by block with [crypto_cipher_encrypt_one] /
    [crypto_cipher_decrypt_one] in the loop [xfer_blocks].  Every access is
    bounds-checked by [mem_load] / [mem_store]: an access outside an array is
    a [Fault], not a silent wrap.  The function is [transfer_prologue]
    (lines 113-118) followed by [transfer_body] (the rest), the split at
    which [Interleave] lets a sysfs write run. *)

From S2P Require Import Prelude Cipher KeyStore.
From stdpp Require Import base list decidable sets.
From Stdlib Require Import ZArith Lia Strings.Byte Bool.

Set Warnings "-clear-no-such-hyp".
Open Scope Z_scope.

Module Transfer.
Import KeyStore.

(** ** State *)

(** [struct sbd_device]: the lock and the gendisk are not modelled here. *)
Record sbd_device := mk_device {
  dev_size : Z;            (** [unsigned long size] *)
  dev_data : list byte     (** [u8 *data], [size] bytes from [vmalloc] *)
}.

(** The messages [printk] writes, in order. *)
Inductive kmsg :=
  | MsgNoKey                          (** "no key set" *)
  | MsgBeyondEnd (offset nbytes : Z)  (** "sbd: Beyond-end write" *)
  | MsgSkipNonCmd.                    (** "Skip non-CMD request" *)

Record drv_state := mk_drv {
  logical_block_size : Z;  (** module parameter [int logical_block_size] *)
  keys : keystore;         (** [crypto_key], [key_size] *)
  tfm : crypto_tfm;        (** [struct crypto_cipher *tfm] *)
  device : sbd_device;     (** [Device] *)
  klog : list kmsg         (** the kernel log *)
}.

Definition set_tfm (st : drv_state) (t : crypto_tfm) : drv_state :=
  mk_drv (logical_block_size st) (keys st) t (device st) (klog st).
Definition set_data (st : drv_state) (d : list byte) : drv_state :=
  mk_drv (logical_block_size st) (keys st) (tfm st)
    (mk_device (dev_size (device st)) d) (klog st).
Definition printk (st : drv_state) (m : kmsg) : drv_state :=
  mk_drv (logical_block_size st) (keys st) (tfm st) (device st) (klog st ++ [m]).

Section Engine.
Context `{BlockCipher}.

(** ** The block loop

    [for (k = 0; k < nbytes; k += crypto_cipher_blocksize(tfm))
       crypto_cipher_{en,de}crypt_one(tfm, dst + doff + k, src + soff + k);]
    where [f] is the block transformation with the installed key.  Each
    iteration reads one block of [src] and writes one block of [dst]; an
    access outside either array faults with [fsrc] / [fdst]. *)
Fixpoint xfer_blocks (fuel : nat) (f : list byte -> list byte)
    (src : list byte) (soff : Z) (fsrc : fault)
    (dst : list byte) (doff : Z) (fdst : fault) (k nbytes : Z) : res (list byte) :=
  match fuel with
  | O => OutOfFuel
  | S fuel' =>
      if k <? nbytes then
        let? blk := of_option fsrc (mem_load src (soff + k) AES_BLOCK_SIZE) in
        let? dst' := of_option fdst (mem_store dst (doff + k) (f blk)) in
        xfer_blocks fuel' f src soff fsrc dst' doff fdst (k + AES_BLOCK_SIZE) nbytes
      else Ok dst
  end.

(** Fuel for the loop over [nbytes] bytes: one more than the number of
    iterations, since [k] grows by 16 from 0. *)
Definition loop_fuel (nbytes : Z) : nat := S (Z.to_nat nbytes).

(** Lines 113-118: without a key, log "no key set"; with a key, clear the
    transform's flags and install [crypto_key] of length [key_size]. *)
Definition transfer_prologue (st : drv_state) : drv_state :=
  let ks := keys st in
  if key_size ks =? 0 then printk st MsgNoKey
  else set_tfm st (snd (crypto_cipher_setkey
                          (crypto_cipher_clear_flags (tfm st) (-1))
                          (crypto_key ks) (key_size ks))).

(** ** [sbd_transfer(dev, sector, nsect, buffer, write)]

    [transfer_body] is the function after the key installation: the
    offsets (lines 108-109, which depend only on [logical_block_size]),
    the bounds check and the four copy branches (lines 120-156); it reads
    [key_size] from the state it is given.  It returns the new driver state
    and the caller's buffer after the call (changed by a read). *)
Definition transfer_body (st1 : drv_state) (sector nsect : Z) (buffer : list byte)
    (write : bool) : res (drv_state * list byte) :=
  let lbs := ulong (logical_block_size st1) in
  let offset := ulong (sector * lbs) in
  let nbytes := ulong (nsect * lbs) in
  let ks := keys st1 in
  (* lines 120-123 *)
  if dev_size (device st1) <? ulong (offset + nbytes) then
    Ok (printk st1 (MsgBeyondEnd offset nbytes), buffer)
  else
    let data := dev_data (device st1) in
    let key := tfm_key (tfm st1) in
    if write then
      if negb (key_size ks =? 0) then
        let? data' := xfer_blocks (loop_fuel nbytes) (encrypt_block key)
                        buffer 0 OobBuffer data offset OobDevice 0 nbytes in
        Ok (set_data st1 data', buffer)
      else
        let? data' := memcpy data offset buffer 0 nbytes OobDevice OobBuffer in
        Ok (set_data st1 data', buffer)
    else
      if negb (key_size ks =? 0) then
        let? buffer' := xfer_blocks (loop_fuel nbytes) (decrypt_block key)
                          data offset OobDevice buffer 0 OobBuffer 0 nbytes in
        Ok (st1, buffer')
      else
        let? buffer' := memcpy buffer 0 data offset nbytes OobBuffer OobDevice in
        Ok (st1, buffer').

(** The whole function: key installation, then the body. *)
Definition sbd_transfer (st : drv_state) (sector nsect : Z) (buffer : list byte)
    (write : bool) : res (drv_state * list byte) :=
  transfer_body (transfer_prologue st) sector nsect buffer write.

End Engine.

(** ** Reference behaviour and preconditions *)

Section Spec.
Context `{BlockCipher}.

(** What the disk should hold for plaintext [bytes] under the key store
    [ks]: the bytes themselves without a key, their ECB encryption with the
    installed key otherwise. *)
Definition encrypt_range (ks : keystore) (bytes : list byte) : list byte :=
  if key_size ks =? 0 then bytes
  else ecb_blocks (encrypt_block (installed_key ks)) (length bytes / aes_block_nat) bytes.

Definition decrypt_range (ks : keystore) (bytes : list byte) : list byte :=
  if key_size ks =? 0 then bytes
  else ecb_blocks (decrypt_block (installed_key ks)) (length bytes / aes_block_nat) bytes.

(** The same with the key the transform actually holds, which is the
    installed key after a key installation. *)
Definition encrypt_range_with (key : list byte) (ks : keystore) (bytes : list byte) : list byte :=
  if key_size ks =? 0 then bytes
  else ecb_blocks (encrypt_block key) (length bytes / aes_block_nat) bytes.

Definition decrypt_range_with (key : list byte) (ks : keystore) (bytes : list byte) : list byte :=
  if key_size ks =? 0 then bytes
  else ecb_blocks (decrypt_block key) (length bytes / aes_block_nat) bytes.

(** The abstract plaintext disk the device presents to its users. *)
Definition plain_view (st : drv_state) : list byte :=
  decrypt_range (keys st) (dev_data (device st)).

(** Well-formed driver state: the key-store invariant, an [int] block size,
    and a data array of [Device.size] bytes, an [unsigned long]. *)
Definition drv_wf (st : drv_state) : Prop :=
  keystore_wf (keys st) /\
  0 < logical_block_size st <= INT_MAX /\
  Z.of_nat (length (dev_data (device st))) = dev_size (device st) /\
  dev_size (device st) < ULONG_MODULUS.

(** A request whose sectors lie inside the device. *)
Definition in_range (st : drv_state) (sector nsect : Z) : Prop :=
  0 <= sector /\ 0 <= nsect /\
  (sector + nsect) * logical_block_size st <= dev_size (device st).

End Spec.

(** ** The block loop computes ECB *)

Section LoopFacts.
Context `{BlockCipher}.

(** Running out of fuel is impossible with one unit of fuel per byte left
    and one more for the final test. *)
Lemma xfer_blocks_fuel fuel f src soff fsrc dst doff fdst k nbytes :
  (Z.to_nat (nbytes - k) < fuel)%nat ->
  xfer_blocks fuel f src soff fsrc dst doff fdst k nbytes <> OutOfFuel.
Proof.
  revert k dst. induction fuel as [|fuel IH]; intros k dst Hf; [lia|]. cbn [xfer_blocks].
  destruct (k <? nbytes) eqn:Hk; [|discriminate]. apply Z.ltb_lt in Hk.
  destruct (mem_load src (soff + k) AES_BLOCK_SIZE); [|discriminate]. cbn [of_option res_bind].
  destruct (mem_store dst (doff + k) (f l)); [|discriminate]. cbn [of_option res_bind].
  apply IH. unfold_sizes. lia.
Qed.

(** [j] iterations of the loop from [k], all starting below [nbytes] and
    inside both arrays, write the ECB transformation of the [j] source
    blocks into the destination. *)
Lemma xfer_blocks_prefix f fuel src soff fsrc dst doff fdst k nbytes (j : nat) :
  (forall b, length b = aes_block_nat -> length (f b) = aes_block_nat) ->
  0 <= soff -> 0 <= doff -> 0 <= k -> k + 16 * Z.of_nat j <= nbytes ->
  soff + k + 16 * Z.of_nat j <= Z.of_nat (length src) ->
  doff + k + 16 * Z.of_nat j <= Z.of_nat (length dst) ->
  xfer_blocks (j + fuel) f src soff fsrc dst doff fdst k nbytes =
    xfer_blocks fuel f src soff fsrc
      (splice dst (Z.to_nat (doff + k))
         (ecb_blocks f j (slice src (Z.to_nat (soff + k)) (j * aes_block_nat))))
      doff fdst (k + 16 * Z.of_nat j) nbytes.
Proof.
  intros Hf Hs Hd. revert k dst. induction j as [|j IH]; intros k dst Hk Hj Hsl Hdl.
  - cbn [ecb_blocks Nat.add]. rewrite splice_nil. do 2 f_equal. lia.
  - cbn [Nat.add xfer_blocks]. rewrite (proj2 (Z.ltb_lt _ _)) by lia.
    set (blk := slice src (Z.to_nat (soff + k)) aes_block_nat).
    assert (Hblk : length blk = aes_block_nat) by (apply length_slice; unfold_sizes; lia).
    rewrite (proj2 (mem_load_Some src _ _ blk)) by (unfold blk; unfold_sizes; split; [lia|done]).
    cbn [of_option res_bind].
    rewrite (proj2 (mem_store_Some dst _ _ (splice dst (Z.to_nat (doff + k)) (f blk))))
      by (rewrite Hf by done; unfold_sizes; split; [lia|done]).
    cbn [of_option res_bind].
    rewrite IH by (rewrite ?length_splice; rewrite ?Hf; unfold_sizes; lia).
    replace (k + AES_BLOCK_SIZE + 16 * Z.of_nat j) with (k + 16 * Z.of_nat (S j)) by (unfold_sizes; lia).
    f_equal. replace (Z.to_nat (doff + (k + AES_BLOCK_SIZE)))
      with (Z.to_nat (doff + k) + length (f blk))%nat by (rewrite Hf by done; unfold_sizes; lia).
    rewrite splice_splice_adjacent.
    2:{ rewrite Hf, length_ecb_blocks by (done || (rewrite length_slice; unfold_sizes; lia)).
        unfold_sizes; lia. }
    f_equal. replace (S j * aes_block_nat)%nat with (aes_block_nat + j * aes_block_nat)%nat by lia.
    cbn [ecb_blocks]. rewrite slice_take_l, slice_drop_l. do 3 f_equal. unfold_sizes; lia.
Qed.

(** On an aligned range inside both arrays the whole loop computes ECB. *)
Lemma xfer_blocks_from0 f fuel src soff fsrc dst doff fdst (n : nat) :
  (forall b, length b = aes_block_nat -> length (f b) = aes_block_nat) ->
  0 <= soff -> 0 <= doff ->
  soff + 16 * Z.of_nat n <= Z.of_nat (length src) ->
  doff + 16 * Z.of_nat n <= Z.of_nat (length dst) -> (n < fuel)%nat ->
  xfer_blocks fuel f src soff fsrc dst doff fdst 0 (16 * Z.of_nat n) =
    Ok (splice dst (Z.to_nat doff) (ecb_blocks f n (slice src (Z.to_nat soff) (n * aes_block_nat)))).
Proof.
  intros Hf Hs Hd Hsl Hdl Hfuel. replace fuel with (n + S (fuel - S n))%nat by lia.
  rewrite xfer_blocks_prefix by (done || lia). cbn [xfer_blocks].
  rewrite (proj2 (Z.ltb_ge _ _)) by lia. by rewrite !Z.add_0_r.
Qed.

End LoopFacts.

(** ** The transfer on each branch *)

Lemma prologue_device st :
  device (transfer_prologue st) = device st /\ keys (transfer_prologue st) = keys st /\
  logical_block_size (transfer_prologue st) = logical_block_size st.
Proof. unfold transfer_prologue. by destruct (key_size (keys st) =? 0). Qed.

(** Unfold [sbd_transfer] and read the parameters the prologue does not
    change from the original state. *)
Ltac unfold_transfer :=
  unfold sbd_transfer, transfer_body;
  rewrite ?(proj2 (proj2 (prologue_device _))), ?(proj1 (proj2 (prologue_device _))).
Ltac unfold_transfer_in H :=
  unfold sbd_transfer, transfer_body in H;
  rewrite ?(proj2 (proj2 (prologue_device _))), ?(proj1 (proj2 (prologue_device _))) in H.

Lemma drv_wf_same st st' :
  keys st' = keys st -> logical_block_size st' = logical_block_size st ->
  dev_size (device st') = dev_size (device st) ->
  length (dev_data (device st')) = length (dev_data (device st)) ->
  drv_wf st -> drv_wf st'.
Proof. intros Hk Hl Hs Hd (? & ? & ? & ?). unfold drv_wf. rewrite Hk, Hl, Hs, Hd. done. Qed.

Lemma prologue_wf st : drv_wf st -> drv_wf (transfer_prologue st).
Proof.
  destruct (prologue_device st) as (Pd & Pk & Pl).
  apply drv_wf_same; rewrite ?Pd, ?Pk, ?Pl; done.
Qed.

Section TransferFacts.
Context `{BlockCipher}.

Lemma prologue_key st :
  keystore_wf (keys st) -> (key_size (keys st) =? 0) = false ->
  tfm_key (tfm (transfer_prologue st)) = installed_key (keys st).
Proof.
  intros (_ & Hk & _) Hz. unfold transfer_prologue. rewrite Hz. simpl.
  unfold keylen_allowed in Hk. rewrite Hz in Hk. simpl in Hk.
  unfold crypto_cipher_setkey. by rewrite Hk.
Qed.

Lemma transfer_offsets st sector nsect :
  drv_wf st -> in_range st sector nsect ->
  ulong (logical_block_size st) = logical_block_size st /\
  ulong (sector * logical_block_size st) = sector * logical_block_size st /\
  ulong (nsect * logical_block_size st) = nsect * logical_block_size st /\
  ulong (sector * logical_block_size st + nsect * logical_block_size st) =
    sector * logical_block_size st + nsect * logical_block_size st.
Proof.
  intros (_ & Hl & _ & Hs) (Hsec & Hn & Hr). unfold INT_MAX, ULONG_MODULUS in *.
  repeat split; apply ulong_small; unfold ULONG_MODULUS; nia.
Qed.

(** A block-multiple byte count as a number of blocks. *)
Lemma aligned_blocks z :
  0 <= z -> z mod AES_BLOCK_SIZE = 0 -> z = 16 * Z.of_nat (Z.to_nat (z / 16)).
Proof.
  intros Hz Hm. unfold_sizes. rewrite Z2Nat.id by (apply Z.div_pos; lia).
  pose proof (Z.div_mod z 16 ltac:(lia)). lia.
Qed.

Lemma mul_aligned a b : b mod AES_BLOCK_SIZE = 0 -> (a * b) mod AES_BLOCK_SIZE = 0.
Proof. intros Hb. unfold_sizes. rewrite Z.mul_mod, Hb by lia. by rewrite Z.mul_0_r. Qed.

Lemma transfer_body_write_ok st sector nsect buf :
  drv_wf st -> in_range st sector nsect ->
  logical_block_size st mod AES_BLOCK_SIZE = 0 ->
  nsect * logical_block_size st <= Z.of_nat (length buf) ->
  transfer_body st sector nsect buf true =
    Ok (set_data st
          (splice (dev_data (device st)) (Z.to_nat (sector * logical_block_size st))
             (encrypt_range_with (tfm_key (tfm st)) (keys st)
                (take (Z.to_nat (nsect * logical_block_size st)) buf))),
        buf).
Proof.
  intros Hwf Hr Hal Hbuf. pose proof Hwf as (Hks & Hl & Hlen & Hs).
  destruct (transfer_offsets st sector nsect Hwf Hr) as (E1 & E2 & E3 & E4).
  destruct Hr as (Hsec & Hn & Hr).
  unfold transfer_body. rewrite E1, E2, E3, E4. rewrite (proj2 (Z.ltb_ge _ _)) by lia.
  unfold encrypt_range_with. cbn [negb]. destruct (key_size (keys st) =? 0) eqn:Hk; cbn [negb].
  - rewrite memcpy_ok by nia. unfold slice. by rewrite drop_0.
  - set (n := Z.to_nat (nsect * logical_block_size st / 16)).
    assert (Hnb : nsect * logical_block_size st = 16 * Z.of_nat n)
      by (apply aligned_blocks; [nia|by apply mul_aligned]).
    rewrite Hnb, xfer_blocks_from0;
      [|apply length_encrypt_block|lia|nia|nia|nia|unfold loop_fuel; lia].
    cbn [res_bind]. change (Z.to_nat 0) with 0%nat. rewrite length_take, Nat.min_l by lia.
    replace (Z.to_nat (16 * Z.of_nat n)) with (n * aes_block_nat)%nat by (unfold_sizes; lia).
    rewrite Nat.div_mul by (unfold_sizes; lia). unfold slice. by rewrite drop_0.
Qed.

Lemma transfer_body_read_ok st sector nsect buf :
  drv_wf st -> in_range st sector nsect ->
  logical_block_size st mod AES_BLOCK_SIZE = 0 ->
  nsect * logical_block_size st <= Z.of_nat (length buf) ->
  transfer_body st sector nsect buf false =
    Ok (st, splice buf 0 (decrypt_range_with (tfm_key (tfm st)) (keys st)
          (slice (dev_data (device st)) (Z.to_nat (sector * logical_block_size st))
                 (Z.to_nat (nsect * logical_block_size st))))).
Proof.
  intros Hwf Hr Hal Hbuf. pose proof Hwf as (Hks & Hl & Hlen & Hs).
  destruct (transfer_offsets st sector nsect Hwf Hr) as (E1 & E2 & E3 & E4).
  destruct Hr as (Hsec & Hn & Hr).
  unfold transfer_body. rewrite E1, E2, E3, E4. rewrite (proj2 (Z.ltb_ge _ _)) by lia.
  unfold decrypt_range_with. destruct (key_size (keys st) =? 0) eqn:Hk; cbn [negb].
  - rewrite memcpy_ok by nia. done.
  - set (n := Z.to_nat (nsect * logical_block_size st / 16)).
    assert (Hnb : nsect * logical_block_size st = 16 * Z.of_nat n)
      by (apply aligned_blocks; [nia|by apply mul_aligned]).
    rewrite Hnb, xfer_blocks_from0;
      [|apply length_decrypt_block|nia|lia|nia|nia|unfold loop_fuel; lia].
    cbn [res_bind]. change (Z.to_nat 0) with 0%nat. rewrite length_slice by nia.
    replace (Z.to_nat (16 * Z.of_nat n)) with (n * aes_block_nat)%nat by (unfold_sizes; lia).
    rewrite Nat.div_mul by (unfold_sizes; lia). done.
Qed.

(** After the prologue the transform holds the installed key. *)
Lemma prologue_encrypt_range st bytes :
  keystore_wf (keys st) ->
  encrypt_range_with (tfm_key (tfm (transfer_prologue st))) (keys st) bytes =
    encrypt_range (keys st) bytes.
Proof.
  intros Hks. unfold encrypt_range_with, encrypt_range.
  destruct (key_size (keys st) =? 0) eqn:Hk; [done|]. by rewrite prologue_key.
Qed.

Lemma prologue_decrypt_range st bytes :
  keystore_wf (keys st) ->
  decrypt_range_with (tfm_key (tfm (transfer_prologue st))) (keys st) bytes =
    decrypt_range (keys st) bytes.
Proof.
  intros Hks. unfold decrypt_range_with, decrypt_range.
  destruct (key_size (keys st) =? 0) eqn:Hk; [done|]. by rewrite prologue_key.
Qed.

Lemma prologue_in_range st sector nsect :
  in_range st sector nsect -> in_range (transfer_prologue st) sector nsect.
Proof.
  destruct (prologue_device st) as (Pd & Pk & Pl). unfold in_range. by rewrite Pd, Pl.
Qed.

Lemma sbd_transfer_write_ok st sector nsect buf :
  drv_wf st -> in_range st sector nsect ->
  logical_block_size st mod AES_BLOCK_SIZE = 0 ->
  nsect * logical_block_size st <= Z.of_nat (length buf) ->
  sbd_transfer st sector nsect buf true =
    Ok (set_data (transfer_prologue st)
          (splice (dev_data (device st)) (Z.to_nat (sector * logical_block_size st))
             (encrypt_range (keys st) (take (Z.to_nat (nsect * logical_block_size st)) buf))),
        buf).
Proof.
  intros Hwf Hr Hal Hbuf. destruct (prologue_device st) as (Pd & Pk & Pl).
  unfold sbd_transfer. rewrite transfer_body_write_ok;
    rewrite ?Pd, ?Pk, ?Pl; auto using prologue_wf, prologue_in_range.
  rewrite prologue_encrypt_range by apply Hwf. done.
Qed.

Lemma sbd_transfer_read_ok st sector nsect buf :
  drv_wf st -> in_range st sector nsect ->
  logical_block_size st mod AES_BLOCK_SIZE = 0 ->
  nsect * logical_block_size st <= Z.of_nat (length buf) ->
  sbd_transfer st sector nsect buf false =
    Ok (transfer_prologue st,
        splice buf 0 (decrypt_range (keys st)
          (slice (dev_data (device st)) (Z.to_nat (sector * logical_block_size st))
                 (Z.to_nat (nsect * logical_block_size st))))).
Proof.
  intros Hwf Hr Hal Hbuf. destruct (prologue_device st) as (Pd & Pk & Pl).
  unfold sbd_transfer. rewrite transfer_body_read_ok;
    rewrite ?Pd, ?Pk, ?Pl; auto using prologue_wf, prologue_in_range.
  rewrite prologue_decrypt_range by apply Hwf. done.
Qed.

(** ** The reference ranges *)

Lemma length_encrypt_range ks X (n : nat) :
  length X = (n * aes_block_nat)%nat -> length (encrypt_range ks X) = (n * aes_block_nat)%nat.
Proof.
  intros Hx. unfold encrypt_range. destruct (key_size ks =? 0); [done|].
  rewrite Hx, Nat.div_mul by (unfold_sizes; lia).
  apply length_ecb_blocks; [apply length_encrypt_block|lia].
Qed.

(** Block [i] of the encrypted range is block [i] of the plaintext, or
    its encryption under the installed key. *)
Lemma encrypt_range_block ks X (n i : nat) :
  length X = (n * aes_block_nat)%nat -> (i < n)%nat ->
  slice (encrypt_range ks X) (i * aes_block_nat) aes_block_nat =
    if key_size ks =? 0 then slice X (i * aes_block_nat) aes_block_nat
    else encrypt_block (installed_key ks) (slice X (i * aes_block_nat) aes_block_nat).
Proof.
  intros HX Hi. unfold encrypt_range. destruct (key_size ks =? 0); [done|].
  rewrite HX, Nat.div_mul by (unfold_sizes; lia).
  apply ecb_blocks_block; [apply length_encrypt_block|done|done].
Qed.

Lemma decrypt_encrypt_range ks X (n : nat) :
  keystore_wf ks -> length X = (n * aes_block_nat)%nat ->
  decrypt_range ks (encrypt_range ks X) = X.
Proof.
  intros Hwf Hx. unfold decrypt_range, encrypt_range.
  destruct (key_size ks =? 0) eqn:Hz; [done|].
  pose proof (length_encrypt_range ks X n Hx) as He. unfold encrypt_range in He. rewrite Hz in He.
  rewrite He, Hx, Nat.div_mul by (unfold_sizes; lia).
  rewrite ecb_blocks_inverse; [by rewrite <- Hx, take_ge| apply length_encrypt_block| |lia].
  intros b Hb. apply decrypt_encrypt_block; [by apply installed_key_valid|done].
Qed.

Lemma decrypt_range_splice ks data (N1 n N3 : nat) X :
  keystore_wf ks ->
  length data = ((N1 + n + N3) * aes_block_nat)%nat -> length X = (n * aes_block_nat)%nat ->
  decrypt_range ks (splice data (N1 * aes_block_nat) (encrypt_range ks X)) =
    splice (decrypt_range ks data) (N1 * aes_block_nat) X.
Proof.
  intros Hwf Hd Hx. pose proof (decrypt_encrypt_range ks X n Hwf Hx) as Hde.
  pose proof (length_encrypt_range ks X n Hx) as He.
  unfold decrypt_range, encrypt_range in *. destruct (key_size ks =? 0); [done|].
  rewrite length_splice by (rewrite He, Hd; nia). rewrite Hd, Nat.div_mul by (unfold_sizes; lia).
  rewrite ecb_blocks_splice by (done || apply length_decrypt_block).
  rewrite He, Nat.div_mul in Hde by (unfold_sizes; lia). by rewrite Hde.
Qed.

Lemma decrypt_range_slice ks data (N1 n N3 : nat) :
  length data = ((N1 + n + N3) * aes_block_nat)%nat ->
  slice (decrypt_range ks data) (N1 * aes_block_nat) (n * aes_block_nat) =
    decrypt_range ks (slice data (N1 * aes_block_nat) (n * aes_block_nat)).
Proof.
  intros Hd. unfold decrypt_range. destruct (key_size ks =? 0); [done|].
  rewrite Hd, length_slice by nia. rewrite !Nat.div_mul by (unfold_sizes; lia).
  apply ecb_blocks_slice; [apply length_decrypt_block|done].
Qed.

(** The byte range of an in-range request on an aligned device, in blocks. *)
Lemma aligned_decomp st sector nsect :
  drv_wf st -> in_range st sector nsect ->
  logical_block_size st mod AES_BLOCK_SIZE = 0 -> dev_size (device st) mod AES_BLOCK_SIZE = 0 ->
  exists N1 n N3 : nat,
    Z.to_nat (sector * logical_block_size st) = (N1 * aes_block_nat)%nat /\
    Z.to_nat (nsect * logical_block_size st) = (n * aes_block_nat)%nat /\
    length (dev_data (device st)) = ((N1 + n + N3) * aes_block_nat)%nat.
Proof.
  intros (_ & Hl & Hlen & _) (Hsec & Hn & Hr) Hal Hsz.
  pose proof (aligned_blocks (sector * logical_block_size st) ltac:(nia) (mul_aligned _ _ Hal)) as E1.
  pose proof (aligned_blocks (nsect * logical_block_size st) ltac:(nia) (mul_aligned _ _ Hal)) as E2.
  pose proof (aligned_blocks (dev_size (device st)) ltac:(lia) Hsz) as E3.
  set (a := Z.to_nat (sector * logical_block_size st / 16)) in *.
  set (b := Z.to_nat (nsect * logical_block_size st / 16)) in *.
  set (c := Z.to_nat (dev_size (device st) / 16)) in *.
  exists a, b, (c - a - b)%nat. unfold_sizes. split; [lia|]. split; [lia|]. nia.
Qed.

Lemma mem_store_length m a xs m' : mem_store m a xs = Some m' -> length m' = length m.
Proof. intros (? & ->)%mem_store_Some. apply length_splice. lia. Qed.

Lemma xfer_blocks_length fuel f src soff fsrc dst doff fdst k nbytes dst' :
  xfer_blocks fuel f src soff fsrc dst doff fdst k nbytes = Ok dst' -> length dst' = length dst.
Proof.
  revert k dst. induction fuel as [|fuel IH]; intros k dst E; cbn [xfer_blocks] in E; [done|].
  destruct (k <? nbytes); [|by injection E as <-].
  destruct (mem_load src (soff + k) AES_BLOCK_SIZE); cbn [of_option res_bind] in E; [|done].
  destruct (mem_store dst (doff + k) (f l)) eqn:Hs; cbn [of_option res_bind] in E; [|done].
  rewrite (IH _ _ E). by apply mem_store_length in Hs.
Qed.

Lemma memcpy_length dst doff src soff n fd fs dst' :
  memcpy dst doff src soff n fd fs = Ok dst' -> length dst' = length dst.
Proof.
  unfold memcpy. destruct (mem_load src soff n); cbn [of_option res_bind]; [|done].
  destruct (mem_store dst doff l) eqn:Hs; cbn [of_option]; [|done].
  intros [= <-]. by apply mem_store_length in Hs.
Qed.


End TransferFacts.

(** ** Properties of [sbd_transfer] *)

Section TransferProps.
Context `{BlockCipher}.

(** [sbd_transfer] never runs out of fuel: the block loop gets one unit of
    fuel per byte of the range and one more. *)
Lemma transfer_body_not_out_of_fuel st sector nsect buf write :
  transfer_body st sector nsect buf write <> OutOfFuel.
Proof.
  unfold transfer_body. destruct (_ <? _); [discriminate|].
  destruct write, (negb _); apply res_bind_not_fuel; try (intros; discriminate);
    first [apply memcpy_not_fuel | apply xfer_blocks_fuel; unfold loop_fuel; lia].
Qed.

Lemma sbd_transfer_not_out_of_fuel st sector nsect buf write :
  sbd_transfer st sector nsect buf write <> OutOfFuel.
Proof. apply transfer_body_not_out_of_fuel. Qed.

(** Every completed transfer preserves the driver invariant, and the
    caller's buffer keeps its length. *)

Lemma transfer_body_wf st sector nsect buf write st' buf' :
  drv_wf st -> transfer_body st sector nsect buf write = Ok (st', buf') ->
  drv_wf st' /\ length buf' = length buf.
Proof.
  intros Hwf E. unfold transfer_body in E. destruct (_ <? _).
  { injection E as <- <-. split; [|done]. by apply (drv_wf_same st). }
  destruct write, (negb _); apply res_bind_Ok in E as (d & Hd & E); injection E as <- <-;
    (split; [apply (drv_wf_same st);
             cbn [set_data keys logical_block_size device dev_size dev_data]; try done|]);
    first [ apply xfer_blocks_length in Hd | apply memcpy_length in Hd ]; done.
Qed.

(** The body changes neither the block size nor the device size. *)
Lemma transfer_body_frame st sector nsect buf write st' buf' :
  transfer_body st sector nsect buf write = Ok (st', buf') ->
  logical_block_size st' = logical_block_size st /\ dev_size (device st') = dev_size (device st).
Proof.
  intros E. unfold transfer_body in E. destruct (_ <? _); [by injection E as <- <-|].
  by destruct write, (negb _); apply res_bind_Ok in E as (d & Hd & E); injection E as <- <-.
Qed.

(** An in-range aligned transfer with a long enough buffer always returns. *)
Lemma transfer_body_ok st sector nsect buf write :
  drv_wf st -> in_range st sector nsect ->
  logical_block_size st mod AES_BLOCK_SIZE = 0 ->
  nsect * logical_block_size st <= Z.of_nat (length buf) ->
  exists st' buf', transfer_body st sector nsect buf write = Ok (st', buf').
Proof.
  intros. destruct write; [rewrite transfer_body_write_ok | rewrite transfer_body_read_ok]; eauto.
Qed.

Lemma sbd_transfer_wf st sector nsect buf write st' buf' :
  drv_wf st -> sbd_transfer st sector nsect buf write = Ok (st', buf') ->
  drv_wf st' /\ length buf' = length buf.
Proof. intros Hwf. apply transfer_body_wf. by apply prologue_wf. Qed.

Lemma in_range_same st st' sector nsect :
  logical_block_size st' = logical_block_size st -> dev_size (device st') = dev_size (device st) ->
  in_range st sector nsect -> in_range st' sector nsect.
Proof. intros Hl Hs. unfold in_range. by rewrite Hl, Hs. Qed.

(** An in-range aligned write, as a plain array write. *)
Lemma transfer_write_plain st sector nsect buf :
  drv_wf st -> in_range st sector nsect ->
  logical_block_size st mod AES_BLOCK_SIZE = 0 -> dev_size (device st) mod AES_BLOCK_SIZE = 0 ->
  nsect * logical_block_size st <= Z.of_nat (length buf) ->
  exists st', sbd_transfer st sector nsect buf true = Ok (st', buf) /\ keys st' = keys st /\
    plain_view st' = splice (plain_view st) (Z.to_nat (sector * logical_block_size st))
                       (take (Z.to_nat (nsect * logical_block_size st)) buf).
Proof.
  intros Hwf Hr Hal Hsz Hb.
  destruct (aligned_decomp st sector nsect Hwf Hr Hal Hsz) as (N1 & n & N3 & E1 & E2 & Hd).
  destruct (prologue_device st) as (Pd & Pk & Pl).
  rewrite sbd_transfer_write_ok by done. eexists. split; [reflexivity|].
  unfold plain_view. cbn [set_data keys device dev_data]. rewrite Pk, E1, E2.
  split; [done|]. apply (decrypt_range_splice _ _ N1 n N3); [apply Hwf|done|rewrite length_take; lia].
Qed.

(** C2: Refinement of a plaintext disk, writes: on a device whose block
    size and size are multiples of the AES block, an in-range write
    changes the plaintext view of the disk (its contents decrypted with the
    current key, or the raw bytes without a key) exactly as writing the
    caller's bytes at the request's offset into a plain array would, and
    leaves the key store alone. *)
Theorem sbd_transfer_write_refines st sector nsect buf :
  drv_wf st -> in_range st sector nsect ->
  logical_block_size st mod AES_BLOCK_SIZE = 0 -> dev_size (device st) mod AES_BLOCK_SIZE = 0 ->
  nsect * logical_block_size st <= Z.of_nat (length buf) ->
  exists st', sbd_transfer st sector nsect buf true = Ok (st', buf) /\ keys st' = keys st /\
    plain_view st' = splice (plain_view st) (Z.to_nat (sector * logical_block_size st))
                       (take (Z.to_nat (nsect * logical_block_size st)) buf).
Proof. exact (transfer_write_plain st sector nsect buf). Qed.

(** C3: Refinement of a plaintext disk, reads: an in-range read fills the
    first [nsect * logical_block_size] bytes of the caller's buffer with the
    plaintext view of the disk at the request's offset, keeps the rest of
    the buffer, and changes neither the device nor the key store. *)
Theorem sbd_transfer_read_refines st sector nsect buf :
  drv_wf st -> in_range st sector nsect ->
  logical_block_size st mod AES_BLOCK_SIZE = 0 -> dev_size (device st) mod AES_BLOCK_SIZE = 0 ->
  nsect * logical_block_size st <= Z.of_nat (length buf) ->
  exists st', sbd_transfer st sector nsect buf false =
      Ok (st', splice buf 0 (slice (plain_view st) (Z.to_nat (sector * logical_block_size st))
                                (Z.to_nat (nsect * logical_block_size st)))) /\
    keys st' = keys st /\ device st' = device st.
Proof.
  intros Hwf Hr Hal Hsz Hb.
  destruct (aligned_decomp st sector nsect Hwf Hr Hal Hsz) as (N1 & n & N3 & E1 & E2 & Hd).
  destruct (prologue_device st) as (Pd & Pk & Pl).
  rewrite sbd_transfer_read_ok by done. exists (transfer_prologue st).
  split; [|done]. unfold plain_view. rewrite E1, E2, (decrypt_range_slice _ _ N1 n N3) by done. done.
Qed.

(** A write followed by a read of the same in-range, block-aligned
    sectors. *)
Lemma transfer_write_read st sector nsect buf buf2 :
  drv_wf st -> in_range st sector nsect ->
  logical_block_size st mod AES_BLOCK_SIZE = 0 -> dev_size (device st) mod AES_BLOCK_SIZE = 0 ->
  nsect * logical_block_size st <= Z.of_nat (length buf) ->
  nsect * logical_block_size st <= Z.of_nat (length buf2) ->
  exists st1 st2 buf2',
    sbd_transfer st sector nsect buf true = Ok (st1, buf) /\
    sbd_transfer st1 sector nsect buf2 false = Ok (st2, buf2') /\
    take (Z.to_nat (nsect * logical_block_size st)) buf2' =
      take (Z.to_nat (nsect * logical_block_size st)) buf.
Proof.
  intros Hwf Hr Hal Hsz Hb Hb2.
  destruct (aligned_decomp st sector nsect Hwf Hr Hal Hsz) as (N1 & n & N3 & E1 & E2 & Hd).
  destruct (prologue_device st) as (Pd & Pk & Pl).
  set (X := take (Z.to_nat (nsect * logical_block_size st)) buf).
  assert (HX : length X = (n * aes_block_nat)%nat) by (unfold X; rewrite length_take; lia).
  pose proof (length_encrypt_range (keys st) X n HX) as HE.
  set (st1 := set_data (transfer_prologue st)
                (splice (dev_data (device st)) (Z.to_nat (sector * logical_block_size st))
                   (encrypt_range (keys st) X))).
  assert (Hwf1 : drv_wf st1).
  { apply (drv_wf_same st); cbn [st1 set_data keys logical_block_size device dev_size dev_data];
      rewrite ?Pk, ?Pl, ?Pd; try done. apply length_splice. lia. }
  assert (Hr1 : in_range st1 sector nsect)
    by (apply (in_range_same st); cbn [st1 set_data logical_block_size device dev_size];
        rewrite ?Pl, ?Pd; done).
  rewrite sbd_transfer_write_ok by done. do 3 eexists. split; [reflexivity|].
  rewrite sbd_transfer_read_ok by (cbn [st1 set_data logical_block_size]; rewrite ?Pl; done).
  split; [reflexivity|].
  cbn [st1 set_data keys logical_block_size device dev_data]. rewrite Pk, Pl.
  fold X.
  assert (Hsl : slice (splice (dev_data (device st)) (Z.to_nat (sector * logical_block_size st))
                        (encrypt_range (keys st) X))
                  (Z.to_nat (sector * logical_block_size st)) (Z.to_nat (nsect * logical_block_size st))
                = encrypt_range (keys st) X).
  { rewrite E2, <- HE. apply slice_splice. rewrite HE. lia. }
  rewrite Hsl, (decrypt_encrypt_range _ _ n) by (done || apply Hwf).
  rewrite E2, <- HX, take_splice_0 by lia. by rewrite Nat.sub_diag, take_0, app_nil_r.
Qed.

(** C4: Round trip: with the key store unchanged, writing a buffer to an
    in-range, block-aligned request and then reading the same sectors into
    any buffer large enough returns the bytes written. *)
Theorem sbd_transfer_roundtrip st sector nsect buf buf2 :
  drv_wf st -> in_range st sector nsect ->
  logical_block_size st mod AES_BLOCK_SIZE = 0 -> dev_size (device st) mod AES_BLOCK_SIZE = 0 ->
  nsect * logical_block_size st <= Z.of_nat (length buf) ->
  nsect * logical_block_size st <= Z.of_nat (length buf2) ->
  exists st1 st2 buf2',
    sbd_transfer st sector nsect buf true = Ok (st1, buf) /\
    sbd_transfer st1 sector nsect buf2 false = Ok (st2, buf2') /\
    take (Z.to_nat (nsect * logical_block_size st)) buf2' =
      take (Z.to_nat (nsect * logical_block_size st)) buf.
Proof. exact (transfer_write_read st sector nsect buf buf2). Qed.

(** C13: Frame: an in-range write with a block size that is a multiple of
    the AES block changes no byte of the device outside the request's byte
    range [[sector * lbs, (sector + nsect) * lbs)]. *)
Theorem sbd_transfer_write_frame st sector nsect buf (j : nat) :
  drv_wf st -> in_range st sector nsect ->
  logical_block_size st mod AES_BLOCK_SIZE = 0 ->
  nsect * logical_block_size st <= Z.of_nat (length buf) ->
  (j < Z.to_nat (sector * logical_block_size st) \/
   Z.to_nat ((sector + nsect) * logical_block_size st) <= j)%nat ->
  exists st', sbd_transfer st sector nsect buf true = Ok (st', buf) /\
    dev_data (device st') !! j = dev_data (device st) !! j.
Proof.
  intros Hwf Hr Hal Hb Hj. pose proof Hwf as (_ & Hl & Hlen & _). pose proof Hr as (Hs & Hn & Hin).
  rewrite sbd_transfer_write_ok by done. eexists. split; [reflexivity|].
  cbn [set_data device dev_data].
  set (n := Z.to_nat (nsect * logical_block_size st / 16)).
  assert (Hnb : nsect * logical_block_size st = 16 * Z.of_nat n)
    by (apply aligned_blocks; [nia|by apply mul_aligned]).
  assert (HX : length (take (Z.to_nat (nsect * logical_block_size st)) buf) = (n * aes_block_nat)%nat)
    by (rewrite length_take; unfold_sizes; lia).
  apply lookup_splice_out; rewrite (length_encrypt_range _ _ n HX); unfold_sizes; nia.
Qed.

(** C28: ECB: the write encrypts each 16-byte block on its own, so two
    equal blocks of the caller's buffer are stored as equal blocks of the
    disk, with or without a key (the weakness the spec asks to keep). *)
Theorem sbd_transfer_ecb_equal_blocks st sector nsect buf (i j : nat) :
  drv_wf st -> in_range st sector nsect ->
  logical_block_size st mod AES_BLOCK_SIZE = 0 ->
  nsect * logical_block_size st <= Z.of_nat (length buf) ->
  (S i * aes_block_nat <= Z.to_nat (nsect * logical_block_size st))%nat ->
  (S j * aes_block_nat <= Z.to_nat (nsect * logical_block_size st))%nat ->
  slice buf (i * aes_block_nat) aes_block_nat = slice buf (j * aes_block_nat) aes_block_nat ->
  exists st', sbd_transfer st sector nsect buf true = Ok (st', buf) /\
    slice (dev_data (device st'))
      (Z.to_nat (sector * logical_block_size st) + i * aes_block_nat)%nat aes_block_nat =
    slice (dev_data (device st'))
      (Z.to_nat (sector * logical_block_size st) + j * aes_block_nat)%nat aes_block_nat.
Proof.
  intros Hwf Hr Hal Hb Hi Hj Heq. pose proof Hwf as (_ & Hl & Hlen & _).
  pose proof Hr as (Hs & Hn & Hin).
  rewrite sbd_transfer_write_ok by done. eexists. split; [reflexivity|].
  cbn [set_data device dev_data].
  set (n := Z.to_nat (nsect * logical_block_size st / 16)).
  assert (Hnb : nsect * logical_block_size st = 16 * Z.of_nat n)
    by (apply aligned_blocks; [nia|by apply mul_aligned]).
  assert (HX : length (take (Z.to_nat (nsect * logical_block_size st)) buf) = (n * aes_block_nat)%nat)
    by (rewrite length_take; unfold_sizes; lia).
  rewrite !slice_splice_in by (rewrite ?(length_encrypt_range _ _ n HX); unfold_sizes; nia).
  rewrite !(encrypt_range_block _ _ n) by (done || (unfold_sizes; lia)).
  rewrite !slice_take_in by (unfold_sizes; lia). by rewrite Heq.
Qed.

(** C11: A request whose end lies beyond [Device.size] (without 64-bit
    wrap-around) is not performed: the call logs "Beyond-end write",
    returns the caller's buffer untouched and leaves the device unchanged;
    only the key installation of the prologue has happened. *)
Theorem sbd_transfer_beyond_end st sector nsect buf write :
  drv_wf st -> 0 <= sector -> 0 <= nsect ->
  dev_size (device st) < (sector + nsect) * logical_block_size st < ULONG_MODULUS ->
  exists st', sbd_transfer st sector nsect buf write = Ok (st', buf) /\
    device st' = device st /\
    klog st' = klog (transfer_prologue st) ++
                 [MsgBeyondEnd (sector * logical_block_size st) (nsect * logical_block_size st)].
Proof.
  intros (_ & Hl & _ & Hsz) Hs Hn Hr. destruct (prologue_device st) as (Pd & Pk & Pl).
  unfold_transfer. unfold INT_MAX in Hl.
  rewrite (ulong_small (logical_block_size st)) by (unfold ULONG_MODULUS; lia).
  rewrite (ulong_small (sector * _)), (ulong_small (nsect * _)), (ulong_small (_ + _))
    by (unfold ULONG_MODULUS in *; nia).
  rewrite Pd, (proj2 (Z.ltb_lt _ _)) by lia. eexists. split; [reflexivity|]. done.
Qed.

(** C8: 64-bit wrap-around defeats the bounds check: with the default
    512-byte block size, a write to sector [2^55 - 1] computes
    [offset = 2^64 - 512], so [offset + nbytes] wraps to 0 and passes the
    check, and the copy then writes outside [Device.data] (undefined
    behaviour in the driver), with or without a key. *)
Theorem sbd_transfer_offset_wraparound st buf :
  logical_block_size st = 512 -> 0 <= dev_size (device st) <= INT_MAX ->
  Z.of_nat (length (dev_data (device st))) = dev_size (device st) ->
  512 <= Z.of_nat (length buf) ->
  sbd_transfer st (2 ^ 55 - 1) 1 buf true = Fault OobDevice.
Proof.
  intros Hl Hs Hlen Hb. destruct (prologue_device st) as (Pd & Pk & Pl).
  unfold_transfer. rewrite Hl.
  change (ulong (1 * ulong 512)) with 512.
  change (ulong ((2 ^ 55 - 1) * ulong 512)) with (2 ^ 64 - 512).
  change (ulong (2 ^ 64 - 512 + 512)) with 0.
  rewrite Pd, (proj2 (Z.ltb_ge _ _)) by lia. unfold INT_MAX in Hs.
  destruct (negb _).
  - unfold loop_fuel. cbn [xfer_blocks]. change (0 <? 512) with true. cbv iota.
    rewrite (proj2 (mem_load_Some buf (0 + 0) AES_BLOCK_SIZE (slice buf 0 16)))
      by (unfold AES_BLOCK_SIZE; split; [lia|done]).
    cbn [of_option res_bind]. rewrite (proj2 (mem_store_None _ _ _)); [done|]. lia.
  - unfold memcpy. rewrite (proj2 (mem_load_Some buf 0 512 (slice buf 0 512)))
      by (split; [lia|done]).
    cbn [of_option res_bind]. rewrite (proj2 (mem_store_None _ _ _)); [done|]. lia.
Qed.

(** C14: With a key set and a block size that is not a multiple of the
    AES block (520 here), the block loop overruns the request: writing one
    sector from a buffer of exactly one block's bytes reads past the end of
    the caller's buffer in its 33rd iteration (undefined behaviour), whereas
    the keyless [memcpy] path stays inside the range. *)
Theorem sbd_transfer_unaligned_overrun st buf :
  logical_block_size st = 520 -> keystore_wf (keys st) -> key_size (keys st) <> 0 ->
  520 <= dev_size (device st) <= INT_MAX ->
  Z.of_nat (length (dev_data (device st))) = dev_size (device st) ->
  length buf = 520%nat ->
  sbd_transfer st 0 1 buf true = Fault OobBuffer.
Proof.
  intros Hl Hks Hk Hs Hlen Hb. destruct (prologue_device st) as (Pd & Pk & Pl).
  unfold_transfer. rewrite Hl.
  change (ulong (1 * ulong 520)) with 520. change (ulong (0 * ulong 520)) with 0.
  change (ulong (0 + 520)) with 520.
  rewrite Pd, (proj2 (Z.ltb_ge _ _)) by lia.
  rewrite (proj2 (Z.eqb_neq _ _) Hk). cbn [negb].
  unfold loop_fuel. change (S (Z.to_nat 520)) with (32 + 489)%nat.
  rewrite xfer_blocks_prefix; [|apply length_encrypt_block|lia|lia|lia|lia|lia|lia].
  cbn [xfer_blocks]. change (0 + 16 * Z.of_nat 32 <? 520) with true. cbv iota.
  rewrite (proj2 (mem_load_None _ _ _)); [done|]. unfold AES_BLOCK_SIZE. lia.
Qed.

End TransferProps.

(** ** A concrete state for the witnesses: a 16-byte key, four 512-byte sectors *)

Definition example_keys : keystore := snd (key_store keystore_init (repeat Byte.x41 16) 16).

Definition example_state : drv_state :=
  mk_drv 512 example_keys crypto_alloc_cipher_aes (mk_device 2048 (repeat Byte.x00 2048)) [].

#[export] Instance keystore_wf_dec ks : Decision (keystore_wf ks).
Proof. unfold keystore_wf. apply _. Defined.

#[export] Instance drv_wf_dec st : Decision (drv_wf st).
Proof. unfold drv_wf. apply _. Defined.

Lemma example_state_wf : drv_wf example_state.
Proof. apply (proj1 (bool_decide_eq_true _)). vm_compute. reflexivity. Qed.

Definition example_buffer : list byte := repeat Byte.x42 512.

Lemma example_in_range : in_range example_state 1 1.
Proof. unfold in_range. simpl. lia. Qed.

Lemma sbd_transfer_write_refines_witness :
  exists st', sbd_transfer example_state 1 1 example_buffer true = Ok (st', example_buffer) /\
    keys st' = keys example_state /\
    plain_view st' = splice (plain_view example_state) (Z.to_nat (1 * 512)) (take (Z.to_nat (1 * 512)) example_buffer).
Proof.
  apply (sbd_transfer_write_refines example_state 1 1 example_buffer);
    [apply example_state_wf|apply example_in_range|reflexivity|reflexivity|vm_compute; congruence].
Defined.

Lemma sbd_transfer_read_refines_witness :
  exists st', sbd_transfer example_state 1 1 example_buffer false =
      Ok (st', splice example_buffer 0 (slice (plain_view example_state) (Z.to_nat (1 * 512)) (Z.to_nat (1 * 512)))) /\
    keys st' = keys example_state /\ device st' = device example_state.
Proof.
  apply (sbd_transfer_read_refines example_state 1 1 example_buffer);
    [apply example_state_wf|apply example_in_range|reflexivity|reflexivity|vm_compute; congruence].
Defined.

Lemma sbd_transfer_roundtrip_witness :
  exists st1 st2 buf2',
    sbd_transfer example_state 1 1 example_buffer true = Ok (st1, example_buffer) /\
    sbd_transfer st1 1 1 (repeat Byte.x00 512) false = Ok (st2, buf2') /\
    take (Z.to_nat (1 * 512)) buf2' = take (Z.to_nat (1 * 512)) example_buffer.
Proof.
  apply (sbd_transfer_roundtrip example_state 1 1 example_buffer (repeat Byte.x00 512));
    [apply example_state_wf|apply example_in_range|reflexivity|reflexivity|vm_compute; congruence|vm_compute; congruence].
Defined.

Lemma sbd_transfer_write_frame_witness :
  exists st', sbd_transfer example_state 1 1 example_buffer true = Ok (st', example_buffer) /\
    dev_data (device st') !! 1024%nat = dev_data (device example_state) !! 1024%nat.
Proof.
  apply (sbd_transfer_write_frame example_state 1 1 example_buffer 1024);
    [apply example_state_wf|apply example_in_range|reflexivity|vm_compute; congruence|simpl; lia].
Defined.

(** A buffer whose 16-byte blocks are all equal. *)
Definition ecb_buffer : list byte := repeat Byte.x42 512.

Lemma sbd_transfer_ecb_equal_blocks_witness :
  exists st', sbd_transfer example_state 1 1 ecb_buffer true = Ok (st', ecb_buffer) /\
    slice (dev_data (device st'))
      (Z.to_nat (1 * logical_block_size example_state) + 0 * aes_block_nat)%nat aes_block_nat =
    slice (dev_data (device st'))
      (Z.to_nat (1 * logical_block_size example_state) + 5 * aes_block_nat)%nat aes_block_nat.
Proof.
  apply sbd_transfer_ecb_equal_blocks;
    first [exact example_state_wf | exact example_in_range | reflexivity
          | unfold_sizes; cbn; lia | vm_compute; reflexivity].
Defined.

Lemma sbd_transfer_beyond_end_witness :
  exists st', sbd_transfer example_state 4 1 example_buffer true = Ok (st', example_buffer) /\
    device st' = device example_state /\
    klog st' = klog (transfer_prologue example_state) ++ [MsgBeyondEnd (4 * 512) (1 * 512)].
Proof.
  apply (sbd_transfer_beyond_end example_state 4 1 example_buffer true);
    [apply example_state_wf|lia|lia|vm_compute; split; reflexivity].
Defined.

Lemma sbd_transfer_offset_wraparound_witness :
  sbd_transfer example_state (2 ^ 55 - 1) 1 example_buffer true = Fault OobDevice.
Proof. apply sbd_transfer_offset_wraparound; [reflexivity|vm_compute; split; discriminate|reflexivity|vm_compute; congruence]. Defined.

Definition example_state_520 : drv_state :=
  mk_drv 520 example_keys crypto_alloc_cipher_aes (mk_device 1040 (repeat Byte.x00 1040)) [].

Lemma sbd_transfer_unaligned_overrun_witness :
  sbd_transfer example_state_520 0 1 (repeat Byte.x42 520) true = Fault OobBuffer.
Proof.
  apply sbd_transfer_unaligned_overrun;
    [reflexivity|apply (proj1 (bool_decide_eq_true _)); vm_compute; reflexivity|vm_compute; discriminate
    |vm_compute; split; discriminate|reflexivity|reflexivity].
Defined.

End Transfer.
