(* ===== verification/Dispatcher.v ===== *)
(** * RequestDispatcher: [sbd_request] (ramdisk.c lines 159-178)

    The block layer calls [sbd_request] with the queue lock ([Device.lock])
    held.  The function fetches the first request of the queue and loops
    while it has one: a request that is not a file-system request is
    completed with [-EIO] by [__blk_end_request_all] and the loop
    [continue]s; a file-system request has its current segment transferred
    by [sbd_transfer] and completed by [__blk_end_request_cur(req, 0)], and
    the next request is fetched once the current one has no segment left.

    The queue and the completions the block layer receives are the record
    [sys]; a request is a record with its current position and the segments
    it still has to transfer ([blk_rq_cur_sectors] and [req->buffer] are
    those of the first one).  The variable [req] of the loop is a [handle]
    that records whether the request still belongs to the driver: after
    [__blk_end_request_all] or the last [__blk_end_request_cur] the request
    is freed, and reading its [cmd_type] again is a use after free.  The
    loop runs on fuel; [dispatch_fuel] is enough for any queue of
    file-system requests. *)

From S2P Require Import Prelude Cipher KeyStore Transfer.
From stdpp Require Import base list decidable sets.
From Stdlib Require Import ZArith Lia Strings.Byte Bool.

Set Warnings "-clear-no-such-hyp".
Open Scope Z_scope.

Module Dispatcher.
Import KeyStore Transfer.

(** ** Requests *)

(** The kernel addresses requests in 512-byte sectors (line 41). *)
Definition KERNEL_SECTOR_SIZE : Z := 512.

(** [enum rq_cmd_type_bits] of the kernels the driver targets. *)
Inductive rq_cmd_type :=
  | REQ_TYPE_FS | REQ_TYPE_BLOCK_PC | REQ_TYPE_SENSE | REQ_TYPE_PM_SUSPEND
  | REQ_TYPE_PM_RESUME | REQ_TYPE_PM_SHUTDOWN | REQ_TYPE_SPECIAL
  | REQ_TYPE_ATA_TASKFILE | REQ_TYPE_ATA_PC.

#[export] Instance rq_cmd_type_eq_dec : EqDecision rq_cmd_type.
Proof. solve_decision. Defined.

(** One segment: [blk_rq_cur_sectors(req)] and the data at [req->buffer]. *)
Record segment := mk_seg {
  seg_nsect : Z;
  seg_buffer : list byte
}.

Record request := mk_req {
  rq_id : nat;                (** identity of the request for the block layer *)
  rq_cmd : rq_cmd_type;       (** [req->cmd_type] *)
  rq_write : bool;            (** [rq_data_dir(req)] *)
  rq_pos : Z;                 (** [blk_rq_pos(req)] *)
  rq_segs : list segment      (** the segments not yet completed *)
}.

(** What the block layer is told: [__blk_end_request_cur] completing one
    segment (with the buffer as the transfer left it), or
    [__blk_end_request_all]. *)
Inductive completion :=
  | EndCur (id : nat) (error : Z) (nsect : Z) (buf : list byte)
  | EndAll (id : nat) (error : Z).

Record sys := mk_sys {
  drv : drv_state;            (** the driver's state, [Device] included *)
  queue : list request;       (** the request queue, in FIFO order *)
  completed : list completion (** completions reported so far, in order *)
}.

(** The loop variable [req]: the request and whether the driver still owns
    it (it is freed once completed). *)
Record handle := mk_handle {
  h_req : request;
  h_live : bool
}.

(** ** The block-layer calls *)

(** [blk_fetch_request(q)]: dequeue the first request, [NULL] if none. *)
Definition blk_fetch_request (s : sys) : option handle * sys :=
  match queue s with
  | [] => (None, s)
  | r :: q => (Some (mk_handle r true), mk_sys (drv s) q (completed s))
  end.

Definition report (s : sys) (c : completion) : sys :=
  mk_sys (drv s) (queue s) (completed s ++ [c]).

(** [__blk_end_request_all(req, error)]: completes and frees the request. *)
Definition blk_end_request_all (s : sys) (h : handle) (error : Z) : sys * handle :=
  (report s (EndAll (rq_id (h_req h)) error), mk_handle (h_req h) false).

(** [__blk_end_request_cur(req, error)]: completes the current segment,
    advances the position, and returns whether the request has more; a
    request without more is freed. *)
Definition blk_end_request_cur (s : sys) (h : handle) (error : Z) (buf : list byte)
    : bool * sys * handle :=
  let r := h_req h in
  match rq_segs r with
  | [] => (false, report s (EndCur (rq_id r) error 0 buf), mk_handle r false)
  | seg :: rest =>
      let r' := mk_req (rq_id r) (rq_cmd r) (rq_write r) (rq_pos r + seg_nsect seg) rest in
      let s' := report s (EndCur (rq_id r) error (seg_nsect seg) buf) in
      match rest with
      | [] => (false, s', mk_handle r' false)
      | _ => (true, s', mk_handle r' true)
      end
  end.

(** [blk_rq_cur_sectors(req)] and [req->buffer]. *)
Definition cur_segment (r : request) : Z * list byte :=
  match rq_segs r with
  | [] => (0, [])
  | seg :: _ => (seg_nsect seg, seg_buffer seg)
  end.

Definition set_drv (s : sys) (d : drv_state) : sys := mk_sys d (queue s) (completed s).

Section Loop.
Context `{BlockCipher}.

(** ** The loop of [sbd_request] (lines 163-177) *)
Fixpoint request_loop (fuel : nat) (req : option handle) (s : sys) : res sys :=
  match fuel with
  | O => OutOfFuel
  | S fuel' =>
      match req with
      | None => Ok s
      | Some h =>
          if negb (h_live h) then Fault UseAfterFree
          else if negb (bool_decide (rq_cmd (h_req h) = REQ_TYPE_FS)) then
            let s1 := set_drv s (printk (drv s) MsgSkipNonCmd) in
            let '(s2, h2) := blk_end_request_all s1 h (- EIO) in
            request_loop fuel' (Some h2) s2
          else
            let r := h_req h in
            let '(nsect, buf) := cur_segment r in
            let? res := sbd_transfer (drv s) (rq_pos r) nsect buf (rq_write r) in
            let '(d', buf') := res in
            let '(more, s2, h2) := blk_end_request_cur (set_drv s d') h 0 buf' in
            if negb more then
              let '(next, s3) := blk_fetch_request s2 in
              request_loop fuel' next s3
            else request_loop fuel' (Some h2) s2
      end
  end.

(** [sbd_request(q)] (lines 159-178). *)
Definition sbd_request (fuel : nat) (s : sys) : res sys :=
  let '(req, s1) := blk_fetch_request s in
  request_loop fuel req s1.

End Loop.

(** ** Reference: file-system requests served one after the other *)

Section Reference.
Context `{BlockCipher}.

(** The segments of one request, transferred in order from its position,
    each completed with status 0. *)
Fixpoint serve_segments (d : drv_state) (id : nat) (w : bool) (pos : Z)
    (segs : list segment) : res (drv_state * list completion) :=
  match segs with
  | [] => Ok (d, [])
  | seg :: rest =>
      let? p := sbd_transfer d pos (seg_nsect seg) (seg_buffer seg) w in
      let? t := serve_segments (fst p) id w (pos + seg_nsect seg) rest in
      Ok (fst t, EndCur id 0 (seg_nsect seg) (snd p) :: snd t)
  end.

(** The requests of the queue, in FIFO order. *)
Fixpoint serve_queue (d : drv_state) (q : list request) : res (drv_state * list completion) :=
  match q with
  | [] => Ok (d, [])
  | r :: q' =>
      let? p := serve_segments d (rq_id r) (rq_write r) (rq_pos r) (rq_segs r) in
      let? t := serve_queue (fst p) q' in
      Ok (fst t, snd p ++ snd t)
  end.

End Reference.

(** A file-system request with data. *)
Definition fs_request (r : request) : Prop := rq_cmd r = REQ_TYPE_FS /\ rq_segs r <> [].

Definition total_segments (q : list request) : nat := sum_list_with (fun r => length (rq_segs r)) q.

(** One unit of fuel per segment, and one for the final empty queue. *)
Definition dispatch_fuel (q : list request) : nat := S (total_segments q).

Definition completion_id (c : completion) : nat :=
  match c with EndCur id _ _ _ => id | EndAll id _ => id end.

(** ** The loop follows the reference *)

Section LoopFacts.
Context `{BlockCipher}.

Lemma serve_segments_cons d id w pos seg rest :
  serve_segments d id w pos (seg :: rest) =
    let? p := sbd_transfer d pos (seg_nsect seg) (seg_buffer seg) w in
    let? t := serve_segments (fst p) id w (pos + seg_nsect seg) rest in
    Ok (fst t, EndCur id 0 (seg_nsect seg) (snd p) :: snd t).
Proof. reflexivity. Qed.

Lemma request_loop_segments segs r s fuel :
  rq_cmd r = REQ_TYPE_FS -> rq_segs r = segs -> segs <> [] -> (length segs <= fuel)%nat ->
  request_loop fuel (Some (mk_handle r true)) s =
    let? p := serve_segments (drv s) (rq_id r) (rq_write r) (rq_pos r) segs in
    sbd_request (fuel - length segs) (mk_sys (fst p) (queue s) (completed s ++ snd p)).
Proof.
  revert r s fuel. induction segs as [|seg rest IH]; intros r s fuel Hfs Hsegs Hne Hf; [done|].
  destruct fuel as [|fuel]; [simpl in Hf; lia|]. cbn [request_loop h_live negb h_req].
  rewrite (bool_decide_eq_true_2 _ Hfs). cbn [negb].
  unfold cur_segment. rewrite Hsegs, serve_segments_cons.
  destruct (sbd_transfer (drv s) (rq_pos r) (seg_nsect seg) (seg_buffer seg) (rq_write r))
    as [[d' buf']| |]; cbn [res_bind fst snd]; [|done|done].
  unfold blk_end_request_cur. cbn [h_req]. rewrite Hsegs. destruct rest as [|seg2 rest].
  - cbn [serve_segments res_bind fst snd negb]. unfold sbd_request. simpl length.
    replace (S fuel - 1)%nat with fuel by lia. reflexivity.
  - cbn [negb].
    rewrite (IH (mk_req (rq_id r) (rq_cmd r) (rq_write r) (rq_pos r + seg_nsect seg) (seg2 :: rest)));
      [|done|done|done|simpl in *; lia].
    unfold report, set_drv. cbn [rq_id rq_write rq_pos drv queue completed].
    destruct (serve_segments d' (rq_id r) (rq_write r) (rq_pos r + seg_nsect seg) (seg2 :: rest))
      as [[d'' cs]| |]; cbn [res_bind fst snd]; [|done|done].
    by rewrite <- app_assoc.
Qed.

(** [sbd_request] on a queue of file-system requests with enough fuel is
    the reference: every request served in FIFO order, the queue drained. *)
Lemma sbd_request_spec s fuel :
  Forall fs_request (queue s) -> (total_segments (queue s) < fuel)%nat ->
  sbd_request fuel s =
    let? t := serve_queue (drv s) (queue s) in
    Ok (mk_sys (fst t) [] (completed s ++ snd t)).
Proof.
  destruct s as [d q c]. cbn [queue drv completed]. revert d c fuel.
  induction q as [|r q IH]; intros d c fuel Hfs Hf.
  - destruct fuel as [|fuel]; [lia|]. simpl. by rewrite app_nil_r.
  - apply Forall_cons in Hfs as [[Hcmd Hne] Hfs]. unfold sbd_request at 1. cbn [blk_fetch_request queue drv completed].
    rewrite (request_loop_segments (rq_segs r)) by (done || (simpl in Hf; lia)).
    cbn [drv queue completed serve_queue].
    destruct (serve_segments d (rq_id r) (rq_write r) (rq_pos r) (rq_segs r))
      as [[d' cs]| |]; cbn [res_bind fst snd]; [|done|done].
    rewrite IH by (done || (simpl in Hf; lia)).
    destruct (serve_queue d' q) as [[d'' cs']| |]; cbn [res_bind fst snd]; [|done|done].
    by rewrite app_assoc.
Qed.

Lemma serve_segments_ok d id w pos segs d' cs :
  serve_segments d id w pos segs = Ok (d', cs) ->
  map completion_id cs = repeat id (length segs) /\
  Forall (fun c => exists n b, c = EndCur id 0 n b) cs /\
  (drv_wf d -> drv_wf d').
Proof.
  revert d pos d' cs. induction segs as [|seg rest IH]; intros d pos d' cs E.
  - injection E as <- <-. done.
  - rewrite serve_segments_cons in E.
    destruct (sbd_transfer d pos (seg_nsect seg) (seg_buffer seg) w) as [[d1 b1]| |] eqn:Et;
      cbn [res_bind fst snd] in E; try discriminate.
    destruct (serve_segments d1 id w (pos + seg_nsect seg) rest) as [[d2 cs2]| |] eqn:Er;
      cbn [res_bind fst snd] in E; try discriminate.
    injection E as <- <-. destruct (IH _ _ _ _ Er) as (Hid & Hok & Hwf).
    split; [simpl; by rewrite Hid|]. split; [constructor; [eauto|done]|].
    intros Hd. apply Hwf. by apply (sbd_transfer_wf _ _ _ _ _ _ _ Hd Et).
Qed.

Lemma serve_queue_ok d q d' cs :
  serve_queue d q = Ok (d', cs) ->
  map completion_id cs = concat (map (fun r => repeat (rq_id r) (length (rq_segs r))) q) /\
  Forall (fun c => exists id n b, c = EndCur id 0 n b) cs /\
  (drv_wf d -> drv_wf d').
Proof.
  revert d d' cs. induction q as [|r q IH]; intros d d' cs E.
  - injection E as <- <-. done.
  - cbn [serve_queue] in E.
    destruct (serve_segments d (rq_id r) (rq_write r) (rq_pos r) (rq_segs r)) as [[d1 cs1]| |] eqn:Es;
      cbn [res_bind fst snd] in E; try discriminate.
    destruct (serve_queue d1 q) as [[d2 cs2]| |] eqn:Eq; cbn [res_bind fst snd] in E; try discriminate.
    injection E as <- <-. destruct (serve_segments_ok _ _ _ _ _ _ _ Es) as (Hid1 & Hok1 & Hwf1).
    destruct (IH _ _ _ Eq) as (Hid2 & Hok2 & Hwf2).
    split; [by rewrite map_app, Hid1, Hid2|]. split; [|naive_solver].
    apply Forall_app. split; [|done]. eapply Forall_impl; [exact Hok1|naive_solver].
Qed.

Lemma serve_segments_not_fuel d id w pos segs : serve_segments d id w pos segs <> OutOfFuel.
Proof.
  revert d pos. induction segs as [|seg rest IH]; intros d pos; [discriminate|].
  rewrite serve_segments_cons. apply res_bind_not_fuel; [apply sbd_transfer_not_out_of_fuel|].
  intros p. apply res_bind_not_fuel; [apply IH|discriminate].
Qed.

Lemma serve_queue_not_fuel d q : serve_queue d q <> OutOfFuel.
Proof.
  revert d. induction q as [|r q IH]; intros d; [discriminate|]. cbn [serve_queue].
  apply res_bind_not_fuel; [apply serve_segments_not_fuel|].
  intros p. apply res_bind_not_fuel; [apply IH|discriminate].
Qed.

Lemma blk_end_request_cur_drv s h e b more s2 h2 :
  blk_end_request_cur s h e b = (more, s2, h2) -> drv s2 = drv s.
Proof.
  unfold blk_end_request_cur. destruct (rq_segs (h_req h)) as [|seg [|seg2 rest]];
    intros [= <- <- <-]; done.
Qed.

Lemma blk_fetch_request_drv s next s3 : blk_fetch_request s = (next, s3) -> drv s3 = drv s.
Proof. unfold blk_fetch_request. destruct (queue s); intros [= <- <-]; done. Qed.

End LoopFacts.

(** ** Properties of [sbd_request] *)

Section DispatchProps.
Context `{BlockCipher}.

(** C1: A request that is not a file-system request wedges the dispatcher:
    it is completed with [-EIO] and freed, but the loop [continue]s without
    fetching the next request and reads the freed request's [cmd_type]
    again (use after free), so no later request of the queue is served. *)
Theorem sbd_request_non_fs_use_after_free s r q fuel :
  queue s = r :: q -> rq_cmd r <> REQ_TYPE_FS -> (2 <= fuel)%nat ->
  sbd_request fuel s = Fault UseAfterFree.
Proof.
  intros Hq Hc Hf. destruct fuel as [|[|fuel]]; [lia|lia|].
  unfold sbd_request, blk_fetch_request. rewrite Hq. cbn [request_loop h_live negb h_req].
  rewrite bool_decide_eq_false_2 by done. reflexivity.
Qed.

(** C7: FIFO service.  On a queue of file-system requests, with enough
    fuel, [sbd_request] computes exactly the reference [serve_queue]: the
    requests served one after the other in queue order, each segment
    transferred by [sbd_transfer] at the request's advancing position, the
    queue drained and one completion appended per segment, in order; the
    first fault of a transfer is the fault of the whole run.  When the
    reference succeeds, the completions name the requests in queue order,
    each once per segment. *)
Theorem sbd_request_fifo_completions s fuel :
  Forall fs_request (queue s) -> (total_segments (queue s) < fuel)%nat ->
  sbd_request fuel s =
    (let? t := serve_queue (drv s) (queue s) in Ok (mk_sys (fst t) [] (completed s ++ snd t))) /\
  forall d cs, serve_queue (drv s) (queue s) = Ok (d, cs) ->
    map completion_id cs = concat (map (fun r => repeat (rq_id r) (length (rq_segs r))) (queue s)).
Proof.
  intros Hfs Hf. split; [by apply sbd_request_spec|].
  intros d cs Eq. by apply serve_queue_ok in Eq as [-> _].
Qed.


(** C12: Every completion the dispatcher reports for file-system requests
    is a success ([__blk_end_request_cur(req, 0)]), including those whose
    transfer was skipped as beyond the end of the device. *)
Theorem sbd_request_reports_success s fuel s' :
  Forall fs_request (queue s) -> (total_segments (queue s) < fuel)%nat ->
  sbd_request fuel s = Ok s' ->
  Forall (fun c => exists id n b, c = EndCur id 0 n b) (drop (length (completed s)) (completed s')).
Proof.
  intros Hfs Hf E. rewrite sbd_request_spec in E by done.
  destruct (serve_queue (drv s) (queue s)) as [[d cs]| |] eqn:Eq; cbn [res_bind] in E; try discriminate.
  injection E as <-. cbn [completed snd]. rewrite drop_app_length.
  by apply serve_queue_ok in Eq as [_ [? _]].
Qed.

(** C15: On a queue of file-system requests the dispatcher terminates: one
    loop iteration per segment and one more are enough. *)
Theorem sbd_request_terminates s :
  Forall fs_request (queue s) -> sbd_request (dispatch_fuel (queue s)) s <> OutOfFuel.
Proof.
  intros Hfs. unfold dispatch_fuel. rewrite sbd_request_spec by (done || lia).
  apply res_bind_not_fuel; [apply serve_queue_not_fuel|discriminate].
Qed.


(** C10: Sector units: [blk_rq_pos] and [blk_rq_cur_sectors] count
    512-byte kernel sectors, but [sbd_transfer] multiplies them by
    [logical_block_size]; with a 1024-byte block size a one-segment write
    of two kernel sectors (a 1024-byte buffer) copies 2048 bytes and reads
    past the end of the request's buffer, with or without a key. *)
Theorem sbd_request_sector_unit_overrun s id buf q fuel :
  logical_block_size (drv s) = 1024 -> drv_wf (drv s) ->
  2048 <= dev_size (device (drv s)) ->
  Z.of_nat (length buf) = 2 * KERNEL_SECTOR_SIZE ->
  queue s = mk_req id REQ_TYPE_FS true 0 [mk_seg 2 buf] :: q -> (1 <= fuel)%nat ->
  sbd_request fuel s = Fault OobBuffer.
Proof.
  intros Hl Hwf Hs Hb Hq Hf. destruct fuel as [|fuel]; [lia|].
  unfold sbd_request, blk_fetch_request. rewrite Hq. cbn [request_loop h_live negb h_req rq_cmd].
  rewrite bool_decide_eq_true_2 by done. cbn [negb cur_segment rq_segs seg_nsect seg_buffer rq_pos rq_write drv].
  assert (Hr : in_range (drv s) 0 2) by (unfold in_range; rewrite Hl; lia).
  destruct (transfer_offsets _ 0 2 Hwf Hr) as (E1 & E2 & E3 & E4).
  destruct (prologue_device (drv s)) as (Pd & Pk & Pl). unfold KERNEL_SECTOR_SIZE in Hb.
  unfold_transfer. rewrite E1, E2, E3, E4, Pd, Hl. rewrite (proj2 (Z.ltb_ge _ _)) by lia.
  destruct (negb _).
  - change (2 * 1024) with 2048. change (0 * 1024) with 0. unfold loop_fuel. change (S (Z.to_nat 2048)) with (64 + 1985)%nat.
    pose proof Hwf as (_ & _ & Hlen & _).
    rewrite xfer_blocks_prefix; [|apply length_encrypt_block|lia|lia|lia|lia|lia|lia].
    cbn [xfer_blocks]. change (0 + 16 * Z.of_nat 64 <? 2048) with true. cbv iota.
    rewrite (proj2 (mem_load_None _ _ _)); [done|]. unfold AES_BLOCK_SIZE. lia.
  - unfold memcpy. rewrite (proj2 (mem_load_None _ _ _)); [done|]. lia.
Qed.

End DispatchProps.

(** ** Concrete queues for the witnesses *)

Definition example_sys : sys :=
  mk_sys example_state
    [mk_req 1 REQ_TYPE_FS true 1 [mk_seg 1 (repeat Byte.x42 512)];
     mk_req 2 REQ_TYPE_FS false 1 [mk_seg 1 (repeat Byte.x00 512)];
     mk_req 3 REQ_TYPE_FS true 4 [mk_seg 1 (repeat Byte.x43 512)]] [].

Definition example_run : sys :=
  match sbd_request 4 example_sys with Ok s => s | _ => example_sys end.

Lemma example_sys_fs : Forall fs_request (queue example_sys).
Proof. repeat constructor; discriminate. Qed.

Lemma sbd_request_non_fs_use_after_free_witness :
  sbd_request 2 (mk_sys example_state [mk_req 7 REQ_TYPE_SPECIAL false 0 []] []) = Fault UseAfterFree.
Proof. eapply sbd_request_non_fs_use_after_free; [reflexivity|discriminate|lia]. Defined.

Lemma sbd_request_fifo_completions_witness :
  sbd_request 4 example_sys =
    (let? t := serve_queue (drv example_sys) (queue example_sys) in
     Ok (mk_sys (fst t) [] (completed example_sys ++ snd t))) /\
  forall d cs, serve_queue (drv example_sys) (queue example_sys) = Ok (d, cs) ->
    map completion_id cs = concat (map (fun r => repeat (rq_id r) (length (rq_segs r))) (queue example_sys)).
Proof. apply sbd_request_fifo_completions; [apply example_sys_fs|vm_compute; lia]. Defined.
Lemma sbd_request_reports_success_witness :
  Forall (fun c => exists id n b, c = EndCur id 0 n b)
    (drop (length (completed example_sys)) (completed example_run)).
Proof.
  apply (sbd_request_reports_success example_sys 4 example_run);
    [apply example_sys_fs|vm_compute; lia|vm_compute; reflexivity].
Defined.

Lemma sbd_request_terminates_witness :
  sbd_request (dispatch_fuel (queue example_sys)) example_sys <> OutOfFuel.
Proof. apply sbd_request_terminates. apply example_sys_fs. Defined.

Definition example_state_1024 : drv_state :=
  mk_drv 1024 keystore_init crypto_alloc_cipher_aes (mk_device 4096 (repeat Byte.x00 4096)) [].

Lemma sbd_request_sector_unit_overrun_witness :
  sbd_request 1 (mk_sys example_state_1024
                   [mk_req 1 REQ_TYPE_FS true 0 [mk_seg 2 (repeat Byte.x42 1024)]] []) = Fault OobBuffer.
Proof.
  apply (sbd_request_sector_unit_overrun _ 1 (repeat Byte.x42 1024) []);
    [reflexivity|apply (proj1 (bool_decide_eq_true _)); vm_compute; reflexivity
    |vm_compute; discriminate|reflexivity|reflexivity|lia].
Defined.

End Dispatcher.
