(* ===== verification/Geometry.v ===== *)
(** * Geometry: the fake disk geometry of [sbd_getgeo]

    [sbd_getgeo] (ramdisk.c, lines 185-195) answers the [HDIO_GETGEO]
    ioctl with a made-up geometry: four heads, sixteen sectors per track,
    and a cylinder count computed from [Device.size] with a mask and a
    shift.  The model keeps every C conversion of that computation: the
    [int] division [logical_block_size / KERNEL_SECTOR_SIZE], the
    multiplication in [unsigned long], the conversion to [long], the
    [& ~0x3f] and [>> 6] on a signed [long], and the truncation to the
    [unsigned short] field [hd_geometry.cylinders].

    Theorems: the mask-and-shift is floor division by 64; the geometry
    announces 512 times the capacity of the disk (the computation
    multiplies a byte count, not a sector count); the 16-bit cylinder
    field wraps to zero for large block sizes; and a block size below 512
    gives no cylinders at all. *)

From stdpp Require Import base list.
From Stdlib Require Import ZArith Lia.
From S2P Require Import Prelude.
From S2P Require Import Cipher.
From S2P Require Import KeyStore.
From S2P Require Import Transfer.
From S2P Require Import Dispatcher.

Open Scope Z_scope.

Module Geometry.
Import KeyStore Transfer Dispatcher.

(** ** C integer conversions used by [sbd_getgeo] *)

(** Conversion of an [unsigned long] to [long] (two's complement on the
    kernels the driver targets). *)
Definition to_long (z : Z) : Z :=
  if z <? 2 ^ 63 then z else z - 2 ^ 64.

(** Conversion to [unsigned short], the type of [hd_geometry.cylinders]. *)
Definition to_ushort (z : Z) : Z := z mod 2 ^ 16.

(** C division on [int]: truncation toward zero. *)
Definition c_div (a b : Z) : Z := Z.quot a b.

(** [struct hd_geometry] (linux/hdreg.h). *)
Record hd_geometry := mk_geo {
  heads : Z;       (** [unsigned char] *)
  sectors : Z;     (** [unsigned char] *)
  cylinders : Z;   (** [unsigned short] *)
  start : Z        (** [unsigned long] *)
}.

(** ** [sbd_getgeo] *)

(** [size = Device.size * (logical_block_size / KERNEL_SECTOR_SIZE)] with
    the [int] quotient converted to [unsigned long] for the product and the
    product stored in a [long]. *)
Definition geo_size (st : drv_state) : Z :=
  to_long (ulong (dev_size (device st) *
                  ulong (c_div (logical_block_size st) KERNEL_SECTOR_SIZE))).

(** The whole function: it fills [*geo] and returns 0. *)
Definition sbd_getgeo (st : drv_state) : Z * hd_geometry :=
  let size := geo_size st in
  (0, mk_geo 4 16 (to_ushort (Z.shiftr (Z.land size (Z.lnot 63)) 6)) 0).

(** The capacity in 512-byte sectors a partitioning tool derives from a
    geometry. *)
Definition geo_capacity (g : hd_geometry) : Z :=
  cylinders g * heads g * sectors g.

(** ** Arithmetic facts *)

(** Clearing the low six bits and shifting them out is shifting them out. *)
Lemma land_lnot63_shiftr x :
  Z.shiftr (Z.land x (Z.lnot 63)) 6 = Z.shiftr x 6.
Proof.
  change 63 with (Z.ones 6).
  rewrite <- Z.ldiff_land, Z.ldiff_ones_r by lia.
  rewrite Z.shiftr_shiftl_l by lia. now rewrite Z.sub_diag, Z.shiftl_0_r.
Qed.

Lemma to_long_small z : 0 <= z < 2 ^ 63 -> to_long z = z.
Proof. intros Hz. unfold to_long. now rewrite (proj2 (Z.ltb_lt _ _)) by lia. Qed.

Lemma c_div_nonneg a b : 0 <= a -> 0 < b -> c_div a b = a / b.
Proof. intros. unfold c_div. now apply Z.quot_div_nonneg. Qed.

Lemma c_div_small a b : 0 <= a < b -> c_div a b = 0.
Proof. intros. unfold c_div. now apply Z.quot_small. Qed.

(** [geo_size] without wrap-around: the byte count times the quotient. *)
Lemma geo_size_exact st :
  0 <= dev_size (device st) -> 0 <= logical_block_size st <= INT_MAX ->
  dev_size (device st) * (logical_block_size st / 512) < 2 ^ 63 ->
  geo_size st = dev_size (device st) * (logical_block_size st / 512).
Proof.
  intros Hs Hl Hb. unfold geo_size, KERNEL_SECTOR_SIZE, INT_MAX in *.
  rewrite c_div_nonneg by lia.
  assert (0 <= logical_block_size st / 512) by (apply Z.div_pos; lia).
  assert (logical_block_size st / 512 <= logical_block_size st) by
    (apply Z.div_le_upper_bound; lia).
  unfold ulong, ULONG_MODULUS.
  rewrite (Z.mod_small (logical_block_size st / 512)) by lia.
  rewrite Z.mod_small by nia. apply to_long_small; nia.
Qed.

(** The whole result of [sbd_getgeo]: the mask [& ~0x3f] followed by
    [>> 6] is exactly a floor division by 64, on negative sizes too. *)
Lemma getgeo_eq st :
  sbd_getgeo st = (0, mk_geo 4 16 ((geo_size st / 64) mod 2 ^ 16) 0).
Proof.
  unfold sbd_getgeo, to_ushort.
  now rewrite land_lnot63_shiftr, Z.shiftr_div_pow2 by lia.
Qed.

Lemma getgeo_cylinders st :
  cylinders (snd (sbd_getgeo st)) = (geo_size st / 64) mod 2 ^ 16.
Proof. now rewrite getgeo_eq. Qed.

(** ** Properties of [sbd_getgeo] *)

Section GeometryProps.

(** C29: the geometry overstates the disk.  With a block size that is a
    multiple of 512 and no 16-bit wrap of the cylinder count, the capacity
    cylinders * heads * sectors announced to partitioning tools is
    [512 * (logical_block_size / 512)] times the disk's real capacity in
    512-byte sectors: [sbd_getgeo] multiplies the byte count [Device.size]
    where the sector count was meant. *)
Theorem sbd_getgeo_overstates_capacity st nsect :
  0 <= nsect -> 0 < logical_block_size st <= INT_MAX ->
  logical_block_size st mod 512 = 0 ->
  dev_size (device st) = nsect * logical_block_size st ->
  dev_size (device st) * (logical_block_size st / 512) < 64 * 2 ^ 16 ->
  geo_capacity (snd (sbd_getgeo st)) =
    512 * (logical_block_size st / 512) * (dev_size (device st) / KERNEL_SECTOR_SIZE).
Proof.
  intros Hn Hl Hm Hd Hb. unfold geo_capacity. rewrite getgeo_eq. cbn.
  rewrite geo_size_exact by (unfold INT_MAX in *; nia).
  unfold KERNEL_SECTOR_SIZE.
  assert (Hq : logical_block_size st = 512 * (logical_block_size st / 512))
    by (apply Z.div_exact; lia).
  rewrite Hd in *.
  set (m := logical_block_size st / 512) in *. rewrite Hq in *.
  rewrite Z.mod_small by (split; [apply Z.div_pos|apply Z.div_lt_upper_bound]; nia).
  replace (nsect * (512 * m) * m) with ((nsect * 8 * m * m) * 64) by ring.
  replace (nsect * (512 * m)) with ((nsect * m) * 512) by ring.
  rewrite !Z.div_mul by lia. ring.
Qed.

(** C30: the 16-bit cylinder field wraps.  With 4096-byte blocks and a
    disk of a multiple of 128 blocks (the default [nsectors = 1024]
    included), the size computed by [sbd_getgeo] is a multiple of 2^22 and
    the reported cylinder count is 0. *)
Theorem sbd_getgeo_cylinders_wrap st j :
  0 <= j -> logical_block_size st = 4096 ->
  dev_size (device st) = 128 * j * 4096 ->
  dev_size (device st) * 8 < 2 ^ 63 ->
  cylinders (snd (sbd_getgeo st)) = 0.
Proof.
  intros Hj Hl Hd Hb. rewrite getgeo_cylinders, geo_size_exact;
    rewrite ?Hl in *; change (4096 / 512) with 8 in *; unfold INT_MAX; try lia.
  rewrite Hd.
  replace (128 * j * 4096 * 8) with (j * 2 ^ 16 * 64) by ring.
  rewrite Z.div_mul by lia. now rewrite Z.mod_mul by lia.
Qed.

(** A block size below [KERNEL_SECTOR_SIZE] makes the [int] quotient
    [logical_block_size / KERNEL_SECTOR_SIZE] zero, so the geometry has no
    cylinders whatever the size of the disk. *)
Theorem sbd_getgeo_small_block st :
  0 <= logical_block_size st < KERNEL_SECTOR_SIZE ->
  cylinders (snd (sbd_getgeo st)) = 0.
Proof.
  intros Hl. rewrite getgeo_cylinders. unfold geo_size.
  now rewrite c_div_small, Z.mul_0_r by exact Hl.
Qed.

End GeometryProps.

(** ** Witnesses *)

(** A driver state with the given block size and disk size; the geometry
    reads neither the key nor the data. *)
Definition geo_state (lbs size : Z) : drv_state :=
  mk_drv lbs keystore_init crypto_alloc_cipher_aes (mk_device size []) [].

Lemma sbd_getgeo_overstates_capacity_witness :
  geo_capacity (snd (sbd_getgeo (geo_state 512 (1024 * 512)))) = 512 * 1024.
Proof.
  rewrite (sbd_getgeo_overstates_capacity (geo_state 512 (1024 * 512)) 1024);
    cbn; unfold INT_MAX, KERNEL_SECTOR_SIZE; first [reflexivity | lia].
Defined.

Lemma sbd_getgeo_cylinders_wrap_witness :
  cylinders (snd (sbd_getgeo (geo_state 4096 (1024 * 4096)))) = 0.
Proof.
  apply (sbd_getgeo_cylinders_wrap _ 8); cbn; lia.
Defined.

Lemma sbd_getgeo_small_block_witness :
  cylinders (snd (sbd_getgeo (geo_state 256 (1024 * 256)))) = 0.
Proof.
  apply sbd_getgeo_small_block. cbn. unfold KERNEL_SECTOR_SIZE. lia.
Defined.

End Geometry.
