(* ===== verification/Lifecycle.v ===== *)
(** * Lifecycle: [sbd_init] and [sbd_exit] as a resource ledger

    [sbd_init] (ramdisk.c, lines 205-279) acquires, in order, the AES
    transform, the device buffer (twice: the set-up block is duplicated),
    the request queue, a major number, a gendisk that it publishes with
    [add_disk], the root device and its sysfs [key] attribute; its error
    paths jump to the labels [out_unregister] and [out].  [sbd_exit]
    (lines 281-293) releases what a successful [sbd_init] acquired.

    The kernel is modelled by the ledger of the resources the module holds
    ([live]) and by an environment [kenv] that decides the outcome of every
    call that can fail.  The module's globals ([major_num], [Device],
    [Queue], [tfm]) are a record; each kernel call is an action of a small
    state-and-fault monad [M] over both.  Releasing a resource that is not
    held is a [Fault DoubleFree]; the [int] product
    [nsectors * logical_block_size] is a [Fault SignedOverflow] when it
    leaves the [int] range.

    Theorems: a successful load followed by an unload leaks the first
    device buffer (and, with a static [major_num], the major number); every
    failure after the transform leaves resources held, against the spec's
    rule that a failed initialisation releases what it acquired; a failure
    of [device_register] leaves the disk published over a freed buffer;
    no path of [sbd_init] releases a resource twice; and the capacity given
    to the block layer counts [logical_block_size]-byte blocks as 512-byte
    sectors. *)

From stdpp Require Import base list decidable sets.
From Stdlib Require Import ZArith Lia Strings.String.
From S2P Require Import Prelude.
From S2P Require Import Cipher.
From S2P Require Import KeyStore.
From S2P Require Import Transfer.
From S2P Require Import Dispatcher.

Open Scope Z_scope.
Set Warnings "-clear-no-such-hyp".

Module Lifecycle.
Import Dispatcher.

(** ** Kernel resources and the module's globals *)

Inductive resource :=
  | RCipher            (** [crypto_alloc_cipher] *)
  | RVmalloc (id : nat) (** the [id]-th [vmalloc] area *)
  | RQueue             (** [blk_init_queue] *)
  | RMajor (m : Z)     (** [register_blkdev] *)
  | RGendisk           (** [alloc_disk] *)
  | RDiskLive          (** [add_disk]: the disk is visible and can be read *)
  | RRootDev           (** [device_register(&rd_root_dev)] *)
  | RKeyAttr.          (** [device_create_file(&rd_root_dev, &dev_attr_key)] *)

#[export] Instance resource_eq_decision : EqDecision resource.
Proof. solve_decision. Defined.

(** Boolean equality of resources, the test the ledger computes with. *)
Definition resource_eqb (r1 r2 : resource) : bool :=
  match r1, r2 with
  | RCipher, RCipher | RQueue, RQueue | RGendisk, RGendisk
  | RDiskLive, RDiskLive | RRootDev, RRootDev | RKeyAttr, RKeyAttr => true
  | RVmalloc i, RVmalloc j => Nat.eqb i j
  | RMajor m, RMajor n => Z.eqb m n
  | _, _ => false
  end.

Definition held (r : resource) (l : list resource) : bool :=
  existsb (resource_eqb r) l.

Inductive lmsg := MsgCipherFailed | MsgNoMajor.

(** The fields of [struct gendisk] that [sbd_init] sets. *)
Record gendisk := mk_gendisk {
  gd_major : Z;
  gd_first_minor : Z;
  gd_minors : Z;
  gd_disk_name : string;
  gd_capacity : Z;       (** [set_capacity], in 512-byte sectors *)
  gd_has_queue : bool
}.

Record globals := mk_globals {
  g_major_num : Z;             (** module parameter [major_num] *)
  g_logical_block_size : Z;    (** module parameter [logical_block_size] *)
  g_nsectors : Z;              (** module parameter [nsectors] *)
  g_tfm : bool;                (** [tfm] points to a transform *)
  g_size : Z;                  (** [Device.size] *)
  g_data : option nat;         (** [Device.data]: a [vmalloc] area or NULL *)
  g_gd : option gendisk;       (** [Device.gd] *)
  g_queue : option Z           (** [Queue] and its logical block size *)
}.

Record lstate := mk_lstate {
  glob : globals;
  live : list resource;  (** resources the module holds *)
  next_vm : nat;         (** number of [vmalloc] calls so far *)
  llog : list lmsg
}.

(** Outcomes of the kernel calls that can fail. *)
Record kenv := mk_kenv {
  k_cipher_ok : bool;
  k_cipher_errno : positive; (** [ERR_PTR(-errno)] of a failed allocation *)
  k_vmalloc_ok : nat -> bool; (** outcome of the [i]-th [vmalloc] *)
  k_queue_ok : bool;
  k_register_ok : bool;
  k_dynamic_major : positive; (** the major [register_blkdev(0, ...)] picks *)
  k_disk_ok : bool;
  k_devreg_ret : Z;
  k_createfile_ret : Z
}.

(** ** The monad of the lifecycle code *)

Definition M (A : Type) := lstate -> res (A * lstate).

Definition ret {A} (a : A) : M A := fun s => Ok (a, s).

Definition bind {A B} (m : M A) (k : A -> M B) : M B := fun s =>
  match m s with
  | Ok (a, s') => k a s'
  | Fault f => Fault f
  | OutOfFuel => OutOfFuel
  end.

Declare Scope lc_scope.
Delimit Scope lc_scope with lc.
Notation "'let*' x := m 'in' k" := (bind m (fun x => k))
  (at level 10, x name, m at level 100, k at level 200) : lc_scope.
Notation "m ;; k" := (bind m (fun _ => k)) (at level 100, right associativity) : lc_scope.
Open Scope lc_scope.

Definition fail {A} (f : fault) : M A := fun _ => Fault f.
Definition get_glob : M globals := fun s => Ok (glob s, s).
Definition set_glob (g : globals) : M unit :=
  fun s => Ok (tt, mk_lstate g (live s) (next_vm s) (llog s)).
Definition acquire (r : resource) : M unit :=
  fun s => Ok (tt, mk_lstate (glob s) (live s ++ [r]) (next_vm s) (llog s)).

Fixpoint remove_res (r : resource) (l : list resource) : list resource :=
  match l with
  | [] => []
  | x :: l' => if resource_eqb x r then l' else x :: remove_res r l'
  end.

(** Releasing a resource the module does not hold is a double free. *)
Definition release (r : resource) : M unit := fun s =>
  if held r (live s)
  then Ok (tt, mk_lstate (glob s) (remove_res r (live s)) (next_vm s) (llog s))
  else Fault DoubleFree.

Definition lprintk (m : lmsg) : M unit :=
  fun s => Ok (tt, mk_lstate (glob s) (live s) (next_vm s) (llog s ++ [m])).

Definition modify_glob (f : globals -> globals) : M unit :=
  let* g := get_glob in set_glob (f g).

Definition set_major_num (m : Z) (g : globals) : globals :=
  mk_globals m (g_logical_block_size g) (g_nsectors g) (g_tfm g) (g_size g)
    (g_data g) (g_gd g) (g_queue g).
Definition set_tfm_ptr (b : bool) (g : globals) : globals :=
  mk_globals (g_major_num g) (g_logical_block_size g) (g_nsectors g) b (g_size g)
    (g_data g) (g_gd g) (g_queue g).
Definition set_size (z : Z) (g : globals) : globals :=
  mk_globals (g_major_num g) (g_logical_block_size g) (g_nsectors g) (g_tfm g) z
    (g_data g) (g_gd g) (g_queue g).
Definition set_data (d : option nat) (g : globals) : globals :=
  mk_globals (g_major_num g) (g_logical_block_size g) (g_nsectors g) (g_tfm g)
    (g_size g) d (g_gd g) (g_queue g).
Definition set_gd (d : option gendisk) (g : globals) : globals :=
  mk_globals (g_major_num g) (g_logical_block_size g) (g_nsectors g) (g_tfm g)
    (g_size g) (g_data g) d (g_queue g).
Definition set_queue (q : option Z) (g : globals) : globals :=
  mk_globals (g_major_num g) (g_logical_block_size g) (g_nsectors g) (g_tfm g)
    (g_size g) (g_data g) (g_gd g) q.

(** C [int] multiplication: overflow is undefined behaviour. *)
Definition c_int_mul (a b : Z) : M Z :=
  if (- INT_MAX - 1 <=? a * b) && (a * b <=? INT_MAX) then ret (a * b)
  else fail SignedOverflow.

(** ** The kernel services the module calls *)

Definition EBUSY : Z := 16.

Section Kernel.
Variable env : kenv.

(** [crypto_alloc_cipher("aes", 0, 16)]: 0 stands for a valid pointer, a
    negative value for [ERR_PTR(err)] (so [IS_ERR] is [< 0] and [PTR_ERR]
    the value itself). *)
Definition crypto_alloc_cipher : M Z :=
  if k_cipher_ok env then acquire RCipher ;; ret 0 else ret (Zneg (k_cipher_errno env)).

Definition crypto_free_cipher : M unit := release RCipher.

(** [vmalloc(size)]: [NULL] for a zero size or when the kernel refuses. *)
Definition vmalloc (size : Z) : M (option nat) := fun s =>
  let i := next_vm s in
  let s' := mk_lstate (glob s) (live s) (S i) (llog s) in
  if (size =? 0) || negb (k_vmalloc_ok env i) then Ok (None, s')
  else (acquire (RVmalloc i) ;; ret (Some i)) s'.

(** [vfree(NULL)] does nothing. *)
Definition vfree (p : option nat) : M unit :=
  match p with None => ret tt | Some i => release (RVmalloc i) end.

(** A new queue has the kernel's default logical block size, 512. *)
Definition blk_init_queue : M bool :=
  if k_queue_ok env then acquire RQueue ;; modify_glob (set_queue (Some 512)) ;; ret true
  else ret false.

Definition blk_queue_logical_block_size (lbs : Z) : M unit :=
  modify_glob (set_queue (Some lbs)).

Definition blk_cleanup_queue : M unit := release RQueue.

(** [register_blkdev(major, name)]: a request for major 0 returns the
    major the kernel picks; a request for a given major returns 0. *)
Definition register_blkdev (major : Z) : M Z :=
  if negb (k_register_ok env) then ret (- EBUSY)
  else if major =? 0 then acquire (RMajor (Zpos (k_dynamic_major env))) ;; ret (Zpos (k_dynamic_major env))
  else acquire (RMajor major) ;; ret 0.

(** [unregister_blkdev] of a major that is not registered only warns. *)
Definition unregister_blkdev (major : Z) : M unit := fun s =>
  if held (RMajor major) (live s) then release (RMajor major) s else Ok (tt, s).

Definition alloc_disk : M bool :=
  if k_disk_ok env then acquire RGendisk ;; ret true else ret false.

Definition add_disk : M unit := acquire RDiskLive.
Definition del_gendisk : M unit := release RDiskLive.
Definition put_disk : M unit := release RGendisk.

Definition device_register : M Z :=
  if k_devreg_ret env <? 0 then ret (k_devreg_ret env)
  else acquire RRootDev ;; ret (k_devreg_ret env).

Definition device_unregister : M unit := release RRootDev.

Definition device_create_file : M Z :=
  if k_createfile_ret env <? 0 then ret (k_createfile_ret env)
  else acquire RKeyAttr ;; ret (k_createfile_ret env).

Definition device_remove_file : M unit := release RKeyAttr.

End Kernel.

(** ** The module's code *)

(** The module as loaded: the parameters set, every other global zero. *)
Definition module_load (major lbs nsect : Z) : lstate :=
  mk_lstate (mk_globals major lbs nsect false 0 None None None) [] 0 [].

Section ModuleCode.
Variable env : kenv.

(** Label [out] (lines 275-278). *)
Definition init_out : M Z :=
  let* g := get_glob in
  vfree (g_data g) ;;
  crypto_free_cipher ;;
  ret (- ENOMEM).

(** Label [out_unregister] (lines 273-274), falling through to [out]. *)
Definition init_out_unregister : M Z :=
  let* g := get_glob in
  unregister_blkdev (g_major_num g) ;;
  init_out.

(** [Device.size = nsectors * logical_block_size; spin_lock_init(...);
    Device.data = vmalloc(Device.size);] (lines 215-217, repeated at
    225-227; the [NULL] tests follow each): the [int] product is stored in the [unsigned long]. *)
Definition setup_device : M (option nat) :=
  let* g := get_glob in
  let* size := c_int_mul (g_nsectors g) (g_logical_block_size g) in
  modify_glob (set_size (ulong size)) ;;
  let* d := vmalloc env (ulong size) in
  modify_glob (set_data d) ;;
  ret d.

(** The gendisk as lines 250-256 fill it ([alloc_disk(16)] gives 16 minors). *)
Definition sbd_gendisk (g : globals) : gendisk :=
  mk_gendisk (g_major_num g) 0 16 "sbd0" (g_nsectors g) true.

Definition sbd_init : M Z :=
  let* t := crypto_alloc_cipher env in
  if t <? 0 then lprintk MsgCipherFailed ;; ret t else
  modify_glob (set_tfm_ptr true) ;;
  let* d := setup_device in
  match d with None => ret (- ENOMEM) | Some _ =>
  let* d := setup_device in
  match d with None => ret (- ENOMEM) | Some _ =>
  let* q := blk_init_queue env in
  if negb q then init_out else
  let* g := get_glob in
  blk_queue_logical_block_size (g_logical_block_size g) ;;
  let* m := register_blkdev env (g_major_num g) in
  modify_glob (set_major_num m) ;;
  if m <? 0 then lprintk MsgNoMajor ;; init_out else
  let* ok := alloc_disk env in
  if negb ok then init_out_unregister else
  let* g := get_glob in
  modify_glob (set_gd (Some (sbd_gendisk g))) ;;
  add_disk ;;
  let* r := device_register env in
  if r <? 0 then init_out_unregister else
  let* r := device_create_file env in
  if r <? 0 then device_unregister ;; init_out_unregister else
  ret 0
  end end.

End ModuleCode.

Definition sbd_exit : M unit :=
  let* g := get_glob in
  del_gendisk ;;
  put_disk ;;
  unregister_blkdev (g_major_num g) ;;
  blk_cleanup_queue ;;
  crypto_free_cipher ;;
  device_remove_file ;;
  device_unregister ;;
  vfree (g_data g).

(** Loading then unloading the module ([module_init], [module_exit],
    lines 294-295): [sbd_exit] runs only after a successful [sbd_init]. *)
Definition load_unload (env : kenv) : M Z :=
  let* r := sbd_init env in
  if r =? 0 then sbd_exit ;; ret r else ret r.

(** Every fallible kernel call succeeds. *)
Definition env_all_ok (env : kenv) : Prop :=
  k_cipher_ok env = true /\ k_vmalloc_ok env 0 = true /\ k_vmalloc_ok env 1 = true /\
  k_queue_ok env = true /\ k_register_ok env = true /\ k_disk_ok env = true /\
  k_devreg_ret env = 0 /\ k_createfile_ret env = 0.

(** ** Symbolic execution of the lifecycle code *)

(** Unfold the module code, the kernel services and the monad, leaving the
    tests on symbolic values and the [Z] arithmetic folded. *)
Ltac lc_unfold :=
  cbv beta iota zeta delta [load_unload sbd_init sbd_exit init_out
    init_out_unregister setup_device c_int_mul crypto_alloc_cipher
    crypto_free_cipher vmalloc vfree blk_init_queue
    blk_queue_logical_block_size blk_cleanup_queue register_blkdev
    unregister_blkdev alloc_disk add_disk del_gendisk put_disk
    device_register device_unregister device_create_file device_remove_file
    bind ret fail get_glob set_glob acquire release lprintk modify_glob
    set_major_num set_tfm_ptr set_size set_data set_gd set_queue module_load
    sbd_gendisk glob live next_vm llog g_major_num g_logical_block_size
    g_nsectors g_tfm g_size g_data g_gd g_queue remove_res app negb andb orb
    INT_MAX held existsb resource_eqb Nat.eqb].

(** Decide the first test the hypotheses settle. *)
Ltac lc_test :=
  match goal with
  | H : ?b = true |- context [?b] => rewrite H
  | H : ?b = false |- context [?b] => rewrite H
  | |- context [ulong ?z] => rewrite (ulong_small z) by (unfold ULONG_MODULUS; lia)
  | |- context [?a <? ?b] =>
      first [rewrite (proj2 (Z.ltb_lt a b)) by lia | rewrite (proj2 (Z.ltb_ge a b)) by lia]
  | |- context [?a <=? ?b] =>
      first [rewrite (proj2 (Z.leb_le a b)) by lia | rewrite (proj2 (Z.leb_gt a b)) by lia]
  | |- context [?a =? ?b] =>
      first [rewrite (proj2 (Z.eqb_eq a b)) by lia | rewrite (proj2 (Z.eqb_neq a b)) by lia]
  end.

Ltac lc_split := match goal with |- context [if ?b then _ else _] => destruct b eqn:? end.

(** Run the code along the path the hypotheses fix ... *)
Ltac lc_eval := repeat (lc_unfold; lc_test); lc_unfold.
(** ... or along every path, splitting on the tests they leave open. *)
Ltac lc_cases := repeat (lc_unfold; first [lc_test | lc_split]); lc_unfold.

Ltac env_ok_hyps H := destruct H as (?&?&?&?&?&?&?&?).

(** ** Properties of the lifecycle *)

Section LifecycleProps.
Variable env : kenv.

(** C21: loading and unloading the module leaks the first device buffer.
    When every kernel call succeeds, [sbd_init] returns 0 and [sbd_exit]
    releases everything except the area of the first
    [vmalloc(Device.size)], whose pointer the duplicated set-up block
    overwrote. *)
Theorem sbd_init_exit_leaks_buffer lbs nsect :
  env_all_ok env -> 0 < nsect * lbs <= INT_MAX ->
  exists s, load_unload env (module_load 0 lbs nsect) = Ok (0, s) /\
            live s = [RVmalloc 0].
Proof.
  intros Hok Hr. env_ok_hyps Hok. unfold INT_MAX in Hr.
  lc_eval. eexists; split; reflexivity.
Qed.

(** C25: with a static major number ([major_num > 0] as a module
    parameter) [register_blkdev] returns 0, which the code stores in
    [major_num]: the gendisk gets major 0 and [sbd_exit] unregisters major
    0, so the requested major stays registered after unloading, besides the
    leaked buffer. *)
Theorem sbd_init_static_major_leaks major lbs nsect :
  env_all_ok env -> 0 < major -> 0 < nsect * lbs <= INT_MAX ->
  exists s, load_unload env (module_load major lbs nsect) = Ok (0, s) /\
            option_map gd_major (g_gd (glob s)) = Some 0 /\
            live s = [RVmalloc 0; RMajor major].
Proof.
  intros Hok Hm Hr. env_ok_hyps Hok. unfold INT_MAX in Hr.
  lc_eval. eexists; repeat split; reflexivity.
Qed.

(** C26: a successful [sbd_init] holds every resource once (both device
    buffers included), points [Device.data] at the second buffer, sizes
    the device [nsectors * logical_block_size] bytes and sets the queue's
    block size, but gives the gendisk a capacity of [nsectors] 512-byte
    sectors: with a block size other than 512 the block layer sees a disk
    of [nsectors * 512] bytes. *)
Theorem sbd_init_success_state lbs nsect :
  env_all_ok env -> 0 < nsect * lbs <= INT_MAX ->
  exists s gd, sbd_init env (module_load 0 lbs nsect) = Ok (0, s) /\
    live s = [RCipher; RVmalloc 0; RVmalloc 1; RQueue; RMajor (Zpos (k_dynamic_major env));
              RGendisk; RDiskLive; RRootDev; RKeyAttr] /\
    g_data (glob s) = Some 1%nat /\ g_size (glob s) = nsect * lbs /\
    g_queue (glob s) = Some lbs /\ g_gd (glob s) = Some gd /\
    gd_capacity gd * KERNEL_SECTOR_SIZE = nsect * 512.
Proof.
  intros Hok Hr. env_ok_hyps Hok. unfold INT_MAX in Hr.
  lc_eval. eexists _, _; repeat split; cbn; try reflexivity; lia.
Qed.

(** C24: no path of [sbd_init] releases a resource it does not hold, and
    every path returns: whatever the kernel answers, the only fault is the
    signed overflow of [nsectors * logical_block_size]. *)
Theorem sbd_init_no_double_free major lbs nsect :
  - INT_MAX - 1 <= nsect * lbs <= INT_MAX ->
  exists r s, sbd_init env (module_load major lbs nsect) = Ok (r, s).
Proof.
  intros Hr. unfold INT_MAX in Hr. lc_cases.
  all: eexists _, _; reflexivity.
Qed.

(** C23: a failed initialisation does not release what it acquired, which
    the spec requires: once the transform is allocated, every failure
    returns with the transform or the first device buffer still held. *)
Theorem sbd_init_failure_leaks major lbs nsect r s :
  k_cipher_ok env = true ->
  sbd_init env (module_load major lbs nsect) = Ok (r, s) -> r <> 0 ->
  RCipher ∈ live s \/ RVmalloc 0 ∈ live s.
Proof.
  intros Hc. lc_cases.
  all: intros Hrun; try discriminate; injection Hrun as <- <-; cbn; intros; set_solver.
Qed.

(** C22: when [device_register] fails, [sbd_init] returns [-ENOMEM] with
    the disk still published ([add_disk] is not undone) and its request
    queue alive, while [Device.data] points to the buffer it has just
    freed: the block layer can still submit requests that read freed
    memory. *)
Theorem sbd_init_devreg_failure_dangling_disk lbs nsect :
  k_cipher_ok env = true -> k_vmalloc_ok env 0 = true -> k_vmalloc_ok env 1 = true ->
  k_queue_ok env = true -> k_register_ok env = true -> k_disk_ok env = true ->
  k_devreg_ret env < 0 -> 0 < nsect * lbs <= INT_MAX ->
  exists s, sbd_init env (module_load 0 lbs nsect) = Ok (- ENOMEM, s) /\
    RDiskLive ∈ live s /\ RQueue ∈ live s /\
    g_data (glob s) = Some 1%nat /\ RVmalloc 1 ∉ live s.
Proof.
  intros H1 H2 H3 H4 H5 H6 H7 Hr. unfold INT_MAX in Hr.
  lc_eval. eexists; repeat split; try reflexivity; cbn; set_solver.
Qed.

(** C27: a block device of more than [INT_MAX] bytes cannot be
    configured: [nsectors * logical_block_size] is computed in [int] and
    overflows (undefined behaviour) before it is stored in the
    [unsigned long] [Device.size], e.g. for [nsectors = 2^22] blocks of
    512 bytes. *)
Theorem sbd_init_size_overflow major lbs nsect :
  k_cipher_ok env = true -> INT_MAX < nsect * lbs ->
  sbd_init env (module_load major lbs nsect) = Fault SignedOverflow.
Proof.
  intros Hc Hr. unfold INT_MAX in Hr. lc_eval. reflexivity.
Qed.

End LifecycleProps.

(** ** Witnesses *)

(** A kernel that grants every request (major 253 picked dynamically), and
    one where [device_register] fails with -1. *)
Definition ok_env : kenv := mk_kenv true 2 (fun _ => true) true true 253 true 0 0.
Definition devreg_fail_env : kenv := mk_kenv true 2 (fun _ => true) true true 253 true (-1) 0.

Lemma ok_env_all_ok : env_all_ok ok_env.
Proof. repeat split. Qed.

Lemma sbd_init_exit_leaks_buffer_witness :
  exists s, load_unload ok_env (module_load 0 512 1024) = Ok (0, s) /\ live s = [RVmalloc 0].
Proof.
  apply (sbd_init_exit_leaks_buffer ok_env 512 1024 ok_env_all_ok). unfold INT_MAX. lia.
Defined.

Lemma sbd_init_static_major_leaks_witness :
  exists s, load_unload ok_env (module_load 7 512 1024) = Ok (0, s) /\
            option_map gd_major (g_gd (glob s)) = Some 0 /\ live s = [RVmalloc 0; RMajor 7].
Proof.
  apply (sbd_init_static_major_leaks ok_env 7 512 1024 ok_env_all_ok); unfold INT_MAX; lia.
Defined.

Lemma sbd_init_success_state_witness :
  exists s gd, sbd_init ok_env (module_load 0 1024 1024) = Ok (0, s) /\
    live s = [RCipher; RVmalloc 0; RVmalloc 1; RQueue; RMajor 253;
              RGendisk; RDiskLive; RRootDev; RKeyAttr] /\
    g_data (glob s) = Some 1%nat /\ g_size (glob s) = 1024 * 1024 /\
    g_queue (glob s) = Some 1024 /\ g_gd (glob s) = Some gd /\
    gd_capacity gd * KERNEL_SECTOR_SIZE = 1024 * 512.
Proof.
  apply (sbd_init_success_state ok_env 1024 1024 ok_env_all_ok). unfold INT_MAX. lia.
Defined.

Lemma sbd_init_no_double_free_witness :
  exists r s, sbd_init devreg_fail_env (module_load 0 512 1024) = Ok (r, s).
Proof.
  apply sbd_init_no_double_free. unfold INT_MAX. lia.
Defined.

Lemma sbd_init_failure_leaks_witness :
  exists r s, sbd_init devreg_fail_env (module_load 0 512 1024) = Ok (r, s) /\ r <> 0 /\
              (RCipher ∈ live s \/ RVmalloc 0 ∈ live s).
Proof.
  destruct (sbd_init devreg_fail_env (module_load 0 512 1024)) as [[r s]| |] eqn:E;
    try (vm_compute in E; discriminate).
  assert (Hr : r <> 0) by (vm_compute in E; injection E as <- _; lia).
  exists r, s. split; [reflexivity | split; [exact Hr |]].
  exact (sbd_init_failure_leaks devreg_fail_env 0 512 1024 r s eq_refl E Hr).
Defined.

Lemma sbd_init_devreg_failure_dangling_disk_witness :
  exists s, sbd_init devreg_fail_env (module_load 0 512 1024) = Ok (- ENOMEM, s) /\
    RDiskLive ∈ live s /\ RQueue ∈ live s /\
    g_data (glob s) = Some 1%nat /\ RVmalloc 1 ∉ live s.
Proof.
  apply sbd_init_devreg_failure_dangling_disk; try reflexivity; unfold INT_MAX; lia.
Defined.

Lemma sbd_init_size_overflow_witness :
  sbd_init ok_env (module_load 0 512 (2 ^ 22)) = Fault SignedOverflow.
Proof.
  apply sbd_init_size_overflow; [reflexivity | unfold INT_MAX; lia].
Defined.

End Lifecycle.
