(* ===== verification/Interleave.v ===== *)
(** * Interleave: the unlocked key store against a transfer

    [sbd_request] calls [sbd_transfer] with the queue lock [Device.lock]
    held, but the sysfs handler [key_store] (lines 78-89) takes no lock, so
    a write to the [key] attribute can run between two steps of a
    transfer.  The shared state is the pair [crypto_key] / [key_size].

    A transfer reads it twice: at lines 113-117 (the test [key_size == 0]
    and the [crypto_cipher_setkey] call) and at line 131 or 145 (the
    choice between the cipher loop and [memcpy]).  [key_store] writes it
    twice: [snprintf] into [crypto_key] (line 86), then [key_size = count]
    (line 87).  The model has one transfer thread and one writer thread;
    each thread is a program counter and its arguments, and [step] is the
    interleaving semantics: one step of either thread.  The first two reads
    of the transfer are one step: [key_size] never returns to 0, so a
    writer running between them changes nothing the test decided.

    [step_fun] is the executable one-step function (thread [Tx] or [Ks]
    moves), and [step] is derived from it, so every schedule [run]
    computes is a path of [step].

    Theorems: a serial schedule computes what the atomic handlers compute;
    the driver invariant holds in every reachable state (rule induction on
    [step]); the system terminates from every state ([sn step], by the
    number of steps each thread has left) and, from a state where the
    transfer's arguments are in range, every final state has both threads
    returned; and the race: a transfer that starts before the first key is
    installed and finishes after it encrypts with the transform's stale key,
    a result no serial order of the two handlers produces, against the
    spec's rule that key changes and transfers are serialized by the
    device lock; and a transfer between the writer's two stores installs
    the new bytes cut to the old length. *)

From stdpp Require Import base list decidable sets relations.
From Stdlib Require Import ZArith Lia Strings.Byte.
From S2P Require Import Prelude.
From S2P Require Import Cipher.
From S2P Require Import KeyStore.
From S2P Require Import Transfer.

Open Scope Z_scope.

Module Interleave.
Import KeyStore Transfer.

(** ** The two threads *)

(** Program counter of the transfer thread: before line 113, between the
    key installation and line 120, finished. *)
Inductive tpc := TStart | TKeyed | TDone.

Record tthread := mk_tthread {
  t_sector : Z; t_nsect : Z; t_buf : list byte; t_write : bool; t_pc : tpc
}.

(** Program counter of the sysfs writer: before line 79, between lines 86
    and 87, returned with a value. *)
Inductive kpc := KStart | KCopied | KDone (ret : Z).

Record kthread := mk_kthread { k_buf : list byte; k_count : Z; k_pc : kpc }.

Record world := mk_world { w_drv : drv_state; w_tx : tthread; w_ks : kthread }.

Inductive thread_id := Tx | Ks.

Definition set_keys (st : drv_state) (ks : keystore) : drv_state :=
  mk_drv (logical_block_size st) ks (tfm st) (device st) (klog st).

Definition set_tpc (t : tthread) (pc : tpc) (b : list byte) : tthread :=
  mk_tthread (t_sector t) (t_nsect t) b (t_write t) pc.

Definition set_kpc (k : kthread) (pc : kpc) : kthread :=
  mk_kthread (k_buf k) (k_count k) pc.

Section Steps.
Context `{BlockCipher}.

(** ** One step of one thread *)

Definition tx_step (w : world) : option world :=
  let t := w_tx w in
  match t_pc t with
  | TStart => Some (mk_world (transfer_prologue (w_drv w)) (set_tpc t TKeyed (t_buf t)) (w_ks w))
  | TKeyed =>
      match transfer_body (w_drv w) (t_sector t) (t_nsect t) (t_buf t) (t_write t) with
      | Ok (st', b') => Some (mk_world st' (set_tpc t TDone b') (w_ks w))
      | _ => None
      end
  | TDone => None
  end.

(** One step of a writer on the key state it sees: the length test, the
    [snprintf] store (line 86), the [key_size] store (line 87). *)
Definition kstep (ks : keystore) (k : kthread) : option (keystore * kthread) :=
  match k_pc k with
  | KStart =>
      if key_store_guard (k_count k) then Some (ks, set_kpc k (KDone (- EINVAL)))
      else Some (key_store_copy ks (k_buf k) (k_count k), set_kpc k KCopied)
  | KCopied => Some (key_store_set_size ks (k_count k), set_kpc k (KDone (k_count k)))
  | KDone _ => None
  end.

Definition ks_step (w : world) : option world :=
  match kstep (keys (w_drv w)) (w_ks w) with
  | Some (ks', k') => Some (mk_world (set_keys (w_drv w) ks') (w_tx w) k')
  | None => None
  end.

Definition step_fun (w : world) (i : thread_id) : option world :=
  match i with Tx => tx_step w | Ks => ks_step w end.

(** A schedule: the threads that take the successive steps. *)
Fixpoint run (w : world) (sched : list thread_id) : option world :=
  match sched with
  | [] => Some w
  | i :: sched' => match step_fun w i with Some w' => run w' sched' | None => None end
  end.

(** ** The interleaving semantics as a step relation *)

Inductive step : relation world :=
  | StepOf w i w' : step_fun w i = Some w' -> step w w'.

Definition reachable : relation world := rtc step.

End Steps.

(** ** Lemmas on the key-store steps *)

Lemma key_store_guard_ok count : key_store_guard count = negb (aes_keylen_ok count).
Proof.
  unfold key_store_guard, aes_keylen_ok.
  by destruct (count =? 16), (count =? 24), (count =? 32).
Qed.

Lemma key_store_steps ks buf count :
  key_store_guard count = false ->
  key_store ks buf count = (count, key_store_set_size (key_store_copy ks buf count) count).
Proof. intros Hg. unfold key_store. by rewrite Hg. Qed.

Lemma key_size_copy ks buf count : key_size (key_store_copy ks buf count) = key_size ks.
Proof. unfold key_store_copy. by destruct (snprintf_prec _ _ _ _). Qed.

(** The first write leaves the array a [key_store] leaves. *)
Lemma crypto_key_copy ks buf count :
  key_store_guard count = false ->
  crypto_key (key_store_copy ks buf count) = crypto_key (snd (key_store ks buf count)).
Proof. intros Hg. by rewrite key_store_steps. Qed.

Lemma key_store_copy_wf ks buf count :
  keystore_wf ks -> key_store_guard count = false -> keystore_wf (key_store_copy ks buf count).
Proof.
  intros (Hl & Hk & Hn) Hg. pose proof Hg as Hc.
  rewrite key_store_guard_ok in Hc. apply negb_false_iff in Hc.
  split; [|split].
  - rewrite crypto_key_copy by done. by apply length_key_after_store.
  - by rewrite key_size_copy.
  - rewrite crypto_key_copy, key_store_accept by done. apply splice_0_elem. set_solver.
Qed.

Lemma key_store_set_size_wf ks count :
  keystore_wf ks -> key_store_guard count = false -> keystore_wf (key_store_set_size ks count).
Proof.
  intros (Hl & _ & Hn) Hg. rewrite key_store_guard_ok in Hg. apply negb_false_iff in Hg.
  split; [done|]. split; [|done]. unfold keylen_allowed. cbn. by rewrite Hg, orb_true_r.
Qed.

Section StepFacts.
Context `{BlockCipher}.

Lemma set_keys_same st : set_keys st (keys st) = st.
Proof. by destruct st. Qed.

Lemma step_fun_step w i w' : step_fun w i = Some w' -> step w w'.
Proof. apply StepOf. Qed.

Lemma run_reachable w sched w' : run w sched = Some w' -> reachable w w'.
Proof.
  revert w. induction sched as [|i sched IH]; cbn; intros w Hr; [injection Hr as <-; apply rtc_refl|].
  destruct (step_fun w i) as [w1|] eqn:E; [|done].
  eapply rtc_l; [by eapply step_fun_step | by apply IH].
Qed.

Lemma run_app w s1 s2 :
  run w (s1 ++ s2) = match run w s1 with Some w' => run w' s2 | None => None end.
Proof.
  revert w. induction s1 as [|i s1 IH]; intros w; [done|]. cbn.
  destruct (step_fun w i); [apply IH|done].
Qed.

(** One step of each kind, as equations. *)
Lemma tx_step_start st t k :
  t_pc t = TStart ->
  tx_step (mk_world st t k) = Some (mk_world (transfer_prologue st) (set_tpc t TKeyed (t_buf t)) k).
Proof. intros Hp. unfold tx_step. cbn [w_tx w_drv w_ks]. by rewrite Hp. Qed.

Lemma tx_step_keyed st t k st' b' :
  t_pc t = TKeyed ->
  transfer_body st (t_sector t) (t_nsect t) (t_buf t) (t_write t) = Ok (st', b') ->
  tx_step (mk_world st t k) = Some (mk_world st' (set_tpc t TDone b') k).
Proof. intros Hp Hb. unfold tx_step. cbn [w_tx w_drv w_ks]. by rewrite Hp, Hb. Qed.

Lemma ks_step_copy st t k :
  k_pc k = KStart -> key_store_guard (k_count k) = false ->
  ks_step (mk_world st t k) =
    Some (mk_world (set_keys st (key_store_copy (keys st) (k_buf k) (k_count k))) t
                   (set_kpc k KCopied)).
Proof. intros Hp Hg. unfold ks_step, kstep. cbn [w_tx w_drv w_ks]. by rewrite Hp, Hg. Qed.

Lemma ks_step_set_size st t k :
  k_pc k = KCopied ->
  ks_step (mk_world st t k) =
    Some (mk_world (set_keys st (key_store_set_size (keys st) (k_count k))) t
                   (set_kpc k (KDone (k_count k)))).
Proof. intros Hp. unfold ks_step, kstep. cbn [w_tx w_drv w_ks]. by rewrite Hp. Qed.

Lemma ks_step_reject st t k :
  k_pc k = KStart -> key_store_guard (k_count k) = true ->
  ks_step (mk_world st t k) = Some (mk_world st t (set_kpc k (KDone (- EINVAL)))).
Proof. intros Hp Hg. unfold ks_step, kstep. cbn [w_tx w_drv w_ks]. by rewrite Hp, Hg, set_keys_same. Qed.

(** The five kinds of step, as an elimination principle for [step]. *)
Lemma step_elim (P : world -> world -> Prop) :
  (forall st t k, t_pc t = TStart ->
     P (mk_world st t k) (mk_world (transfer_prologue st) (set_tpc t TKeyed (t_buf t)) k)) ->
  (forall st t k st' b', t_pc t = TKeyed ->
     transfer_body st (t_sector t) (t_nsect t) (t_buf t) (t_write t) = Ok (st', b') ->
     P (mk_world st t k) (mk_world st' (set_tpc t TDone b') k)) ->
  (forall st t k, k_pc k = KStart -> key_store_guard (k_count k) = true ->
     P (mk_world st t k) (mk_world st t (set_kpc k (KDone (- EINVAL))))) ->
  (forall st t k, k_pc k = KStart -> key_store_guard (k_count k) = false ->
     P (mk_world st t k)
       (mk_world (set_keys st (key_store_copy (keys st) (k_buf k) (k_count k))) t
                 (set_kpc k KCopied))) ->
  (forall st t k, k_pc k = KCopied ->
     P (mk_world st t k)
       (mk_world (set_keys st (key_store_set_size (keys st) (k_count k))) t
                 (set_kpc k (KDone (k_count k))))) ->
  forall w w', step w w' -> P w w'.
Proof.
  intros H1 H2 H3 H4 H5 w w' [[st t k] i w'' E]. destruct i; cbn [step_fun] in E.
  - destruct (t_pc t) eqn:Hp.
    + rewrite tx_step_start in E by done. injection E as <-. by apply H1.
    + destruct (transfer_body st (t_sector t) (t_nsect t) (t_buf t) (t_write t))
        as [[st' b']| |] eqn:Eb;
        [rewrite (tx_step_keyed _ _ _ st' b') in E by done; injection E as <-; by apply H2
        | unfold tx_step in E; cbn [w_tx w_drv] in E; by rewrite Hp, Eb in E ..].
    + unfold tx_step in E. cbn [w_tx] in E. by rewrite Hp in E.
  - destruct (k_pc k) eqn:Hp; [destruct (key_store_guard (k_count k)) eqn:Hg| |].
    + rewrite ks_step_reject in E by done. injection E as <-. by apply H3.
    + rewrite ks_step_copy in E by done. injection E as <-. by apply H4.
    + rewrite ks_step_set_size in E by done. injection E as <-. by apply H5.
    + unfold ks_step, kstep in E. cbn [w_ks] in E. by rewrite Hp in E.
Qed.

(** A transfer that runs alone computes [sbd_transfer]. *)
Lemma run_serial_tx w :
  t_pc (w_tx w) = TStart ->
  run w [Tx; Tx] =
    match sbd_transfer (w_drv w) (t_sector (w_tx w)) (t_nsect (w_tx w)) (t_buf (w_tx w))
            (t_write (w_tx w)) with
    | Ok (st', b') => Some (mk_world st' (set_tpc (w_tx w) TDone b') (w_ks w))
    | _ => None
    end.
Proof.
  destruct w as [st [sec ns b wr pc] k]; cbn [w_tx t_pc]; intros ->.
  unfold run, step_fun, tx_step, sbd_transfer. cbn [w_tx w_drv w_ks t_pc set_tpc t_sector t_nsect t_buf t_write].
  by destruct (transfer_body _ _ _ _ _) as [[??]| |].
Qed.

(** A key-store write that runs alone computes [key_store]. *)
Lemma run_serial_ks w :
  k_pc (w_ks w) = KStart -> key_store_guard (k_count (w_ks w)) = false ->
  run w [Ks; Ks] =
    Some (mk_world (set_keys (w_drv w) (snd (key_store (keys (w_drv w)) (k_buf (w_ks w))
                                               (k_count (w_ks w)))))
                   (w_tx w)
                   (set_kpc (w_ks w) (KDone (fst (key_store (keys (w_drv w)) (k_buf (w_ks w))
                                                  (k_count (w_ks w))))))).
Proof.
  destruct w as [st t [kb kc pc]]; cbn; intros -> Hg. unfold ks_step, kstep; cbn.
  rewrite Hg, key_store_steps by done. done.
Qed.

(** ** The invariant of the interleaved system *)

(** The driver invariant, and a writer between its two writes has a count
    that passed the length test. *)
Definition world_inv (w : world) : Prop :=
  drv_wf (w_drv w) /\ (k_pc (w_ks w) = KCopied -> key_store_guard (k_count (w_ks w)) = false).

Lemma drv_wf_set_keys st ks : drv_wf st -> keystore_wf ks -> drv_wf (set_keys st ks).
Proof. intros (_ & Hl & Hd & Hs) Hks. exact (conj Hks (conj Hl (conj Hd Hs))). Qed.

Lemma step_inv w w' : step w w' -> world_inv w -> world_inv w'.
Proof.
  revert w w'. apply (step_elim (fun w w' => world_inv w -> world_inv w')); intros st t k;
    [intros Hp | intros st' b' Hp Hb | intros Hp Hg | intros Hp Hg | intros Hp];
    intros (Hwf & Hk); cbn [w_drv w_ks w_tx k_pc set_kpc k_count] in *;
    (split; [| first [exact Hk | intros _; done | intros [=]]]).
  - by apply prologue_wf.
  - by eapply transfer_body_wf.
  - done.
  - apply drv_wf_set_keys; [done|]. apply key_store_copy_wf; [apply Hwf|done].
  - apply drv_wf_set_keys; [done|]. apply key_store_set_size_wf; [apply Hwf|by apply Hk].
Qed.

Lemma reachable_inv w w' : world_inv w -> reachable w w' -> world_inv w'.
Proof.
  intros Hi Hr. induction Hr as [w|w1 w2 w3 Hs _ IH]; [done|].
  apply IH. by apply (step_inv w1).
Qed.

(** ** Termination and progress *)

Definition tx_left (pc : tpc) : nat := match pc with TStart => 2 | TKeyed => 1 | TDone => 0 end.
Definition ks_left (pc : kpc) : nat := match pc with KStart => 2 | KCopied => 1 | KDone _ => 0 end.

(** The steps the two threads still have to take. *)
Definition steps_left (w : world) : nat := tx_left (t_pc (w_tx w)) + ks_left (k_pc (w_ks w)).

Lemma step_steps_left w w' : step w w' -> (steps_left w' < steps_left w)%nat.
Proof.
  revert w w'. apply (step_elim (fun w w' => (steps_left w' < steps_left w)%nat));
    intros; unfold steps_left; cbn;
    repeat match goal with H : _ = _ |- _ => rewrite H end; cbn; lia.
Qed.

(** Every execution of the interleaved system is finite. *)
Lemma step_sn w : sn step w.
Proof. exact (sn_measure step steps_left step_steps_left w). Qed.

(** What the steps keep: the parameters of the transfer, its buffer until
    it is done, the block size and the size of the device. *)
Definition frame (w0 w : world) : Prop :=
  logical_block_size (w_drv w) = logical_block_size (w_drv w0) /\
  dev_size (device (w_drv w)) = dev_size (device (w_drv w0)) /\
  t_sector (w_tx w) = t_sector (w_tx w0) /\ t_nsect (w_tx w) = t_nsect (w_tx w0) /\
  t_write (w_tx w) = t_write (w_tx w0) /\
  (t_pc (w_tx w) <> TDone -> t_buf (w_tx w) = t_buf (w_tx w0)).

Lemma step_frame w0 w w' : step w w' -> frame w0 w -> frame w0 w'.
Proof.
  revert w w'. apply (step_elim (fun w w' => frame w0 w -> frame w0 w')); intros st t k;
    [intros Hp | intros st' b' Hp H1 | intros Hp Hg | intros Hp Hg | intros Hp];
    intros (Hl & Hd & Hsec & Hn & Hw & Hb); unfold frame; cbn [w_drv w_tx w_ks set_tpc t_sector t_nsect t_write t_buf t_pc set_keys
                    logical_block_size device] in *.
  - destruct (prologue_device st) as (Pd & _ & Pl). rewrite Pd, Pl.
    repeat split; try done. intros _. apply Hb. congruence.
  - destruct (transfer_body_frame _ _ _ _ _ _ _ H1) as (Fl & Fd).
    rewrite Fl, Fd. repeat split; try done.
  - by repeat split.
  - by repeat split.
  - by repeat split.
Qed.

Lemma reachable_frame_from w0 w w' : frame w0 w -> reachable w w' -> frame w0 w'.
Proof.
  intros Hf Hr. induction Hr as [w|w1 w2 w3 Hs _ IH]; [done|]. apply IH. by eapply step_frame.
Qed.

Lemma reachable_frame w0 w : reachable w0 w -> frame w0 w.
Proof. apply reachable_frame_from. by repeat split. Qed.

End StepFacts.

(** ** Properties of the interleaved system *)

Section InterleaveProps.
Context `{BlockCipher}.

Lemma prologue_nokey st : key_size (keys st) = 0 -> transfer_prologue st = printk st MsgNoKey.
Proof. intros Hk. unfold transfer_prologue. by rewrite Hk. Qed.

(** the driver invariant holds in every state the interleaving of a
    transfer with a write to the [key] attribute can reach: between the
    writer's two stores the array already holds the new bytes while
    [key_size] keeps its old, allowed value, so the invariant never breaks
    and [crypto_cipher_setkey] never sees an invalid length. *)
Theorem interleave_preserves_wf w w' :
  world_inv w -> reachable w w' -> world_inv w'.
Proof.
  apply reachable_inv.
Qed.

(** A transfer the driver can perform: in range, aligned, with a long
    enough buffer. *)
Definition tx_ready (w : world) : Prop :=
  in_range (w_drv w) (t_sector (w_tx w)) (t_nsect (w_tx w)) /\
  logical_block_size (w_drv w) mod AES_BLOCK_SIZE = 0 /\
  t_nsect (w_tx w) * logical_block_size (w_drv w) <= Z.of_nat (length (t_buf (w_tx w))).

(** liveness: neither handler can block the other.  From a
    well-formed state with a performable transfer, every interleaving is
    finite, and every interleaving that cannot be extended has finished
    both the transfer and the write to the attribute. *)
Theorem interleave_completes w0 :
  world_inv w0 -> tx_ready w0 ->
  sn step w0 /\
  forall w, reachable w0 w -> (forall w', ~ step w w') ->
    t_pc (w_tx w) = TDone /\ exists r, k_pc (w_ks w) = KDone r.
Proof.
  intros Hi (Hr & Hal & Hb). split; [apply step_sn|].
  intros w Hre Hirr. pose proof (reachable_inv _ _ Hi Hre) as [Hwf Hk].
  destruct (reachable_frame _ _ Hre) as (Fl & Fd & Fs & Fn & Fw & Fb).
  destruct w as [st t k]. cbn [w_drv w_tx w_ks] in *. split.
  - destruct (t_pc t) eqn:Hp; [exfalso | exfalso | done].
    + eapply Hirr, (StepOf _ Tx). exact (tx_step_start _ _ _ Hp).
    + destruct (transfer_body_ok st (t_sector t) (t_nsect t) (t_buf t) (t_write t))
        as (st' & b' & E).
      * done.
      * unfold in_range in *. by rewrite Fl, Fd, Fs, Fn.
      * by rewrite Fl.
      * rewrite Fb, Fl, Fn by congruence. exact Hb.
      * eapply Hirr, (StepOf _ Tx). exact (tx_step_keyed _ _ _ _ _ Hp E).
  - destruct (k_pc k) eqn:Hp; [exfalso | exfalso | eauto].
    + destruct (key_store_guard (k_count k)) eqn:Hg; eapply Hirr, (StepOf _ Ks);
        [exact (ks_step_reject _ _ _ Hp Hg) | exact (ks_step_copy _ _ _ Hp Hg)].
    + eapply Hirr, (StepOf _ Ks). exact (ks_step_set_size _ _ _ Hp).
Qed.

(** C16: the race on the unlocked key.  A write transfer that tests
    [key_size == 0] before the first key is stored and chooses its branch
    after the store ends encrypts the caller's blocks with the key the
    transform already held (never set: the key installation was skipped),
    while [key_size] and [crypto_key] now describe the new key. *)
Theorem interleave_stale_key_write st sector nsect buf kbuf count :
  drv_wf st -> key_size (keys st) = 0 -> in_range st sector nsect ->
  logical_block_size st mod AES_BLOCK_SIZE = 0 ->
  nsect * logical_block_size st <= Z.of_nat (length buf) ->
  key_store_guard count = false ->
  exists w',
    run (mk_world st (mk_tthread sector nsect buf true TStart) (mk_kthread kbuf count KStart))
        [Tx; Ks; Ks; Tx] = Some w' /\
    keys (w_drv w') = snd (key_store (keys st) kbuf count) /\
    dev_data (device (w_drv w')) =
      splice (dev_data (device st)) (Z.to_nat (sector * logical_block_size st))
        (ecb_blocks (encrypt_block (tfm_key (tfm st)))
           (Z.to_nat (nsect * logical_block_size st) / aes_block_nat)
           (take (Z.to_nat (nsect * logical_block_size st)) buf)).
Proof.
  intros Hwf H0 Hr Hal Hb Hg.
  set (ks' := snd (key_store (keys st) kbuf count)).
  set (st3 := set_keys (printk st MsgNoKey) ks').
  assert (Hks : keystore_wf ks').
  { unfold ks'. rewrite key_store_steps by done.
    apply key_store_set_size_wf; [apply key_store_copy_wf; [apply Hwf|]|]; done. }
  assert (Hwf3 : drv_wf st3).
  { apply drv_wf_set_keys; [|done]. rewrite <- prologue_nokey by done. by apply prologue_wf. }
  assert (Hk3 : key_size (keys st3) = count).
  { cbn. unfold ks'. by rewrite key_store_steps. }
  cbn [run step_fun]. rewrite tx_step_start, prologue_nokey by done.
  rewrite ks_step_copy by done. rewrite ks_step_set_size by done.
  erewrite tx_step_keyed; [| done |].
  2:{ cbn [set_tpc set_kpc t_sector t_nsect t_buf t_write k_buf k_count].
      replace (set_keys (set_keys (printk st MsgNoKey) _) _) with st3
        by (unfold st3, ks'; rewrite key_store_steps by done; reflexivity).
      apply transfer_body_write_ok; try done. }
  eexists; split; [reflexivity|]. split; [reflexivity|]. cbn [set_data device dev_data].
  change (logical_block_size st3) with (logical_block_size st).
  change (device st3) with (device st). change (tfm st3) with (tfm st).
  unfold encrypt_range_with. rewrite Hk3.
  assert (Hc : (count =? 0) = false).
  { rewrite key_store_guard_ok in Hg. apply negb_false_iff, aes_keylen_cases in Hg. lia. }
  rewrite Hc, length_take, Nat.min_l by lia. done.
Qed.

(** C17: the race between the two stores of [key_store].  A transfer that
    runs after [snprintf] has stored the new bytes but before [key_size] is
    updated installs the first [old key_size] bytes of the new key: for an
    old 16-byte key and a new 32-byte key it encrypts with AES-128 under
    half of the new key, neither the old key nor the new one. *)
Theorem interleave_mixed_key st sector nsect buf kbuf count :
  drv_wf st -> key_size (keys st) <> 0 -> in_range st sector nsect ->
  logical_block_size st mod AES_BLOCK_SIZE = 0 ->
  nsect * logical_block_size st <= Z.of_nat (length buf) ->
  key_store_guard count = false ->
  exists w',
    run (mk_world st (mk_tthread sector nsect buf true TStart) (mk_kthread kbuf count KStart))
        [Ks; Tx; Tx; Ks] = Some w' /\
    keys (w_drv w') = snd (key_store (keys st) kbuf count) /\
    tfm_key (tfm (w_drv w')) =
      take (Z.to_nat (key_size (keys st))) (crypto_key (snd (key_store (keys st) kbuf count))).
Proof.
  intros Hwf H0 Hr Hal Hb Hg.
  set (st1 := set_keys st (key_store_copy (keys st) kbuf count)).
  assert (Hwf1 : drv_wf st1).
  { apply drv_wf_set_keys; [done|]. apply key_store_copy_wf; [apply Hwf|done]. }
  assert (Hk1 : (key_size (keys st1) =? 0) = false).
  { change (keys st1) with (key_store_copy (keys st) kbuf count).
    rewrite key_size_copy. by apply Z.eqb_neq. }
  cbn [run step_fun]. rewrite ks_step_copy by done. rewrite tx_step_start by done.
  cbn [k_buf k_count t_buf]. fold st1. erewrite tx_step_keyed; [| done |].
  2:{ cbn [set_tpc t_sector t_nsect t_buf t_write].
      destruct (prologue_device st1) as (Pd & Pk & Pl).
      apply transfer_body_write_ok; rewrite ?Pl;
        [by apply prologue_wf | apply prologue_in_range; exact Hr | exact Hal | exact Hb]. }
  rewrite ks_step_set_size by done.
  eexists; split; [reflexivity|]. cbn [w_drv set_keys keys tfm set_data].
  split; [by rewrite (proj1 (proj2 (prologue_device st1))), key_store_steps|].
  rewrite prologue_key by (done || apply Hwf1).
  unfold installed_key. change (keys st1) with (key_store_copy (keys st) kbuf count).
  by rewrite key_size_copy, crypto_key_copy.
Qed.

End InterleaveProps.

(** ** Witnesses *)

(** A fresh driver: no key yet, the transform never keyed. *)
Definition fresh_state : drv_state :=
  mk_drv 512 keystore_init crypto_alloc_cipher_aes (mk_device 2048 (repeat Byte.x00 2048)) [].

(** A write of sector 1 racing with the store of a 16-byte key. *)
Definition race_world : world :=
  mk_world fresh_state (mk_tthread 1 1 (repeat Byte.x42 512) true TStart)
           (mk_kthread (repeat Byte.x41 16) 16 KStart).

Definition disk_after (sched : list thread_id) : option (list byte) :=
  (fun w => dev_data (device (w_drv w))) <$> run race_world sched.

(** the interleaving is not serializable: the disk after the racing
    schedule differs from the disk after either serial order of the two
    handlers, which the spec's single device lock would guarantee. *)
Theorem interleave_not_serializable :
  disk_after [Tx; Ks; Ks; Tx] <> disk_after [Tx; Tx; Ks; Ks] /\
  disk_after [Tx; Ks; Ks; Tx] <> disk_after [Ks; Ks; Tx; Tx].
Proof. split; vm_compute; congruence. Qed.

Lemma fresh_state_wf : drv_wf fresh_state.
Proof. apply (bool_decide_unpack _). vm_compute. reflexivity. Qed.

Lemma interleave_preserves_wf_witness :
  exists w', run race_world [Tx; Ks; Ks; Tx] = Some w' /\ world_inv w'.
Proof.
  destruct (run race_world [Tx; Ks; Ks; Tx]) as [w'|] eqn:E; [|vm_compute in E; discriminate].
  exists w'. split; [reflexivity|].
  apply (interleave_preserves_wf race_world w').
  - split; [exact fresh_state_wf | intros [=]].
  - by apply (run_reachable _ [Tx; Ks; Ks; Tx]).
Defined.

Lemma interleave_stale_key_write_witness :
  exists w',
    run race_world [Tx; Ks; Ks; Tx] = Some w' /\
    keys (w_drv w') = snd (key_store keystore_init (repeat Byte.x41 16) 16) /\
    dev_data (device (w_drv w')) =
      splice (repeat Byte.x00 2048) (Z.to_nat (1 * 512))
        (ecb_blocks (encrypt_block []) (Z.to_nat (1 * 512) / aes_block_nat)
           (take (Z.to_nat (1 * 512)) (repeat Byte.x42 512))).
Proof.
  apply (interleave_stale_key_write fresh_state 1 1 (repeat Byte.x42 512) (repeat Byte.x41 16) 16
           fresh_state_wf).
  all: first [reflexivity | unfold in_range; cbn; lia | rewrite repeat_length; lia].
Defined.

(** The example driver with a 16-byte key, and a writer of a 32-byte key. *)
Definition keyed_world : world :=
  mk_world example_state (mk_tthread 1 1 (repeat Byte.x42 512) true TStart)
           (mk_kthread (repeat Byte.x43 32) 32 KStart).

Lemma interleave_mixed_key_witness :
  exists w',
    run keyed_world [Ks; Tx; Tx; Ks] = Some w' /\
    keys (w_drv w') = snd (key_store (keys example_state) (repeat Byte.x43 32) 32) /\
    tfm_key (tfm (w_drv w')) =
      take (Z.to_nat (key_size (keys example_state)))
           (crypto_key (snd (key_store (keys example_state) (repeat Byte.x43 32) 32))).
Proof.
  apply (interleave_mixed_key example_state 1 1 (repeat Byte.x42 512) (repeat Byte.x43 32) 32
           example_state_wf).
  all: first [reflexivity | exact example_in_range | vm_compute; congruence
             | rewrite repeat_length; cbn; lia].
Defined.

Lemma interleave_completes_witness :
  sn step race_world /\
  forall w, reachable race_world w -> (forall w', ~ step w w') ->
    t_pc (w_tx w) = TDone /\ exists r, k_pc (w_ks w) = KDone r.
Proof.
  apply interleave_completes.
  - split; [exact fresh_state_wf | intros [=]].
  - unfold tx_ready, in_range. apply (bool_decide_unpack _). vm_compute. reflexivity.
Defined.

End Interleave.
