(* ===== verification/Writers.v ===== *)
(** * Writers: concurrent writes to the [key] attribute

    sysfs serializes the writes made through one open file, not the writes
    of different openers, and [key_store] (ramdisk.c lines 78-89) takes no
    lock: several writers can run [key_store] at once.  Each writer is the
    thread [kthread] of [Interleave], stepping with [kstep] (the length
    test, the [snprintf] store of line 86, the [key_size] store of line
    87); the state is the shared key store and the list of writers, and
    [wstep] lets any writer take its next step.

    Theorems: whatever the number of writers and the interleaving, the
    key-store invariant holds (rule induction on [wstep]); and, for any
    key store and any two NUL-free keys of accepted lengths, two writers
    that both report success can leave a key that neither of them wrote
    and that no serial order of the two writes produces. *)

From stdpp Require Import base list decidable sets relations.
From Stdlib Require Import ZArith Lia Strings.Byte.
From S2P Require Import Prelude.
From S2P Require Import Cipher.
From S2P Require Import KeyStore.
From S2P Require Import Transfer.
From S2P Require Import Interleave.

Open Scope Z_scope.

Module Writers.
Import KeyStore Transfer Interleave.

(** ** The writers' system *)

Record wstate := mk_wstate { w_keys : keystore; w_writers : list kthread }.

(** Writer [i] takes its next step; [None] when there is no such writer or
    it has returned. *)
Definition wstep_fun (s : wstate) (i : nat) : option wstate :=
  match w_writers s !! i with
  | Some k =>
      match kstep (w_keys s) k with
      | Some (ks', k') => Some (mk_wstate ks' (<[i := k']> (w_writers s)))
      | None => None
      end
  | None => None
  end.

Fixpoint wrun (s : wstate) (sched : list nat) : option wstate :=
  match sched with
  | [] => Some s
  | i :: sched' => match wstep_fun s i with Some s' => wrun s' sched' | None => None end
  end.

Inductive wstep : relation wstate :=
  | WStep ks ws i k ks' k' :
      ws !! i = Some k -> kstep ks k = Some (ks', k') ->
      wstep (mk_wstate ks ws) (mk_wstate ks' (<[i := k']> ws)).

(** Every writer between its two stores has a length that passed the
    test. *)
Definition pool_ok (ws : list kthread) : Prop :=
  forall i k, ws !! i = Some k -> k_pc k = KCopied -> key_store_guard (k_count k) = false.

(** The invariant: the key store's, and the writers'. *)
Definition writers_inv (s : wstate) : Prop :=
  keystore_wf (w_keys s) /\ pool_ok (w_writers s).

(** ** Lemmas *)

Lemma wstep_fun_wstep s i s' : wstep_fun s i = Some s' -> wstep s s'.
Proof.
  destruct s as [ks ws]. unfold wstep_fun; cbn.
  destruct (ws !! i) as [k|] eqn:Hi; [|done].
  destruct (kstep ks k) as [[ks' k']|] eqn:Hk; [|done].
  intros [= <-]. by econstructor.
Qed.

Lemma wrun_reachable s sched s' : wrun s sched = Some s' -> rtc wstep s s'.
Proof.
  revert s. induction sched as [|i sched IH]; cbn; intros s Hr; [injection Hr as <-; apply rtc_refl|].
  destruct (wstep_fun s i) as [s1|] eqn:E; [|done].
  eapply rtc_l; [by eapply wstep_fun_wstep | by apply IH].
Qed.

(** One step of one writer keeps the key-store invariant, and a writer
    enters its window between the stores only after passing the test. *)
Lemma kstep_inv ks k ks' k' :
  keystore_wf ks -> (k_pc k = KCopied -> key_store_guard (k_count k) = false) ->
  kstep ks k = Some (ks', k') ->
  keystore_wf ks' /\ (k_pc k' = KCopied -> key_store_guard (k_count k') = false).
Proof.
  intros Hwf Hk. unfold kstep.
  destruct (k_pc k) eqn:Hp; [destruct (key_store_guard (k_count k)) eqn:Hg| |];
    intros; simplify_eq; cbn; (split; [|intros; first [done | congruence]]).
  - done.
  - by apply key_store_copy_wf.
  - by apply key_store_set_size_wf, Hk.
Qed.

(** A step of writer [i] of a pool keeps the key store's invariant and
    the pool's. *)
Lemma pool_step ks ws i k ks' k' :
  keystore_wf ks -> pool_ok ws -> ws !! i = Some k -> kstep ks k = Some (ks', k') ->
  keystore_wf ks' /\ pool_ok (<[i := k']> ws).
Proof.
  intros Hwf Hw Hi Hk. destruct (kstep_inv ks k ks' k' Hwf (Hw i k Hi) Hk) as (Hwf' & Hk').
  split; [done|]. intros j kj Hj.
  destruct (decide (i = j)) as [<-|Hne].
  - rewrite list_lookup_insert_eq in Hj by (by eapply lookup_lt_Some). by injection Hj as <-.
  - rewrite list_lookup_insert_ne in Hj by done. by apply (Hw j).
Qed.

Lemma wstep_inv s s' : wstep s s' -> writers_inv s -> writers_inv s'.
Proof. intros [ks ws i k ks' k' Hi Hk] (Hwf & Hw). by eapply pool_step. Qed.

(** The array after an accepted first store of a NUL-free buffer that fits:
    its bytes, a NUL, the rest of the old array. *)
Lemma key_store_copy_fits ks buf count :
  key_store_guard count = false -> Byte.x00 ∉ buf -> (length buf <= Z.to_nat (Z.min count (KEY_SIZE - 1)))%nat ->
  crypto_key (key_store_copy ks buf count) = buf ++ Byte.x00 :: drop (S (length buf)) (crypto_key ks).
Proof.
  intros Hg Hn Hl. assert (Hc : aes_keylen_ok count = true)
    by (rewrite key_store_guard_ok in Hg; by apply negb_false_iff).
  rewrite crypto_key_copy, key_store_accept by done.
  cbn [snd crypto_key]. rewrite str_prec_whole by done. unfold splice. rewrite take_0, length_app. cbn [app length]. rewrite <- app_assoc. cbn. do 3 f_equal. lia.
Qed.

Lemma key_store_copy_lookup ks buf count i :
  key_store_guard count = false -> Byte.x00 ∉ buf ->
  (i < Z.to_nat (Z.min count (KEY_SIZE - 1)))%nat -> (i < length buf)%nat ->
  crypto_key (key_store_copy ks buf count) !! i = buf !! i.
Proof.
  intros Hg Hn Hi Hb. assert (Hc : aes_keylen_ok count = true)
    by (rewrite key_store_guard_ok in Hg; by apply negb_false_iff).
  rewrite crypto_key_copy, key_store_accept by done. cbn [snd crypto_key].
  rewrite str_prec_take by (intros Ht; apply Hn; by apply (subseteq_take (Z.to_nat (Z.min count (KEY_SIZE - 1))) buf)).
  unfold splice. rewrite take_0. cbn [app]. rewrite <- app_assoc, lookup_app_l by (rewrite length_take; lia).
  rewrite lookup_take. by case_decide.
Qed.

Lemma crypto_key_set_size ks c : crypto_key (key_store_set_size ks c) = crypto_key ks.
Proof. done. Qed.

Lemma key_size_set_size ks c : key_size (key_store_set_size ks c) = c.
Proof. done. Qed.

(** ** Properties *)

(** for any number of concurrent writers and any interleaving of
    their steps, the key store keeps its invariant (a 32-byte array with a
    NUL, [key_size] in {0,16,24,32}): the unlocked writes never make
    [crypto_cipher_setkey] see an invalid length nor [key_display] read past
    the array. *)
Theorem writers_preserve_wf s s' :
  writers_inv s -> rtc wstep s s' -> writers_inv s'.
Proof.
  intros Hi Hr. induction Hr as [s|s1 s2 s3 Hs _ IH]; [done|].
  apply IH. by apply (wstep_inv s1).
Qed.

(** Two writers on the key store [ks]: writer 0 stores the [c1] bytes
    [k1], writer 1 the [c2] bytes [k2]. *)
Definition pair_writers (ks : keystore) (k1 : list byte) (c1 : Z) (k2 : list byte) (c2 : Z) : wstate :=
  mk_wstate ks [mk_kthread k1 c1 KStart; mk_kthread k2 c2 KStart].

(** The key the transfers install, and what each writer returned, after
    the writers of [s0] have stepped in the order [sched]. *)
Definition installed_after (s0 : wstate) (sched : list nat) : option (list byte) :=
  (fun s => installed_key (w_keys s)) <$> wrun s0 sched.

Definition returns_after (s0 : wstate) (sched : list nat) : option (list kpc) :=
  (fun s => k_pc <$> w_writers s) <$> wrun s0 sched.

(** A 32-byte key of 0x42 and a 16-byte key of 0x43, on a fresh key store. *)
Definition two_writers : wstate :=
  pair_writers keystore_init (repeat Byte.x42 32) 32 (repeat Byte.x43 16) 16.

(** C18: a torn key.  Two writers on any well-formed key store, with
    NUL-free keys of accepted lengths [c2 < c1]: when they interleave their
    stores as copy 0, copy 1, size 1, size 0, both return success, yet the
    key the transfers install is the second writer's bytes and a NUL
    followed by the first writer's tail, under the first writer's length.
    It is neither written key, and neither serial order of the two writes
    installs it. *)
Theorem writers_torn_key ks k1 c1 k2 c2 :
  keystore_wf ks -> key_store_guard c1 = false -> key_store_guard c2 = false -> c2 < c1 ->
  Z.of_nat (length k1) = c1 -> Z.of_nat (length k2) = c2 -> Byte.x00 ∉ k1 -> Byte.x00 ∉ k2 ->
  returns_after (pair_writers ks k1 c1 k2 c2) [0; 1; 1; 0]%nat = Some [KDone c1; KDone c2] /\
  exists key, installed_after (pair_writers ks k1 c1 k2 c2) [0; 1; 1; 0]%nat = Some key /\
    key <> k1 /\ key <> k2 /\
    length key = Z.to_nat c1 /\ take (length k2) key = k2 /\ key !! length k2 = Some Byte.x00 /\
    installed_after (pair_writers ks k1 c1 k2 c2) [0; 0; 1; 1]%nat <> Some key /\
    installed_after (pair_writers ks k1 c1 k2 c2) [1; 1; 0; 0]%nat <> Some key.
Proof.
  intros Hwf G1 G2 Hc L1 L2 N1 N2.
  unfold installed_after, returns_after, pair_writers.
  cbn -[key_store_copy key_store_set_size key_store_guard]. rewrite ?G1, ?G2.
  cbn -[key_store_copy key_store_set_size key_store_guard]. rewrite ?G1, ?G2.
  cbn -[key_store_copy key_store_set_size key_store_guard].
  split; [done|]. eexists; split; [reflexivity|].
  unfold installed_key. rewrite !crypto_key_set_size, !key_size_set_size.
  pose proof G1 as C1. pose proof G2 as C2.
  rewrite key_store_guard_ok, negb_false_iff, aes_keylen_cases in C1, C2.
  assert (Hl1 : length (crypto_key (key_store_copy ks k1 c1)) = Z.to_nat KEY_SIZE)
    by apply (key_store_copy_wf ks k1 c1 Hwf G1).
  rewrite !(key_store_copy_fits _ k2 c2) by (done || unfold KEY_SIZE in *; lia).
  set (key := take (Z.to_nat c1) (k2 ++ Byte.x00 :: drop (S (length k2)) (crypto_key (key_store_copy ks k1 c1)))).
  assert (Hk0 : key !! length k2 = Some Byte.x00).
  { unfold key. rewrite lookup_take, decide_True by lia. by rewrite lookup_app_r, Nat.sub_diag by lia. }
  assert (Hlk : length key = Z.to_nat c1).
  { unfold key. rewrite length_take, length_app. cbn [length]. rewrite length_drop. unfold KEY_SIZE in *; lia. }
  assert (Hk2 : key <> k2) by (intros E; rewrite E in Hlk; lia).
  assert (Hk1 : k1 !! length k2 <> Some Byte.x00) by (intros E; apply N1; by eapply list_elem_of_lookup_2).
  split; [intros ->; congruence|]. split; [done|]. split; [done|]. split.
  { unfold key. rewrite take_take, Nat.min_l by lia. apply take_app_length. }
  split; [done|]. split.
  - rewrite take_app_length'; [congruence|lia].
  - intros E%(inj Some). apply Hk1. rewrite <- Hk0, <- E, lookup_take, decide_True by lia.
    symmetry. apply key_store_copy_lookup; (done || unfold KEY_SIZE in *; lia).
Qed.

Lemma keystore_init_writers_inv : writers_inv two_writers.
Proof.
  split; [apply keystore_init_wf|]. intros i k Hi Hp.
  destruct i as [|[|i]]; cbn in Hi; simplify_eq; done.
Qed.

Lemma writers_torn_key_witness :
  returns_after two_writers [0; 1; 1; 0]%nat = Some [KDone 32; KDone 16] /\
  exists key, installed_after two_writers [0; 1; 1; 0]%nat = Some key /\
    key <> repeat Byte.x42 32 /\ key <> repeat Byte.x43 16 /\
    length key = Z.to_nat 32 /\ take (length (repeat Byte.x43 16)) key = repeat Byte.x43 16 /\
    key !! length (repeat Byte.x43 16) = Some Byte.x00 /\
    installed_after two_writers [0; 0; 1; 1]%nat <> Some key /\
    installed_after two_writers [1; 1; 0; 0]%nat <> Some key.
Proof.
  apply (writers_torn_key keystore_init (repeat Byte.x42 32) 32 (repeat Byte.x43 16) 16);
    [apply keystore_init_wf | reflexivity | reflexivity | lia | reflexivity | reflexivity
    | apply (bool_decide_unpack _); vm_compute; reflexivity ..].
Defined.

Lemma writers_preserve_wf_witness :
  exists s', wrun two_writers [0; 1; 1; 0]%nat = Some s' /\ writers_inv s'.
Proof.
  destruct (wrun two_writers [0; 1; 1; 0]%nat) as [s'|] eqn:E; [|vm_compute in E; discriminate].
  exists s'. split; [reflexivity|].
  apply (writers_preserve_wf two_writers s' keystore_init_writers_inv).
  by apply (wrun_reachable _ [0; 1; 1; 0]%nat).
Defined.

End Writers.
