(* ===== verification/System.v ===== *)
(** * System: the request function against any number of key writers

    [sbd_request] (ramdisk.c lines 159-178) runs with the queue lock
    [Device.lock] held for the whole drain of the queue, and calls
    [sbd_transfer] once per segment; the sysfs handler [key_store] (lines
    78-89) takes no lock.  Writers can therefore run between any two
    accesses of the request function to [crypto_key] / [key_size]: inside a
    transfer (between the key installation and the copy, as in
    [Interleave]) and between two transfers of the same drain.

    The request function is a thread whose program counter [dpc] marks
    the points where it reads the key state: [DStart] (the entry, line
    162), [DLoop req] (the loop test, line 163, with the loop variable
    [req] of [Dispatcher]), [DKeyed h] (inside [sbd_transfer] for the
    current segment of [h], after the key installation of lines 113-118)
    and [DFault f] (the run stopped at undefined behaviour).  [dstep] is
    one iteration of the loop of [Dispatcher.request_loop] cut at the key
    installation; the writers are the pool of [Writers], each stepping
    with [kstep].  [cstep] lets either the request function or any writer
    take its next step.

    Theorems: the invariant (driver state and writer pool) holds in every
    reachable state; every run is finite and ends with every writer
    returned and the request function returned or stopped at undefined
    behaviour; and, as a check of the model, with no writer active the
    split request function computes exactly what [sbd_request] computes. *)

From stdpp Require Import base list decidable sets relations.
From Stdlib Require Import ZArith Lia Strings.Byte.
From S2P Require Import Prelude.
From S2P Require Import Cipher.
From S2P Require Import KeyStore.
From S2P Require Import Transfer.
From S2P Require Import Dispatcher.
From S2P Require Import Interleave.
From S2P Require Import Writers.

Open Scope Z_scope.

Module System.
Import KeyStore Transfer Dispatcher Interleave Writers.

(** ** The request function as a thread *)

Inductive dpc :=
  | DStart                      (** entry of [sbd_request] *)
  | DLoop (req : option handle) (** the test [while (req != NULL)] *)
  | DKeyed (h : handle)         (** in [sbd_transfer], key installed *)
  | DFault (f : fault).         (** stopped at undefined behaviour *)

Record csys := mk_csys { c_sys : sys; c_pc : dpc; c_writers : list kthread }.

Inductive actor := Disp | Writer (i : nat).

Section Steps.
Context `{BlockCipher}.

(** One step of the request function: the fetch of line 162, one
    iteration of the loop for a non-file-system request (lines 165-169),
    or the two halves of an iteration for a file-system request: the key
    installation of [sbd_transfer], then the rest of the transfer and the
    completion of the segment (lines 171-176). *)
Definition dstep (s : sys) (pc : dpc) : option (sys * dpc) :=
  match pc with
  | DStart => let '(req, s1) := blk_fetch_request s in Some (s1, DLoop req)
  | DLoop None => None
  | DLoop (Some h) =>
      if negb (h_live h) then Some (s, DFault UseAfterFree)
      else if negb (bool_decide (rq_cmd (h_req h) = REQ_TYPE_FS)) then
        let s1 := set_drv s (printk (drv s) MsgSkipNonCmd) in
        let '(s2, h2) := blk_end_request_all s1 h (- EIO) in
        Some (s2, DLoop (Some h2))
      else Some (set_drv s (transfer_prologue (drv s)), DKeyed h)
  | DKeyed h =>
      let r := h_req h in
      let '(nsect, buf) := cur_segment r in
      match transfer_body (drv s) (rq_pos r) nsect buf (rq_write r) with
      | Ok (d', buf') =>
          let '(more, s2, h2) := blk_end_request_cur (set_drv s d') h 0 buf' in
          if negb more then
            let '(next, s3) := blk_fetch_request s2 in Some (s3, DLoop next)
          else Some (s2, DLoop (Some h2))
      | Fault f => Some (s, DFault f)
      | OutOfFuel => None
      end
  | DFault _ => None
  end.

(** A writer's step changes the key state of the shared driver state. *)
Definition set_sys_keys (s : sys) (ks : keystore) : sys := set_drv s (set_keys (drv s) ks).

Definition cstep_fun (c : csys) (a : actor) : option csys :=
  match a with
  | Disp =>
      match dstep (c_sys c) (c_pc c) with
      | Some (s', pc') => Some (mk_csys s' pc' (c_writers c))
      | None => None
      end
  | Writer i =>
      match c_writers c !! i with
      | Some k =>
          match kstep (keys (drv (c_sys c))) k with
          | Some (ks', k') => Some (mk_csys (set_sys_keys (c_sys c) ks') (c_pc c) (<[i := k']> (c_writers c)))
          | None => None
          end
      | None => None
      end
  end.

Fixpoint crun (c : csys) (sched : list actor) : option csys :=
  match sched with
  | [] => Some c
  | a :: sched' => match cstep_fun c a with Some c' => crun c' sched' | None => None end
  end.

Inductive cstep : relation csys :=
  | CStep c a c' : cstep_fun c a = Some c' -> cstep c c'.

End Steps.

(** Every writer has returned. *)
Definition writers_idle (ws : list kthread) : Prop :=
  Forall (fun k => exists r, k_pc k = KDone r) ws.

(** The invariant: the driver's, and the writer pool's. *)
Definition csys_inv (c : csys) : Prop :=
  drv_wf (drv (c_sys c)) /\ pool_ok (c_writers c).

(** ** Lemmas on the steps *)

Section StepFacts.
Context `{BlockCipher}.

Lemma cstep_fun_cstep c a c' : cstep_fun c a = Some c' -> cstep c c'.
Proof. apply CStep. Qed.

Lemma crun_reachable c sched c' : crun c sched = Some c' -> rtc cstep c c'.
Proof.
  revert c. induction sched as [|a sched IH]; cbn; intros c Hr; [injection Hr as <-; apply rtc_refl|].
  destruct (cstep_fun c a) as [c1|] eqn:E; [|done].
  eapply rtc_l; [by eapply cstep_fun_cstep | by apply IH].
Qed.

(** A step of the system is a step of the request function or of one
    writer. *)
Lemma cstep_cases c c' :
  cstep c c' ->
  (exists s' pc', dstep (c_sys c) (c_pc c) = Some (s', pc') /\ c' = mk_csys s' pc' (c_writers c)) \/
  (exists i k ks' k', c_writers c !! i = Some k /\ kstep (keys (drv (c_sys c))) k = Some (ks', k') /\
     c' = mk_csys (set_sys_keys (c_sys c) ks') (c_pc c) (<[i := k']> (c_writers c))).
Proof.
  intros [c0 [|i] c1 E]; cbn in E.
  - left. destruct (dstep _ _) as [[s' pc']|]; [|done]. injection E as <-. eauto.
  - right. destruct (c_writers c0 !! i) as [k|] eqn:Hi; [|done].
    destruct (kstep _ k) as [[ks' k']|] eqn:Hk; [|done]. injection E as <-. eauto 10.
Qed.

Lemma blk_end_request_cur_queue s h e b more s2 h2 :
  blk_end_request_cur s h e b = (more, s2, h2) -> queue s2 = queue s.
Proof.
  unfold blk_end_request_cur. destruct (rq_segs (h_req h)) as [|seg [|seg2 rest]];
    intros [= <- <- <-]; done.
Qed.

(** One step of the request function keeps the driver invariant. *)
Lemma dstep_wf s pc s' pc' :
  drv_wf (drv s) -> dstep s pc = Some (s', pc') -> drv_wf (drv s').
Proof.
  intros Hwf. destruct pc as [|[h|]|h|f]; cbn [dstep]; try discriminate.
  - destruct (blk_fetch_request s) as [req s1] eqn:Ef. intros [= <- _].
    apply blk_fetch_request_drv in Ef. by rewrite Ef.
  - destruct (h_live h); cbn [negb]; [|by intros [= <- _]].
    destruct (bool_decide _); cbn [negb]; intros [= <- _]; cbn.
    + by apply prologue_wf.
    + by apply (drv_wf_same (drv s)).
  - destruct (cur_segment (h_req h)) as [nsect buf].
    destruct (transfer_body (drv s) _ nsect buf _) as [[d' buf']|f|] eqn:Et; [|by intros [= <- _]|done].
    apply transfer_body_wf in Et as [Hwf' _]; [|done].
    destruct (blk_end_request_cur (set_drv s d') h 0 buf') as [[more s2] h2] eqn:Ee.
    apply blk_end_request_cur_drv in Ee. cbn [drv set_drv] in Ee.
    destruct more; cbn [negb]; [by intros [= <- _]; rewrite Ee|].
    destruct (blk_fetch_request s2) as [next s3] eqn:Ef. apply blk_fetch_request_drv in Ef.
    intros [= <- _]. by rewrite Ef, Ee.
Qed.

Lemma cstep_inv c c' : cstep c c' -> csys_inv c -> csys_inv c'.
Proof.
  intros Hs (Hwf & Hw). destruct (cstep_cases c c' Hs) as [(s' & pc' & E & ->)|(i & k & ks' & k' & Hi & Hk & ->)].
  - split; [by eapply dstep_wf|done].
  - destruct (pool_step _ _ _ _ _ _ (proj1 Hwf) Hw Hi Hk) as (Hks & Hw').
    split; [|done]. by apply drv_wf_set_keys.
Qed.

End StepFacts.

(** ** Termination: the steps each thread still has to take *)

(** A live file-system request takes two steps per segment (one for a
    request without segments); a live other request two (its completion,
    then the use after free); a freed one one. *)
Definition h_left (h : handle) : nat :=
  if negb (h_live h) then 1
  else if bool_decide (rq_cmd (h_req h) = REQ_TYPE_FS) then 2 * max 1 (length (rq_segs (h_req h)))
  else 2.

Definition q_left (q : list request) : nat := sum_list_with (fun r => h_left (mk_handle r true)) q.

Definition d_left (s : sys) (pc : dpc) : nat :=
  match pc with
  | DStart => S (q_left (queue s))
  | DLoop None | DFault _ => 0
  | DLoop (Some h) => h_left h + q_left (queue s)
  | DKeyed h => 2 * max 1 (length (rq_segs (h_req h))) - 1 + q_left (queue s)
  end.

Definition c_left (c : csys) : nat :=
  d_left (c_sys c) (c_pc c) + sum_list_with (fun k => ks_left (k_pc k)) (c_writers c).

Section Termination.
Context `{BlockCipher}.

Lemma fetch_left s next s3 :
  blk_fetch_request s = (next, s3) ->
  (match next with None => 0 | Some h => h_left h end + q_left (queue s3) = q_left (queue s))%nat.
Proof. destruct s as [d q c]. unfold blk_fetch_request. cbn. destruct q; intros [= <- <-]; reflexivity. Qed.

Lemma dstep_left s pc s' pc' : dstep s pc = Some (s', pc') -> (d_left s' pc' < d_left s pc)%nat.
Proof.
  destruct pc as [|[h|]|h|f]; cbn [dstep]; try discriminate.
  - destruct (blk_fetch_request s) as [req s1] eqn:Ef. intros [= <- <-].
    apply fetch_left in Ef. destruct req; cbn [d_left]; lia.
  - cbn [d_left]. unfold h_left.
    destruct (h_live h) eqn:Hl; cbn [negb]; [|intros [= <- <-]; cbn; lia].
    destruct (bool_decide _) eqn:Hfs; cbn [negb]; intros [= <- <-]; cbn -[q_left];
      rewrite ?Hl, ?Hfs; cbn -[q_left]; lia.
  - destruct (cur_segment (h_req h)) as [nsect buf].
    destruct (transfer_body (drv s) _ nsect buf _) as [[d' buf']|f|]; [|intros [= <- <-]; cbn; lia|done].
    destruct (blk_end_request_cur (set_drv s d') h 0 buf') as [[more s2] h2] eqn:Ee.
    pose proof (blk_end_request_cur_queue _ _ _ _ _ _ _ Ee) as Eq. cbn [queue set_drv] in Eq.
    destruct more; cbn [negb].
    + intros [= <- <-]. cbn [d_left]. rewrite Eq.
      revert Ee. unfold blk_end_request_cur, h_left.
      destruct (rq_segs (h_req h)) as [|seg [|seg2 rest]]; intros Ee; simplify_eq.
      cbn -[q_left]. destruct (bool_decide _); cbn -[q_left]; lia.
    + destruct (blk_fetch_request s2) as [next s3] eqn:Ef. apply fetch_left in Ef.
      rewrite Eq in Ef. intros [= <- <-]. destruct next; cbn [d_left]; lia.
Qed.

Lemma cstep_left c c' : cstep c c' -> (c_left c' < c_left c)%nat.
Proof.
  intros Hs. unfold c_left.
  destruct (cstep_cases c c' Hs) as [(s' & pc' & E & ->)|(i & k & ks' & k' & Hi & Hk & ->)]; cbn.
  - pose proof (dstep_left _ _ _ _ E). lia.
  - assert (Ed : d_left (set_sys_keys (c_sys c) ks') (c_pc c) = d_left (c_sys c) (c_pc c))
      by (destruct (c_pc c) as [|[]| |]; reflexivity).
    pose proof (sum_list_with_insert (fun k => ks_left (k_pc k)) _ _ _ k' Hi).
    assert (ks_left (k_pc k') < ks_left (k_pc k))%nat.
    { revert Hk. unfold kstep. destruct (k_pc k); [destruct (key_store_guard _)| |];
        intros; simplify_eq; cbn; lia. }
    lia.
Qed.

Lemma cstep_sn c : sn cstep c.
Proof. exact (sn_measure cstep c_left cstep_left c). Qed.

End Termination.

(** ** Final states *)

Section Final.
Context `{BlockCipher}.

(** The request function stops only once it has returned or at undefined
    behaviour: the transfer never runs out of fuel. *)
Lemma dstep_None s pc : dstep s pc = None -> pc = DLoop None \/ exists f, pc = DFault f.
Proof.
  destruct pc as [|[h|]|h|f]; cbn [dstep]; eauto.
  - by destruct (blk_fetch_request s).
  - destruct (negb _); [done|]. destruct (negb _); [|done].
    by destruct (blk_end_request_all _ _ _).
  - destruct (cur_segment (h_req h)) as [nsect buf].
    destruct (transfer_body (drv s) _ nsect buf _) as [[d' buf']|f|] eqn:Et; [|done|].
    + destruct (blk_end_request_cur _ _ _ _) as [[[|] s2] h2]; cbn [negb]; [done|].
      by destruct (blk_fetch_request s2).
    + by apply transfer_body_not_out_of_fuel in Et.
Qed.

Lemma kstep_None ks k : kstep ks k = None -> exists r, k_pc k = KDone r.
Proof. unfold kstep. destruct (k_pc k); [by destruct (key_store_guard _)|done|eauto]. Qed.

(** A state from which the system cannot step has every writer returned
    and the request function returned or stopped. *)
Lemma nf_cstep c :
  nf cstep c -> (c_pc c = DLoop None \/ exists f, c_pc c = DFault f) /\ writers_idle (c_writers c).
Proof.
  intros Hnf. split.
  - apply (dstep_None (c_sys c)). destruct (dstep (c_sys c) (c_pc c)) as [[s' pc']|] eqn:E; [|done].
    destruct Hnf. exists (mk_csys s' pc' (c_writers c)). apply (CStep _ Disp). cbn. by rewrite E.
  - apply Forall_lookup_2. intros i k Hi. apply (kstep_None (keys (drv (c_sys c)))).
    destruct (kstep _ k) as [[ks' k']|] eqn:Hk; [|done].
    destruct Hnf. eexists. apply (CStep _ (Writer i)). cbn. by rewrite Hi, Hk.
Qed.

End Final.

(** ** The request function alone is [sbd_request] *)

Section Alone.
Context `{BlockCipher}.

(** What a result of the sequential loop says of the system: the state
    it returns, or a stop at the same fault. *)
Definition sim_result (ws : list kthread) (r : res sys) (c : csys) : Prop :=
  match r with
  | Ok s' => rtc cstep c (mk_csys s' (DLoop None) ws)
  | Fault f => exists s', rtc cstep c (mk_csys s' (DFault f) ws)
  | OutOfFuel => True
  end.

Lemma sim_result_pre ws r c c1 : cstep c c1 -> sim_result ws r c1 -> sim_result ws r c.
Proof.
  intros Hs. destruct r as [s'|f|]; cbn; [by apply rtc_l|intros [s' Hr]; exists s'; by eapply rtc_l|done].
Qed.

Lemma drv_set_drv s d : drv (set_drv s d) = d.
Proof. done. Qed.

Lemma set_drv_set_drv s d d' : set_drv (set_drv s d) d' = set_drv s d'.
Proof. done. Qed.

Lemma disp_step s pc ws s' pc' :
  dstep s pc = Some (s', pc') -> cstep (mk_csys s pc ws) (mk_csys s' pc' ws).
Proof. intros E. apply (CStep _ Disp). cbn. by rewrite E. Qed.

(** Each iteration of [request_loop] is one or two steps of the request
    function, whatever the writers. *)
Lemma request_loop_sim fuel req s ws :
  sim_result ws (request_loop fuel req s) (mk_csys s (DLoop req) ws).
Proof.
  revert req s. induction fuel as [|fuel IH]; intros req s; [done|].
  cbn [request_loop]. destruct req as [h|]; [|apply rtc_refl].
  destruct (h_live h) eqn:Hl; cbn [negb].
  2: { exists s. apply rtc_once, disp_step. cbn. by rewrite Hl. }
  destruct (bool_decide _) eqn:Hfs; cbn [negb].
  - destruct (cur_segment (h_req h)) as [nsect buf] eqn:Ec.
    eapply sim_result_pre.
    { apply disp_step. cbn [dstep]. by rewrite Hl, Hfs. }
    unfold sbd_transfer.
    destruct (transfer_body (transfer_prologue (drv s)) _ nsect buf _) as [[d' buf']|f|] eqn:Et;
      cbn [res_bind]; [|exists (set_drv s (transfer_prologue (drv s))) | done].
    + destruct (blk_end_request_cur (set_drv s d') h 0 buf') as [[more s2] h2] eqn:Ee.
      assert (Eb : dstep (set_drv s (transfer_prologue (drv s))) (DKeyed h) =
                     if negb more then let '(next, s3) := blk_fetch_request s2 in Some (s3, DLoop next)
                     else Some (s2, DLoop (Some h2))).
      { cbn [dstep]. rewrite Ec, drv_set_drv, Et, set_drv_set_drv, Ee. done. }
      destruct more; cbn [negb] in *; [eapply sim_result_pre; [apply disp_step, Eb | apply IH]|].
      destruct (blk_fetch_request s2) as [next s3].
      eapply sim_result_pre; [apply disp_step, Eb | apply IH].
    + apply rtc_once, disp_step. cbn [dstep]. rewrite Ec, drv_set_drv. by rewrite Et.
  - destruct (blk_end_request_all _ h (- EIO)) as [s2 h2] eqn:Ea.
    eapply sim_result_pre; [|apply IH]. apply disp_step. cbn [dstep]. by rewrite Hl, Hfs, Ea.
Qed.

(** With every writer returned, only the request function steps. *)
Lemma idle_cstep c c' :
  writers_idle (c_writers c) -> cstep c c' ->
  exists s' pc', dstep (c_sys c) (c_pc c) = Some (s', pc') /\ c' = mk_csys s' pc' (c_writers c).
Proof.
  intros Hid Hs. destruct (cstep_cases c c' Hs) as [?|(i & k & ks' & k' & Hi & Hk & _)]; [done|].
  destruct (Forall_lookup_1 _ _ _ _ Hid Hi) as [r Hr]. unfold kstep in Hk. by rewrite Hr in Hk.
Qed.

Lemma idle_nf s pc ws :
  writers_idle ws -> dstep s pc = None -> nf cstep (mk_csys s pc ws).
Proof.
  intros Hid E [c' Hs]. destruct (idle_cstep (mk_csys s pc ws) c' Hid Hs) as (s' & pc' & E' & _). cbn in E'. congruence.
Qed.

Lemma idle_unique s ws c1 c2 :
  writers_idle ws -> rtc cstep (mk_csys s DStart ws) c1 -> rtc cstep (mk_csys s DStart ws) c2 ->
  nf cstep c1 -> nf cstep c2 -> c1 = c2.
Proof.
  intros Hid. apply (det_nf_unique cstep (fun c => writers_idle (c_writers c))); [| |done].
  - intros x y Hx Hs. by destruct (idle_cstep _ _ Hx Hs) as (s' & pc' & _ & ->).
  - intros x y z Hx Hy Hz.
    destruct (idle_cstep _ _ Hx Hy) as (s1 & pc1 & E1 & ->), (idle_cstep _ _ Hx Hz) as (s2 & pc2 & E2 & ->).
    congruence.
Qed.

End Alone.

(** ** A drain with a key write *)

(** A four-block disk of 16-byte blocks keyed with 16 bytes of 0x41, a
    queue holding one write request of two one-block segments at block 0,
    and one writer of a 16-byte key of 0x43. *)
Definition small_state : drv_state :=
  mk_drv 16 example_keys crypto_alloc_cipher_aes (mk_device 64 (repeat Byte.x00 64)) [].

Definition split_sys : csys :=
  mk_csys (mk_sys small_state
             [mk_req 1 REQ_TYPE_FS true 0 [mk_seg 1 (repeat Byte.x42 16); mk_seg 1 (repeat Byte.x42 16)]] [])
    DStart [mk_kthread (repeat Byte.x43 16) 16 KStart].

(** The writer runs its whole [key_store] between the two segments. *)
Definition split_sched : list actor := [Disp; Disp; Disp; Writer 0; Writer 0; Disp; Disp].


(** ** Properties of the system *)

Section SystemProps.
Context `{BlockCipher}.

(** C20: whatever the queue, the number of concurrent writers and the
    interleaving, the driver invariant (key store, block size, device
    array) and the writers' invariant hold in every reachable state: in
    particular every [crypto_cipher_setkey] of every transfer of the drain
    is given a valid AES key length. *)
Theorem system_preserves_inv c c' : csys_inv c -> rtc cstep c c' -> csys_inv c'.
Proof. intros Hi Hr. induction Hr as [c|c1 c2 c3 Hs _ IH]; [done|]. by apply IH, (cstep_inv c1). Qed.

(** C19: every run of the system is finite, and every state where it
    cannot go on has every writer returned, and the request function
    returned (the queue drained) or stopped at undefined behaviour:
    neither the unlocked writers nor the request function can block or
    starve the others. *)
Theorem system_completes c0 :
  sn cstep c0 /\
  forall c, rtc cstep c0 c -> nf cstep c ->
    (c_pc c = DLoop None \/ exists f, c_pc c = DFault f) /\ writers_idle (c_writers c).
Proof. split; [apply cstep_sn | intros c _; apply nf_cstep]. Qed.

(** With no writer active, the split request function is
    [sbd_request]: when [sbd_request] returns a state, the system reaches
    exactly that state and every maximal run ends there; when it stops
    at undefined behaviour, every maximal run stops at the same fault. *)
Lemma system_refines_sbd_request s ws fuel :
  writers_idle ws ->
  (forall s', sbd_request fuel s = Ok s' ->
     rtc cstep (mk_csys s DStart ws) (mk_csys s' (DLoop None) ws) /\
     forall c, rtc cstep (mk_csys s DStart ws) c -> nf cstep c -> c = mk_csys s' (DLoop None) ws) /\
  (forall f, sbd_request fuel s = Fault f ->
     forall c, rtc cstep (mk_csys s DStart ws) c -> nf cstep c ->
       exists s', c = mk_csys s' (DFault f) ws).
Proof.
  intros Hid. unfold sbd_request.
  destruct (blk_fetch_request s) as [req s1] eqn:Ef.
  assert (Hstart : cstep (mk_csys s DStart ws) (mk_csys s1 (DLoop req) ws))
    by (apply disp_step; cbn; by rewrite Ef).
  pose proof (request_loop_sim fuel req s1 ws) as Hsim. split.
  - intros s' Er. rewrite Er in Hsim. cbn in Hsim.
    assert (Hr : rtc cstep (mk_csys s DStart ws) (mk_csys s' (DLoop None) ws)) by (eapply rtc_l; eauto).
    split; [done|]. intros c Hc Hnf.
    apply (idle_unique s ws); [done|done|done|done|by apply idle_nf].
  - intros f Er c Hc Hnf. rewrite Er in Hsim. destruct Hsim as [s' Hr]. exists s'.
    apply (idle_unique s ws); [done|done|eapply rtc_l; eauto|done|by apply idle_nf].
Qed.

End SystemProps.

(** ** Witnesses *)

Lemma split_sys_inv : csys_inv split_sys.
Proof.
  split; [apply (bool_decide_unpack _); vm_compute; reflexivity|].
  intros [|i] k Hi Hp; cbn in Hi; simplify_eq; done.
Qed.

Lemma system_preserves_inv_witness :
  exists c', crun split_sys split_sched = Some c' /\ csys_inv c'.
Proof.
  destruct (crun split_sys split_sched) as [c'|] eqn:E; [|vm_compute in E; discriminate].
  exists c'. split; [reflexivity|].
  apply (system_preserves_inv split_sys c' split_sys_inv). by apply (crun_reachable _ split_sched).
Defined.

End System.
