(* ===== verification/Registration.v ===== *)
(** * Registration: the tables the module hands to the kernel

    Besides its functions, ramdisk.c declares its license and version
    (lines 23-24) and the data through which the kernel reaches them: the sysfs attribute
    [DEVICE_ATTR(key, 0600, key_display, key_store)] (line 91), the root
    device [rd_root_dev] with its empty release function (lines 93-101),
    and the block-device operations [sbd_ops] whose only operation is
    [getgeo = sbd_getgeo] (lines 200-203).  The model gives each table as a
    record of the model's functions, and the kernel paths that use them,
    modelled from the kernel's documented behaviour: the sysfs read and
    write of an attribute file (the permission check of the file mode, the
    empty write that never reaches [store]) and the [HDIO_GETGEO] ioctl
    ([blkdev_getgeo], which zeroes a [struct hd_geometry], presets its
    [start] to the first sector of the partition and calls [getgeo]).

    Theorems: a write through sysfs reaches [key_store] only for root and
    for a non-empty buffer; and the [HDIO_GETGEO] ioctl on a partition reports start 0, because
    [sbd_getgeo] overwrites the start the block layer preset. *)

From stdpp Require Import base list decidable.
From Stdlib Require Import ZArith Lia Strings.Byte Strings.String.
From S2P Require Import Prelude.
From S2P Require Import Cipher.
From S2P Require Import KeyStore.
From S2P Require Import Transfer.
From S2P Require Import Dispatcher.
From S2P Require Import Geometry.

Open Scope Z_scope.

Module Registration.
Import KeyStore Transfer Geometry.

Definition EACCES : Z := 13.
Definition ENOTTY : Z := 25.

(** ** The module's metadata *)

(** [MODULE_LICENSE("Dual BSD/GPL")] (line 23): the license the module
    declares to the kernel. *)
Definition module_license : string := "Dual BSD/GPL".

(** [static char *Version = "1.4";] (line 24): never read by the code. *)
Definition Version : string := "1.4".

(** ** The tables *)

(** [struct device_attribute]: a name, a file mode, and the [show] and
    [store] handlers. *)
Record device_attribute := mk_attr {
  attr_name : string;
  attr_mode : Z;
  attr_show : keystore -> res (list byte * Z);
  attr_store : keystore -> list byte -> Z -> Z * keystore
}.

(** [DEVICE_ATTR(key, 0600, key_display, key_store)]; 0600 is 384. *)
Definition dev_attr_key : device_attribute :=
  mk_attr "key" 384 key_display key_store.

(** [static void rd_root_dev_release(struct device *dev) { }]: it frees
    nothing (the device is static). *)
Definition rd_root_dev_release (dev : unit) : unit := tt.

(** [struct device]: the fields [rd_root_dev] sets. *)
Record device := mk_dev { init_name : string; release : unit -> unit }.

Definition rd_root_dev : device := mk_dev "sbd" rd_root_dev_release.

(** [sbd_getgeo] as the operation the table stores: it writes every field
    of [*geo], so the incoming contents are never read. *)
Definition sbd_getgeo_op (st : drv_state) (geo : hd_geometry) : Z * hd_geometry :=
  sbd_getgeo st.

(** [struct block_device_operations]: [.owner] is the module, [getgeo]
    the only operation (absent operations are [None]). *)
Record block_device_operations := mk_bdops {
  bd_getgeo : option (drv_state -> hd_geometry -> Z * hd_geometry)
}.

Definition sbd_ops : block_device_operations := mk_bdops (Some sbd_getgeo_op).

(** ** The kernel paths that use them *)

(** Permission to open an attribute file: the file belongs to root; root
    bypasses the mode bits, any other user gets the "other" bits, which
    are 0 in 0600. *)
Definition may_open (mode uid : Z) (write : bool) : bool :=
  (uid =? 0) || Z.testbit mode (if write then 1 else 2).

(** A write of [count] bytes to the attribute file: refused without
    permission, 0 without calling [store] for an empty write, and the
    handler's result otherwise. *)
Definition sysfs_write (a : device_attribute) (uid : Z) (ks : keystore)
    (buf : list byte) (count : Z) : Z * keystore :=
  if negb (may_open (attr_mode a) uid true) then (- EACCES, ks)
  else if count =? 0 then (0, ks)
  else attr_store a ks buf count.

Definition sysfs_read (a : device_attribute) (uid : Z) (ks : keystore) : res (list byte * Z) :=
  if negb (may_open (attr_mode a) uid false) then Ok ([], - EACCES)
  else attr_show a ks.

(** [blkdev_getgeo]: zero the structure, preset [start] to the partition's
    first sector, call the driver's [getgeo], report the structure. *)
Definition blkdev_getgeo (ops : block_device_operations) (st : drv_state)
    (part_start : Z) : Z * option hd_geometry :=
  match bd_getgeo ops with
  | None => (- ENOTTY, None)
  | Some getgeo =>
      let '(ret, geo) := getgeo st (mk_geo 0 0 0 part_start) in
      if negb (ret =? 0) then (ret, None) else (0, Some geo)
  end.

(** ** Properties *)

(** A write to the [key] file reaches [key_store] only for root: any
    other user is refused with [-EACCES] and root's empty write returns 0;
    in both cases the key state is unchanged.  Root's other writes are
    exactly [key_store]. *)
Lemma sysfs_key_write uid ks buf count :
  sysfs_write dev_attr_key uid ks buf count =
    if negb (uid =? 0) then (- EACCES, ks)
    else if count =? 0 then (0, ks)
    else key_store ks buf count.
Proof. unfold sysfs_write, may_open. cbn. by destruct (uid =? 0). Qed.

(** C31: the [HDIO_GETGEO] ioctl loses the partition offset.  The block
    layer presets [geo.start] to the first sector of the partition the
    ioctl is made on, but [sbd_getgeo] stores [geo->start = 0], so the
    ioctl reports start 0 on every partition of the disk. *)
Theorem blkdev_getgeo_start_lost st part_start :
  exists geo, blkdev_getgeo sbd_ops st part_start = (0, Some geo) /\
              start geo = 0 /\ geo = snd (sbd_getgeo st).
Proof.
  unfold blkdev_getgeo. cbn [sbd_ops bd_getgeo]. unfold sbd_getgeo_op. rewrite getgeo_eq.
  eexists. split; [reflexivity | split; reflexivity].
Qed.

End Registration.
