(* ===== verification/Session.v ===== *)
(** * Session: the driver between [module_init] and [module_exit]

    [Lifecycle] runs [sbd_init] over the module's globals; [Transfer],
    [Dispatcher] and [KeyStore] run the handlers over [drv_state].  Both
    are views of the same globals of ramdisk.c (lines 25-58): the module
    parameters, [crypto_key] / [key_size], [Device] and [tfm].  This file
    relates them: [loaded_drv] is the state the handlers see after a
    successful [sbd_init], with the key store as the static initialisers
    leave it, the freshly allocated transform, and [Device.size] and the
    [vmalloc]ed area [Device.data] that [sbd_init] stored.  The contents of
    a fresh [vmalloc] area are unspecified, so they are a parameter.

    Theorems: after a successful load the handlers' invariant holds and,
    whatever key is stored, every write inside the capacity the gendisk
    announces lands on the disk as a plain array write of the buffer; and
    the whole session load, a root write of a valid key through sysfs, a
    write and a read of the same sectors returns the bytes written. *)

From stdpp Require Import base list decidable.
From Stdlib Require Import ZArith Lia Strings.Byte Strings.String.
From S2P Require Import Prelude.
From S2P Require Import Cipher.
From S2P Require Import KeyStore.
From S2P Require Import Transfer.
From S2P Require Import Dispatcher.
From S2P Require Import Lifecycle.
From S2P Require Import Interleave.
From S2P Require Import Registration.


Open Scope Z_scope.
Set Warnings "-clear-no-such-hyp".

Module Session.
Import KeyStore Transfer Dispatcher Lifecycle Interleave Registration.

(** ** The handlers' state after [sbd_init] *)

(** The globals as the handlers read them: [logical_block_size] (line 27),
    [crypto_key] and [key_size] with their static initialisers (lines
    34-35), [Device.size] and [Device.data] (lines 49-54) as [sbd_init]
    left them, and [tfm] (line 56) a transform fresh from
    [crypto_alloc_cipher]. *)
Definition loaded_drv (s : lstate) (data : list byte) : drv_state :=
  mk_drv (g_logical_block_size (glob s)) keystore_init crypto_alloc_cipher_aes
    (mk_device (g_size (glob s)) data) [].

(** A session after a successful load: root writes [key] to the sysfs
    attribute, then the block layer writes [buf] to sectors
    [[sector, sector + n)] and reads them back into [buf2].  The result is
    what the sysfs write returned and the buffer the read filled. *)
Definition session_keyed (s : lstate) (data key : list byte) : Z * drv_state :=
  let st0 := loaded_drv s data in
  let '(r, ks) := sysfs_write dev_attr_key 0 (keys st0) key (Z.of_nat (List.length key)) in
  (r, set_keys st0 ks).

Definition session_write_read `{BlockCipher} (s : lstate) (data key : list byte)
    (sector n : Z) (buf buf2 : list byte) : res (Z * list byte) :=
  let '(r, st) := session_keyed s data key in
  let? w := sbd_transfer st sector n buf true in
  let? rd := sbd_transfer (fst w) sector n buf2 false in
  Ok (r, snd rd).


(** ** What a successful [sbd_init] leaves *)

Lemma sbd_init_ok_globals env lbs nsect r s :
  env_all_ok env -> 0 < nsect * lbs <= INT_MAX ->
  sbd_init env (module_load 0 lbs nsect) = Ok (r, s) ->
  r = 0 /\ g_logical_block_size (glob s) = lbs /\ g_size (glob s) = nsect * lbs /\
  exists gd, g_gd (glob s) = Some gd /\ gd_capacity gd = nsect.
Proof.
  intros Hok Hr. env_ok_hyps Hok. unfold INT_MAX in Hr.
  lc_eval. intros [= <- <-]. cbn. repeat split. by eexists.
Qed.

(** The handlers' invariant holds for the loaded state as soon as
    [Device.data] has [Device.size] bytes. *)
Lemma loaded_drv_wf s data :
  0 < g_logical_block_size (glob s) <= INT_MAX -> 0 <= g_size (glob s) < ULONG_MODULUS ->
  Z.of_nat (List.length data) = g_size (glob s) -> drv_wf (loaded_drv s data).
Proof.
  intros Hl Hs Hd. split; [apply keystore_init_wf|]. cbn. lia.
Qed.

(** A request inside the device passes the bounds check of [sbd_transfer]
    and returns. *)
Lemma sbd_transfer_ok `{BlockCipher} st sector nsect buf write :
  drv_wf st -> in_range st sector nsect ->
  logical_block_size st mod AES_BLOCK_SIZE = 0 ->
  nsect * logical_block_size st <= Z.of_nat (List.length buf) ->
  exists st' buf', sbd_transfer st sector nsect buf write = Ok (st', buf').
Proof.
  intros Hwf Hr Hal Hb. destruct (prologue_device st) as (Pd & Pk & Pl).
  unfold sbd_transfer. apply transfer_body_ok; rewrite ?Pl; try done.
  - by apply prologue_wf.
  - exact (in_range_same st _ sector nsect Pl (f_equal dev_size Pd) Hr).
Qed.

(** ** Properties of the session *)

Section SessionProps.
Context `{BlockCipher}.

(** C6: after a successful [sbd_init], every write the block layer can
    make inside the capacity the gendisk announces lands on the disk:
    [set_capacity(Device.gd, nsectors)] and the [sector * logical_block_size]
    of [sbd_transfer] count the same units, so the bounds check of line 120
    lets every such request through.  Whatever key has been stored since,
    and with a block size that is a multiple of the AES block, the write of
    a buffer of [n * logical_block_size] bytes changes the plaintext view of
    the disk exactly as writing those bytes at [sector * logical_block_size]
    into a plain array would. *)
Theorem session_loaded_serves env lbs nsect s data :
  env_all_ok env -> 0 < lbs -> lbs mod AES_BLOCK_SIZE = 0 -> 0 < nsect * lbs <= INT_MAX ->
  sbd_init env (module_load 0 lbs nsect) = Ok (0, s) ->
  Z.of_nat (List.length data) = g_size (glob s) ->
  exists gd, g_gd (glob s) = Some gd /\
    forall ks sector n buf, keystore_wf ks ->
      0 <= sector -> 0 <= n -> sector + n <= gd_capacity gd ->
      n * lbs <= Z.of_nat (List.length buf) ->
      exists st', sbd_transfer (set_keys (loaded_drv s data) ks) sector n buf true = Ok (st', buf) /\
        plain_view st' = splice (plain_view (set_keys (loaded_drv s data) ks)) (Z.to_nat (sector * lbs))
                           (take (Z.to_nat (n * lbs)) buf).
Proof.
  intros Hok Hl Hal Hr Hi Hd.
  assert (0 < nsect) by nia.
  destruct (sbd_init_ok_globals env lbs nsect 0 s Hok Hr Hi) as (_ & El & Es & gd & Eg & Ec).
  assert (Hwf : drv_wf (loaded_drv s data))
    by (apply loaded_drv_wf; [rewrite El | rewrite Es | exact Hd]; unfold ULONG_MODULUS, INT_MAX in *; nia).
  exists gd. split; [done|]. intros ks sector n buf Hks Hs Hn Hc Hb.
  destruct (transfer_write_plain (set_keys (loaded_drv s data) ks) sector n buf)
    as (st' & W & _ & V); cbn; rewrite ?El, ?Es; try done.
  - by apply drv_wf_set_keys.
  - unfold in_range. cbn. rewrite El, Es. nia.
  - by apply mul_aligned.
  - exists st'. split; [done|]. cbn in V. by rewrite El in V.
Qed.

(** C5: the whole session.  After a successful load, root writes a key
    of 16, 24 or 32 bytes to the sysfs [key] attribute, which returns the
    count; the block layer then writes a buffer to sectors inside the
    gendisk's capacity and reads the same sectors back: the read returns
    the bytes written, whatever the fresh [vmalloc] area held. *)
Theorem session_key_roundtrip env lbs nsect s gd data key sector n buf buf2 :
  env_all_ok env -> 0 < lbs -> lbs mod AES_BLOCK_SIZE = 0 -> 0 < nsect * lbs <= INT_MAX ->
  sbd_init env (module_load 0 lbs nsect) = Ok (0, s) -> g_gd (glob s) = Some gd ->
  Z.of_nat (List.length data) = g_size (glob s) ->
  aes_keylen_ok (Z.of_nat (List.length key)) = true ->
  0 <= sector -> 0 <= n -> sector + n <= gd_capacity gd ->
  n * lbs <= Z.of_nat (List.length buf) -> n * lbs <= Z.of_nat (List.length buf2) ->
  exists buf2', session_write_read s data key sector n buf buf2 =
                  Ok (Z.of_nat (List.length key), buf2') /\
    take (Z.to_nat (n * lbs)) buf2' = take (Z.to_nat (n * lbs)) buf.
Proof.
  intros Hok Hl Hal Hr Hi Hg Hd Hk Hs Hn Hc Hb Hb2.
  assert (0 < nsect) by nia.
  destruct (sbd_init_ok_globals env lbs nsect 0 s Hok Hr Hi) as (_ & El & Es & gd' & Eg & Ec).
  rewrite Hg in Eg. injection Eg as <-.
  assert (Hwf : drv_wf (loaded_drv s data))
    by (apply loaded_drv_wf; [rewrite El | rewrite Es | exact Hd]; unfold ULONG_MODULUS, INT_MAX in *; nia).
  unfold session_write_read, session_keyed. rewrite sysfs_key_write.
  set (count := Z.of_nat (List.length key)) in *.
  assert (Hg0 : key_store_guard count = false) by (rewrite key_store_guard_ok; by rewrite Hk).
  rewrite (proj2 (Z.eqb_neq count 0)) by (apply aes_keylen_cases in Hk; lia). cbn [negb Z.eqb].
  rewrite key_store_steps by done.
  set (ks := key_store_set_size (key_store_copy (keys (loaded_drv s data)) key count) count).
  assert (Hwf' : drv_wf (set_keys (loaded_drv s data) ks)).
  { apply drv_wf_set_keys; [done|]. apply key_store_set_size_wf; [|done].
    apply key_store_copy_wf; [apply Hwf|done]. }
  destruct (transfer_write_read (set_keys (loaded_drv s data) ks) sector n buf buf2)
    as (st1 & st2 & buf2' & W & R & T); cbn; rewrite ?El, ?Es; try done.
  - unfold in_range. cbn. rewrite El, Es. nia.
  - apply mul_aligned. done.
  - exists buf2'. rewrite W. cbn. rewrite R. cbn. split; [done|]. cbn in T. by rewrite El in T.
Qed.

End SessionProps.

(** ** Witnesses *)

(** The module loaded with 16-byte blocks and four sectors. *)
Definition loaded_state : lstate :=
  match sbd_init ok_env (module_load 0 16 4) with Ok (_, s) => s | _ => module_load 0 16 4 end.

Definition loaded_gd : gendisk :=
  match g_gd (glob loaded_state) with Some gd => gd | None => sbd_gendisk (glob loaded_state) end.

Lemma loaded_state_init : sbd_init ok_env (module_load 0 16 4) = Ok (0, loaded_state).
Proof. vm_compute. reflexivity. Qed.

Lemma session_loaded_serves_witness :
  exists gd, g_gd (glob loaded_state) = Some gd /\
    forall ks sector n buf, keystore_wf ks ->
      0 <= sector -> 0 <= n -> sector + n <= gd_capacity gd ->
      n * 16 <= Z.of_nat (List.length buf) ->
      exists st', sbd_transfer (set_keys (loaded_drv loaded_state (repeat Byte.x00 64)) ks)
                    sector n buf true = Ok (st', buf) /\
        plain_view st' = splice (plain_view (set_keys (loaded_drv loaded_state (repeat Byte.x00 64)) ks))
                           (Z.to_nat (sector * 16)) (take (Z.to_nat (n * 16)) buf).
Proof.
  apply (session_loaded_serves ok_env 16 4); [apply ok_env_all_ok | lia | reflexivity
    | unfold INT_MAX; lia | apply loaded_state_init | reflexivity].
Defined.

Lemma session_key_roundtrip_witness :
  exists buf2', session_write_read loaded_state (repeat Byte.x00 64) (repeat Byte.x41 16) 1 2
                  (repeat Byte.x42 32) (repeat Byte.x00 32) =
                Ok (Z.of_nat (List.length (repeat Byte.x41 16)), buf2') /\
    take (Z.to_nat (2 * 16)) buf2' = take (Z.to_nat (2 * 16)) (repeat Byte.x42 32).
Proof.
  apply (session_key_roundtrip ok_env 16 4 loaded_state loaded_gd);
    first [apply ok_env_all_ok | apply loaded_state_init | unfold INT_MAX; lia
          | vm_compute; reflexivity | apply (bool_decide_unpack _); vm_compute; reflexivity].
Defined.


End Session.
